(** * csv-to-multiple-web: template substitution and per-row build pipeline

    A shallow embedding of the template processor
    ([src/generator/templateProcessor.js]: [escapeForJS], [processTemplate],
    [processFile], [getAllFiles], [processDirectory]) and of the sequential
    website builder ([websiteBuilderFixed.js], the module [src/generator/index.js]
    requires; its text follows the store in
    [src/template/src/stores/websiteStore.js]: [execCommand],
    [installDependencies], [buildReactApp], [buildWebsite],
    [buildWebsitesSequential]).

    How the program is read:
    - JavaScript strings are sequences of UTF-16 code units, and both regular
      expressions of [processTemplate] are written without the [u] flag, so
      they work on code units.  A string is a list of code units ([N]).
    - [Math.random()] is a function from the number of the call to a
      fraction in [0, 1).
    - A row is a finite map from field names to strings, together with the
      properties every plain object inherits.
    - The file system is a tree of named entries and a path is a list of
      components.  An operation fails when an entry is missing or of the
      wrong kind; other failures of the operating system are not modelled.
    - The console, the random source and the file system are threaded
      through the asynchronous code in a state-and-exception monad.
    - The JSON codec, the Unicode part of [toLowerCase] and the external
      command run by [execSync] are parameters. *)

From Stdlib Require Import NArith List Lia Bool String Ascii DecimalString.
From stdpp Require Import base option list gmap.

Local Open Scope N_scope.
Local Open Scope nat_scope.

(** ** Strings *)

Abbreviation text := (list N).

(** [u "abc"] is the JavaScript string with the code units of an ASCII
    literal. *)
Definition u (s : string) : text :=
  List.map N_of_ascii (list_ascii_of_string s).

Definition startsWith (s p : text) : bool :=
  bool_decide (take (length p) s = p).

Definition endsWith (s p : text) : bool :=
  bool_decide (drop (length s - length p) s = p).

Fixpoint take_while (p : N -> bool) (s : text) : text :=
  match s with
  | c :: s' => if p c then c :: take_while p s' else []
  | [] => []
  end.

Fixpoint drop_while (p : N -> bool) (s : text) : text :=
  match s with
  | c :: s' => if p c then drop_while p s' else s
  | [] => []
  end.

(** *** Character classes of ECMAScript regular expressions *)

Definition in_range (lo hi c : N) : bool := ((lo <=? c) && (c <=? hi))%N.

(** [\w] is [[A-Za-z0-9_]]. *)
Definition is_word (c : N) : bool :=
  in_range 48 57 c || in_range 65 90 c || (c =? 95)%N || in_range 97 122 c.

(** Line terminators: LF, CR, U+2028, U+2029.  The dot of a regular
    expression without the [s] flag matches everything else. *)
Definition is_line_terminator (c : N) : bool :=
  ((c =? 10) || (c =? 13) || (c =? 8232) || (c =? 8233))%N.

Definition is_dot (c : N) : bool := negb (is_line_terminator c).

(** [\s], which is also what [String.prototype.trim] strips: WhiteSpace and
    LineTerminator. *)
Definition is_space (c : N) : bool :=
  in_range 9 13 c || (c =? 32)%N || (c =? 160)%N || (c =? 5760)%N
  || in_range 8192 8202 c || (c =? 8232)%N || (c =? 8233)%N
  || (c =? 8239)%N || (c =? 8287)%N || (c =? 12288)%N || (c =? 65279)%N.

Definition LBRACE : N := 123%N.
Definition RBRACE : N := 125%N.
Definition LBRACK : N := 91%N.
Definition RBRACK : N := 93%N.
Definition PIPE : N := 124%N.
Definition BACKSLASH : N := 92%N.
Definition SQUOTE : N := 39%N.
Definition DQUOTE : N := 34%N.
Definition LF : N := 10%N.
Definition CR : N := 13%N.
Definition DOT : N := 46%N.
Definition SLASH : N := 47%N.

(** The check mark U+2713 that begins some console lines. *)
Definition CHECK_MARK : text := [10003%N].

(** *** The string methods the program calls *)

Fixpoint strip_prefix (p s : text) : option text :=
  match p, s with
  | [], _ => Some s
  | a :: p', b :: s' => if (a =? b)%N then strip_prefix p' s' else None
  | _ :: _, [] => None
  end.

(** [str.replace(/c/g, r)] for a single code unit [c] and a replacement
    string without [$]. *)
Definition replace_char (c : N) (r : text) (s : text) : text :=
  flat_map (fun x => if (x =? c)%N then r else [x]) s.

(** [str.split(sep)] for a separator of one code unit: always at least one
    piece. *)
Fixpoint split (sep : N) (s : text) : list text :=
  match s with
  | [] => [[]]
  | c :: s' =>
      if (c =? sep)%N then [] :: split sep s'
      else match split sep s' with
           | piece :: pieces => (c :: piece) :: pieces
           | [] => [[c]]
           end
  end.

Fixpoint join_with (sep : text) (l : list text) : text :=
  match l with
  | [] => []
  | [x] => x
  | x :: rest => x ++ sep ++ join_with sep rest
  end.

Definition trim (s : text) : text :=
  rev (drop_while is_space (rev (drop_while is_space s))).

(** *** [String.prototype.replace] with a global regular expression

    [replace(re, fn)] with the [g] flag scans the string from left to right.
    At each position it tries the expression; on a match of [n >= 1] code
    units it emits [fn(match, group)] and resumes right after the match, and
    otherwise copies one code unit.  The replacement text is never scanned
    again.  [matcher] is the expression anchored at the head of its
    argument: it gives the captured group and the length of the match.
    [skip] counts the code units of the current match still to be passed
    over.  (An empty match would insert the replacement and copy the code
    unit; neither expression of this program can match the empty string.) *)
Section Replace.
Context {G St : Type}.
Variable matcher : text -> option (G * nat).
Variable fn : text -> G -> St -> text * St.

Fixpoint replace_from (s : text) (skip : nat) (st : St) : text * St :=
  match s with
  | [] => ([], st)
  | c :: s' =>
      match skip with
      | S k => replace_from s' k st
      | O =>
          match matcher s with
          | Some (g, S n) =>
              let '(r, st1) := fn (take (S n) s) g st in
              let '(out, st2) := replace_from s' n st1 in
              (r ++ out, st2)
          | Some (g, O) =>
              let '(r, st1) := fn [] g st in
              let '(out, st2) := replace_from s' 0 st1 in
              (r ++ c :: out, st2)
          | None =>
              let '(out, st1) := replace_from s' 0 st in
              (c :: out, st1)
          end
      end
  end.

Definition replace_all (s : text) (st : St) : text * St :=
  replace_from s 0 st.
End Replace.

(** ** The console and the random source *)

Inductive console_event :=
  | WarnVariableNotFound (key : text)
      (* console.warn(`Warning: Template variable '${key}' not found in data`) *)
  | WarnNoValidOptions (matched : text)
      (* console.warn(`Warning: No valid options found in random selection: ${match}`) *)
  | LogProcessingFiles (n : nat)
      (* console.log(`Processing ${files.length} template files...`) *)
  | LogProcessedFiles (n : nat)
      (* console.log(`Processed ${files.length} files successfully`) *)
  | ErrorProcessingFile (filePath message : text)
      (* console.error(`Error processing file ${filePath}:`, error.message) *)
  | ErrorProcessingDirectory (message : text)
      (* console.error('Error processing directory:', error.message) *)
  | LogConsole (message : text)
      (* console.log(message) *)
  | ErrorConsole (message : text)
      (* console.error(message) *)
  | LogBuildingWebsite (domain : text)
      (* console.log(`Building website: ${domain}`) *)
  | LogWebsiteBuilt (domain : text)
      (* console.log(`Website ${domain} built successfully`) *)
  | ErrorBuildFailed (domain message : text).
      (* console.error(`Failed to build website ${domain}:`, error.message) *)

(** A result of [Math.random()]: a number in [0, 1), here a fraction
    [num / den] with [num < den].  The rounding of the double-precision
    product is not modelled; [Math.floor(r * n)] is the floor of the exact
    product. *)
Record unit_interval := Draw { num : nat; den : nat; in_unit : num < den }.

Definition floor_times (r : unit_interval) (n : nat) : nat :=
  (num r * n) / den r.

(** What a run of the substitution engine can observe and change besides
    its result: the console and the number of [Math.random()] calls made so
    far in the process. *)
Record IO := mkIO { console : list console_event; rand_calls : nat }.

Definition emit (e : console_event) (io : IO) : IO :=
  mkIO (console io ++ [e]) (rand_calls io).

Definition tick (io : IO) : IO :=
  mkIO (console io) (S (rand_calls io)).

(** ** Row records

    A row is the plain object papaparse builds for one CSV line: its own
    properties are the CSV fields, all strings.  [data[key]] on such an
    object also finds the properties inherited from [Object.prototype];
    [String(value)] of those is the source text V8 prints for a built-in
    function, and ["[object Object]"] for [__proto__]. *)

Definition native_function (name : string) : text :=
  u ("function " ++ name ++ "() { [native code] }").

Definition Object_prototype : list (text * text) :=
  (u "constructor", native_function "Object")
  :: List.map (fun name => (u name, native_function name))
    [ "__defineGetter__"; "__defineSetter__"; "hasOwnProperty";
      "__lookupGetter__"; "__lookupSetter__"; "isPrototypeOf";
      "propertyIsEnumerable"; "toString"; "valueOf"; "toLocaleString" ]%string
  ++ [ (u "__proto__", u "[object Object]") ].

Fixpoint assoc (key : text) (l : list (text * text)) : option text :=
  match l with
  | [] => None
  | (k, v) :: l' => if bool_decide (k = key) then Some v else assoc key l'
  end.

(** [String(data[key])] when [data[key]] is neither [undefined] nor [null]. *)
Definition get_property (data : gmap text text) (key : text) : option text :=
  match data !! key with
  | Some v => Some v
  | None => assoc key Object_prototype
  end.

(** ** templateProcessor.js: the substitution engine *)

(** The four replacements of [escapeForJS], applied one after another:
    single quote, double quote, line feed, carriage return. *)
Definition escapeForJS (str : text) : text :=
  replace_char CR [BACKSLASH; 114%N]
    (replace_char LF [BACKSLASH; 110%N]
       (replace_char DQUOTE [BACKSLASH; DQUOTE]
          (replace_char SQUOTE [BACKSLASH; SQUOTE] str))).

(** [/\{\{\s*(\w+)\s*\}\}/] anchored at the head of [s]: the identifier and
    the length of the match.  [\s], [\w] and [}] are pairwise disjoint, so
    the greedy quantifiers never have to give anything back. *)
Definition match_var (s : text) : option (text * nat) :=
  match strip_prefix [LBRACE; LBRACE] s with
  | Some s1 =>
      let ws1 := take_while is_space s1 in
      let s2 := drop_while is_space s1 in
      let key := take_while is_word s2 in
      let s3 := drop_while is_word s2 in
      let ws2 := take_while is_space s3 in
      let s4 := drop_while is_space s3 in
      match key, strip_prefix [RBRACE; RBRACE] s4 with
      | _ :: _, Some _ =>
          Some (key, 2 + length ws1 + length key + length ws2 + 2)
      | _, _ => None
      end
  | None => None
  end.

(** [filePath.endsWith('.js') || filePath.endsWith('.jsx')] *)
Definition is_js_file (filePath : text) : bool :=
  endsWith filePath (u ".js") || endsWith filePath (u ".jsx").

(** The callback of the first [replace] of [processTemplate]. *)
Definition replace_variable (data : gmap text text) (filePath : text)
    (matched key : text) (io : IO) : text * IO :=
  match get_property data key with
  | Some value =>
      let processedValue :=
        if is_js_file filePath then escapeForJS value else value in
      (processedValue, io)
  | None => (matched, emit (WarnVariableNotFound key) io)
  end.

(** [/\[\[(.*?)\]\]/] anchored at the head of [s].  The lazy [.*?] first
    tries to close the span, and only if [\]\]] does not follow takes one
    more code unit, which must not be a line terminator. *)
Fixpoint lazy_dots (s : text) : option nat :=
  match s with
  | [] => None
  | c :: s' =>
      match strip_prefix [RBRACK; RBRACK] s with
      | Some _ => Some 0
      | None => if is_dot c then S <$> lazy_dots s' else None
      end
  end.

Definition match_span (s : text) : option (text * nat) :=
  match strip_prefix [LBRACK; LBRACK] s with
  | Some s1 =>
      match lazy_dots s1 with
      | Some n => Some (take n s1, 2 + n + 2)
      | None => None
      end
  | None => None
  end.

(** [options.split('|').map(s => s.trim()).filter(s => s.length > 0)] *)
Definition choices_of (options : text) : list text :=
  List.filter (fun s => negb (Nat.eqb (length s) 0))
    (List.map trim (split PIPE options)).

(** An index outside an array reads [undefined], which [replace] inserts as
    the string "undefined". *)
Definition array_get (l : list text) (i : nat) : text :=
  nth i l (u "undefined").

Section Engine.
(** [Math_random k] is the result of the [k]-th call of [Math.random()] in
    the process. *)
Variable Math_random : nat -> unit_interval.

(** The callback of the second [replace] of [processTemplate]. *)
Definition replace_selection (matched options : text) (io : IO) : text * IO :=
  let choices := choices_of options in
  match choices with
  | [] => (matched, emit (WarnNoValidOptions matched) io)
  | _ :: _ =>
      let randomIndex :=
        floor_times (Math_random (rand_calls io)) (length choices) in
      (array_get choices randomIndex, tick io)
  end.

Definition substitute_variables (data : gmap text text) (filePath : text)
    (content : text) (io : IO) : text * IO :=
  replace_all match_var (replace_variable data filePath) content io.

Definition select_random (content : text) (io : IO) : text * IO :=
  replace_all match_span replace_selection content io.

Definition processTemplate (content : text) (data : gmap text text)
    (filePath : text) (io : IO) : text * IO :=
  let '(processedContent, io1) :=
    substitute_variables data filePath content io in
  select_random processedContent io1.
End Engine.

(** ** The file system

    A directory tree.  [Special] stands for what is neither a regular file
    nor a directory (a symbolic link, a socket): [readdir] with
    [withFileTypes] answers [false] to both [isFile()] and [isDirectory()]
    for it.  A path is the list of its components, starting at the working
    directory; [path.join(dir, name)] adds one component.  File contents are
    taken as already decoded: reading and writing with ['utf8'] is the
    identity. *)

#[local] Set Warnings "-register-all".

Inductive entry :=
  | File (name : text) (content : text)
  | Dir (name : text) (items : list entry)
  | Special (name : text).

Abbreviation path := (list text).

Definition entry_name (e : entry) : text :=
  match e with
  | File name _ => name
  | Dir name _ => name
  | Special name => name
  end.

(** The path as the string the program sees (POSIX separator). *)
Fixpoint render (p : path) : text :=
  match p with
  | [] => []
  | [name] => name
  | name :: p' => name ++ SLASH :: render p'
  end.

Fixpoint find_entry (name : text) (items : list entry) : option entry :=
  match items with
  | [] => None
  | e :: rest =>
      if bool_decide (entry_name e = name) then Some e
      else find_entry name rest
  end.

(** [set_entry new items]: the entry called like [new] is replaced by
    [new]; a new name is added at the end. *)
Fixpoint set_entry (new : entry) (items : list entry) : list entry :=
  match items with
  | [] => [new]
  | e :: rest =>
      if bool_decide (entry_name e = entry_name new) then new :: rest
      else e :: set_entry new rest
  end.

Fixpoint lookup_path (p : path) (e : entry) : option entry :=
  match p with
  | [] => Some e
  | name :: p' =>
      match e with
      | Dir _ items =>
          match find_entry name items with
          | Some sub => lookup_path p' sub
          | None => None
          end
      | _ => None
      end
  end.

(** [update_path p f e]: the entry at [p] below [e] becomes [f] of it;
    [None] when there is no such entry or [f] refuses. *)
Fixpoint update_path (p : path) (f : entry -> option entry) (e : entry)
    : option entry :=
  match p with
  | [] => f e
  | name :: p' =>
      match e with
      | Dir d items =>
          match find_entry name items with
          | Some sub =>
              match update_path p' f sub with
              | Some sub' => Some (Dir d (set_entry sub' items))
              | None => None
              end
          | None => None
          end
      | _ => None
      end
  end.

Definition read_file (p : path) (root : entry) : option text :=
  match lookup_path p root with
  | Some (File _ content) => Some content
  | _ => None
  end.

Definition set_content (content : text) (e : entry) : option entry :=
  match e with
  | File name _ => Some (File name content)
  | _ => None
  end.

(** Overwriting an existing regular file. *)
Definition overwrite_file (p : path) (content : text) (root : entry)
    : option entry :=
  update_path p (set_content content) root.

(** *** [path.extname] of a bare file name

    From the last dot to the end; empty when there is no dot, when the only
    dot is the first code unit, and for the name [..]. *)
Fixpoint index_of (c : N) (s : text) : option nat :=
  match s with
  | [] => None
  | x :: s' => if (x =? c)%N then Some 0 else S <$> index_of c s'
  end.

Definition last_index_of (c : N) (s : text) : option nat :=
  (fun i => length s - 1 - i) <$> index_of c (rev s).

Definition extname (name : text) : text :=
  match last_index_of DOT name with
  | None => []
  | Some 0 => []
  | Some (S i) =>
      if bool_decide (name = [DOT; DOT]) then [] else drop (S i) name
  end.

(** ** Effects: the world, exceptions, and the monad of the asynchronous code

    An [async] function resolves to a value or rejects with an error, and
    in both cases may have changed the world on its way: the file system,
    the console, the number of random numbers drawn.  [await] is [bind];
    rows are built one after another, so the steps never interleave. *)

Record error := Error { message : text }.

Inductive outcome (A : Type) :=
  | Ok (a : A)
  | Thrown (e : error).
Arguments Ok {A} a.
Arguments Thrown {A} e.

Record World := mkWorld { fs : entry; io : IO }.

Definition M (A : Type) : Type := World -> outcome A * World.

Definition ret {A} (a : A) : M A := fun w => (Ok a, w).

Definition bind {A B} (m : M A) (k : A -> M B) : M B :=
  fun w => match m w with
           | (Ok a, w1) => k a w1
           | (Thrown e, w1) => (Thrown e, w1)
           end.

Definition throw {A} (e : error) : M A := fun w => (Thrown e, w).

(** [try { body } catch (error) { handler }] *)
Definition try_catch {A} (body : M A) (handler : error -> M A) : M A :=
  fun w => match body w with
           | (Ok a, w1) => (Ok a, w1)
           | (Thrown e, w1) => handler e w1
           end.

Definition console_out (e : console_event) : M unit :=
  fun w => (Ok tt, mkWorld (fs w) (emit e (io w))).

Declare Scope js_scope.
Delimit Scope js_scope with js.
Notation "'let!' x := m 'in' k" := (bind m (fun x => k))
  (at level 10, x name, m at level 100, k at level 200) : js_scope.
Notation "m ;; k" := (bind m (fun _ => k))
  (at level 100, k at level 200, right associativity) : js_scope.
Local Open Scope js_scope.

(** [for (const x of xs) { await body(x) }] *)
Fixpoint for_of {A} (xs : list A) (body : A -> M unit) : M unit :=
  match xs with
  | [] => ret tt
  | x :: rest => body x ;; for_of rest body
  end.

(** The errors of the file system by their kind.  The texts stand for
    Node's: the system call and the quotes around the path are left out. *)
Definition ENOENT (p : path) : error :=
  Error (u "ENOENT: no such file or directory, " ++ render p).
Definition ENOTDIR (p : path) : error :=
  Error (u "ENOTDIR: not a directory, " ++ render p).
Definition EISDIR (p : path) : error :=
  Error (u "EISDIR: illegal operation on a directory, " ++ render p).

Definition fs_readFile (p : path) : M text :=
  fun w => match lookup_path p (fs w) with
           | Some (File _ content) => (Ok content, w)
           | Some (Dir _ _) => (Thrown (EISDIR p), w)
           | _ => (Thrown (ENOENT p), w)
           end.

(** [fs.writeFile] on a file that exists, which is the only use the
    template processor makes of it. *)
Definition fs_writeFile (p : path) (content : text) : M unit :=
  fun w => match overwrite_file p content (fs w) with
           | Some root => (Ok tt, mkWorld root (io w))
           | None => (Thrown (ENOENT p), w)
           end.

Definition fs_readdir (p : path) : M (list entry) :=
  fun w => match lookup_path p (fs w) with
           | Some (Dir _ items) => (Ok items, w)
           | Some _ => (Thrown (ENOTDIR p), w)
           | None => (Thrown (ENOENT p), w)
           end.

(** ** templateProcessor.js: files and directories *)

Definition default_extensions : list text :=
  [u ".js"; u ".jsx"; u ".ts"; u ".tsx"; u ".html"; u ".json"].

Definition excluded_directories : list text :=
  [u "node_modules"; u "build"; u "dist"; u ".git"].

(** [array.includes(x)] *)
Definition includes (l : list text) (x : text) : bool :=
  bool_decide (x ∈ l).

(** The body of the loop of [traverseDirectory] for one item.  The tree is
    not changed while it is walked, so [readdir] of a subdirectory gives the
    items the tree holds for it. *)
Fixpoint traverseItem (extensions : list text) (currentPath : path)
    (item : entry) : list path :=
  let fullPath := currentPath ++ [entry_name item] in
  match item with
  | Dir name items =>
      if negb (includes excluded_directories name)
      then flat_map (traverseItem extensions fullPath) items
      else []
  | File name _ =>
      if includes extensions (extname name) then [fullPath] else []
  | Special _ => []
  end.

Definition traverseDirectory (extensions : list text) (currentPath : path)
    (items : list entry) : list path :=
  flat_map (traverseItem extensions currentPath) items.

Definition getAllFiles (dirPath : path) (extensions : list text)
    : M (list path) :=
  let! items := fs_readdir dirPath in
  ret (traverseDirectory extensions dirPath items).

(** What [processDirectory] can be asked to resolve to: nothing, or a
    number. *)
Inductive js_value :=
  | undefined
  | number (n : nat).

Section Processor.
Variable Math_random : nat -> unit_interval.

Definition run_processTemplate (content : text) (data : gmap text text)
    (filePath : path) : M text :=
  fun w =>
    let '(processedContent, io1) :=
      processTemplate Math_random content data (render filePath) (io w) in
    (Ok processedContent, mkWorld (fs w) io1).

Definition processFile (filePath : path) (data : gmap text text) : M unit :=
  try_catch
    (let! content := fs_readFile filePath in
     let! processedContent := run_processTemplate content data filePath in
     fs_writeFile filePath processedContent)
    (fun error =>
       console_out (ErrorProcessingFile (render filePath) (message error)) ;;
       throw error).

(** The function has no [return] statement: it resolves to [undefined]. *)
Definition processDirectory (dirPath : path) (data : gmap text text)
    (extensions : list text) : M js_value :=
  try_catch
    (let! files := getAllFiles dirPath extensions in
     console_out (LogProcessingFiles (length files)) ;;
     for_of files (fun file => processFile file data) ;;
     console_out (LogProcessedFiles (length files)) ;;
     ret undefined)
    (fun error =>
       console_out (ErrorProcessingDirectory (message error)) ;;
       throw error).
End Processor.

(** ** What fs-extra and path provide *)

Fixpoint is_prefix (p q : path) : bool :=
  match p, q with
  | [], _ => true
  | a :: p', b :: q' => bool_decide (a = b) && is_prefix p' q'
  | _ :: _, [] => false
  end.

(** [path.join(dir, name)] for a directory already in normal form: the
    components of [name] are added, where an empty component and [.] are
    dropped and [..] takes back the component before it.  Paths start at the
    working directory; a [..] that would lead above it is not modelled. *)
Definition join_component (dir : path) (c : text) : path :=
  if bool_decide (c = []) || bool_decide (c = [DOT]) then dir
  else if bool_decide (c = [DOT; DOT]) then removelast dir
  else dir ++ [c].

Definition path_join (dir : path) (name : text) : path :=
  fold_left join_component (split SLASH name) dir.

(** [path.relative(from, to)]. *)
Fixpoint path_relative_components (from to : path) : path :=
  match from, to with
  | a :: from', b :: to' =>
      if bool_decide (a = b) then path_relative_components from' to'
      else List.map (fun _ => [DOT; DOT]) from ++ to
  | _, _ => List.map (fun _ => [DOT; DOT]) from ++ to
  end.

Definition path_relative (from to : path) : text :=
  render (path_relative_components from to).

Definition del_entry (name : text) (items : list entry) : list entry :=
  List.filter (fun e => negb (bool_decide (entry_name e = name))) items.

(** [fs.remove]: what is at [p] goes, with everything below it; nothing
    happens when there is nothing at [p]. *)
Fixpoint remove_path (p : path) (e : entry) : entry :=
  match p, e with
  | [name], Dir d items => Dir d (del_entry name items)
  | name :: p', Dir d items =>
      match find_entry name items with
      | Some sub => Dir d (set_entry (remove_path p' sub) items)
      | None => e
      end
  | _, _ => e
  end.

(** [fs.ensureDir]: the directories of [p] that are missing are made;
    [None] when a component exists and is not a directory. *)
Fixpoint mkdirs (p : path) (e : entry) : option entry :=
  match e with
  | Dir d items =>
      match p with
      | [] => Some e
      | name :: p' =>
          let sub := default (Dir name []) (find_entry name items) in
          match mkdirs p' sub with
          | Some sub' => Some (Dir d (set_entry sub' items))
          | None => None
          end
      end
  | _ => None
  end.

Definition rename (name : text) (e : entry) : entry :=
  match e with
  | File _ content => File name content
  | Dir _ items => Dir name items
  | Special _ => Special name
  end.

(** [fs.copy] with a [filter]: the function is asked for the source and
    for every item below it; what it refuses is not copied, and a refused
    directory is not entered. *)
Fixpoint copy_entry (filter : path -> bool) (src : path) (e : entry) : entry :=
  match e with
  | Dir name items =>
      Dir name
        (flat_map (fun item =>
                     let srcItem := src ++ [entry_name item] in
                     if filter srcItem
                     then [copy_entry filter srcItem item]
                     else []) items)
  | _ => e
  end.

(** The destination is put in place of whatever was there: [buildWebsite]
    removes the destination before it copies, so the merge of [fs.copy]
    into an existing directory never happens and is not modelled. *)
Definition copy_tree (src dest : path) (filter : path -> bool) (root : entry)
    : outcome entry :=
  match lookup_path src root with
  | None => Thrown (ENOENT src)
  | Some e =>
      if is_prefix src dest then
        Thrown (Error (u "Cannot copy to a subdirectory of itself"))
      else if negb (filter src) then Ok root
      else
        match mkdirs (removelast dest) root with
        | None => Thrown (ENOTDIR (removelast dest))
        | Some root1 =>
            let copy := rename (List.last dest []) (copy_entry filter src e) in
            match update_path (removelast dest)
                    (fun d => match d with
                              | Dir n items => Some (Dir n (set_entry copy items))
                              | _ => None
                              end) root1 with
            | Some root2 => Ok root2
            | None => Thrown (ENOTDIR (removelast dest))
            end
        end
  end.

Definition lift_fs {A} (f : entry -> outcome A * entry) : M A :=
  fun w => let '(r, root) := f (fs w) in (r, mkWorld root (io w)).

Definition fs_ensureDir (p : path) : M unit :=
  lift_fs (fun root => match mkdirs p root with
                       | Some root1 => (Ok tt, root1)
                       | None => (Thrown (ENOTDIR p), root)
                       end).

Definition fs_remove (p : path) : M unit :=
  lift_fs (fun root => (Ok tt, remove_path p root)).

Definition fs_copy (src dest : path) (filter : path -> bool) : M unit :=
  lift_fs (fun root => match copy_tree src dest filter root with
                       | Ok root1 => (Ok tt, root1)
                       | Thrown e => (Thrown e, root)
                       end).

Definition fs_pathExists (p : path) : M bool :=
  fun w => (Ok (bool_decide (is_Some (lookup_path p (fs w)))), w).

(** ** JSON values *)

Inductive json :=
  | JNull
  | JBool (b : bool)
  | JNumber (literal : text)
  | JString (s : text)
  | JArray (items : list json)
  | JObject (members : list (text * json)).

Fixpoint set_member (key : text) (v : json) (members : list (text * json))
    : list (text * json) :=
  match members with
  | [] => [(key, v)]
  | (k, x) :: rest =>
      if bool_decide (k = key) then (k, v) :: rest
      else (k, x) :: set_member key v rest
  end.

(** [value[key] = v] as far as [JSON.stringify] can tell afterwards: a
    member of an object is set; on [null] the assignment throws; on an
    array or a primitive (in sloppy mode) it leaves nothing to print. *)
Definition assign (value : json) (key : text) (v : json) : outcome json :=
  match value with
  | JObject members => Ok (JObject (set_member key v members))
  | JNull =>
      Thrown (Error (u "Cannot set properties of null (setting '" ++ key ++ u "')"))
  | _ => Ok value
  end.

(** ** websiteBuilderFixed.js *)

Definition ascii_lower (c : N) : N :=
  if in_range 65 90 c then (c + 32)%N else c.

(** The value a website finishes with. *)
Inductive build_result :=
  | Succeeded (domain : text) (websitePath : path)
      (* { domain, success: true, path: websitePath } *)
  | Failed (domain : text) (error : text).
      (* { domain, success: false, error: error.message } *)

Definition result_domain (r : build_result) : text :=
  match r with
  | Succeeded domain _ => domain
  | Failed domain _ => domain
  end.

Definition success (r : build_result) : bool :=
  match r with
  | Succeeded _ _ => true
  | Failed _ _ => false
  end.

(** The [filter] that [buildWebsite] gives to [fs.copy]. *)
Definition copy_filter (templatePath src : path) : bool :=
  let relativePath := path_relative templatePath src in
  negb (startsWith relativePath (u "node_modules"))
  && negb (startsWith relativePath (u "build"))
  && negb (startsWith relativePath (u ".git")).

Section Builder.
Variable Math_random : nat -> unit_interval.

(** [JSON.parse] ([None]: a SyntaxError) and [JSON.stringify(_, null, 2)]. *)
Variable JSON_parse : text -> option json.
Variable JSON_stringify : json -> text.

(** [String.prototype.toLowerCase] on strings that are not plain ASCII. *)
Variable unicode_lower : text -> text.

(** [child_process.execSync(command, { cwd })]: the external command runs
    on the file system and returns its output or throws. *)
Variable execSync : text -> path -> entry -> outcome text * entry.

Definition toLowerCase (s : text) : text :=
  if forallb (fun c => (c <? 128)%N) s then List.map ascii_lower s
  else unicode_lower s.

Definition fs_readJson (p : path) : M json :=
  let! content := fs_readFile p in
  match JSON_parse content with
  | Some value => ret value
  | None => throw (Error (render p ++ u ": Unexpected token in JSON"))
  end.

Definition fs_writeJson (p : path) (value : json) : M unit :=
  fs_writeFile p (JSON_stringify value ++ [LF]).

Definition execCommand (command : text) (cwd : path) : M text :=
  try_catch
    (console_out (LogConsole (u "Executing: " ++ command)) ;;
     lift_fs (execSync command cwd))
    (fun error =>
       console_out (ErrorConsole (u "Command failed: " ++ command)) ;;
       console_out (ErrorConsole (message error)) ;;
       throw error).

Definition installDependencies (projectPath : path) : M unit :=
  console_out (LogConsole (u "Installing dependencies...")) ;;
  try_catch
    (execCommand (u "npm install --silent") projectPath ;;
     console_out
       (LogConsole (CHECK_MARK ++ u " Dependencies installed successfully")))
    (fun error =>
       console_out
         (ErrorConsole (u "Error installing dependencies: " ++ message error)) ;;
       throw error).

Definition buildReactApp (projectPath : path) : M unit :=
  console_out (LogConsole (u "Building React application...")) ;;
  try_catch
    (execCommand (u "npm run build") projectPath ;;
     console_out
       (LogConsole (CHECK_MARK ++ u " React application built successfully")))
    (fun error =>
       console_out
         (ErrorConsole (u "Error building React application: " ++ message error)) ;;
       throw error).

(** [domain.replace(/\./g, '-').toLowerCase()] *)
Definition package_name (domain : text) : text :=
  toLowerCase (replace_char DOT [45%N] domain).

Definition homepage (domain : text) : text := u "https://" ++ domain.

(** The block "Update package.json with unique name" of [buildWebsite]. *)
Definition updatePackageJson (domain : text) (websitePath : path) : M unit :=
  let packageJsonPath := path_join websitePath (u "package.json") in
  let! present := fs_pathExists packageJsonPath in
  if present then
    let! packageJson := fs_readJson packageJsonPath in
    let! packageJson1 :=
      (fun w => (assign packageJson (u "name") (JString (package_name domain)), w)) in
    let! packageJson2 :=
      (fun w => (assign packageJson1 (u "homepage") (JString (homepage domain)), w)) in
    fs_writeJson packageJsonPath packageJson2
  else ret tt.

(** The body of the [try] of [buildWebsite], in the order of the source:
    the copy of the template, the substitution, the manifest, and the two
    runs of the build tool. *)
Definition materialize (domain : text) (templatePath outputPath websitePath : path)
    : M unit :=
  console_out (LogBuildingWebsite domain) ;;
  fs_ensureDir outputPath ;;
  fs_remove websitePath ;;
  console_out (LogConsole (u "Copying template files...")) ;;
  fs_copy templatePath websitePath (copy_filter templatePath).

Definition install_and_build (domain : text) (websitePath : path)
    : M build_result :=
  installDependencies websitePath ;;
  buildReactApp websitePath ;;
  console_out (LogWebsiteBuilt domain) ;;
  ret (Succeeded domain websitePath).

Definition build_steps (domain : text) (data : gmap text text)
    (templatePath outputPath websitePath : path) : M build_result :=
  materialize domain templatePath outputPath websitePath ;;
  processDirectory Math_random websitePath data default_extensions ;;
  updatePackageJson domain websitePath ;;
  install_and_build domain websitePath.

(** The [catch] of [buildWebsite]. *)
Definition build_failed (domain : text) (error : error) : M build_result :=
  console_out (ErrorBuildFailed domain (message error)) ;;
  ret (Failed domain (message error)).

(** [domain] is [website.domain]: [None] when the row has no such field,
    and then [path.join] throws before the [try] is entered. *)
Definition buildWebsite (domain : option text) (data : gmap text text)
    (templatePath outputPath : path) : M build_result :=
  match domain with
  | None =>
      throw (Error (u "The path argument must be of type string. Received undefined"))
  | Some domain =>
      let websitePath := path_join outputPath domain in
      try_catch
        (build_steps domain data templatePath outputPath websitePath)
        (build_failed domain)
  end.

Fixpoint build_each (websites : list (gmap text text))
    (templatePath outputPath : path) (results : list build_result)
    : M (list build_result) :=
  match websites with
  | [] => ret results
  | website :: rest =>
      let! result :=
        buildWebsite (website !! u "domain") website templatePath outputPath in
      build_each rest templatePath outputPath (results ++ [result])
  end.

Definition buildWebsitesSequential (websites : list (gmap text text))
    (templatePath outputPath : path) : M (list build_result) :=
  build_each websites templatePath outputPath [].
End Builder.

(** * Notions the statements use *)

(** ** Where a global replace can be split *)

Section ReplaceSplit.
Context {G : Type}.
Variable matcher : text -> option (G * nat).

(** The expression is a prefix property: whether it matches, and what,
    depends only on the matched code units. *)
Definition prefix_stable : Prop :=
  (forall a b g n, matcher a = Some (g, n) -> matcher (a ++ b) = Some (g, n))
  /\ (forall a b g n, matcher (a ++ b) = Some (g, n) -> n <= length a ->
        matcher a = Some (g, n))
  /\ (forall a g n, matcher a = Some (g, n) -> 0 < n <= length a).

(** No match that begins inside [pre] reaches into [rest]. *)
Definition settled (pre rest : text) : Prop :=
  forall i g n, i < length pre ->
    matcher (drop i (pre ++ rest)) = Some (g, n) -> i + n <= length pre.

Definition settledb (pre rest : text) : bool :=
  forallb (fun i => match matcher (drop i (pre ++ rest)) with
                    | Some (_, n) => i + n <=? length pre
                    | None => true
                    end) (seq 0 (length pre)).

(** No match begins inside [v], which [rest] follows. *)
Definition no_match_inside (v rest : text) : bool :=
  forallb (fun i => match matcher (drop i (v ++ rest)) with
                    | Some _ => false
                    | None => true
                    end) (seq 0 (length v)).
End ReplaceSplit.

(** ** The double-brace token *)

(** The language of [/\{\{\s*(\w+)\s*\}\}/]: braces, optional white space,
    a non-empty identifier, optional white space, braces. *)
Definition token (ws1 key ws2 : text) : text :=
  [LBRACE; LBRACE] ++ ws1 ++ key ++ ws2 ++ [RBRACE; RBRACE].

Definition is_identifier (key : text) : bool :=
  negb (Nat.eqb (length key) 0) && forallb is_word key.

Definition is_blank (ws : text) : bool := forallb is_space ws.

(** ** The double-bracket span *)

Definition span (body : text) : text :=
  [LBRACK; LBRACK] ++ body ++ [RBRACK; RBRACK].

(** [has_close s]: two closing brackets in a row occur somewhere in [s]. *)
Fixpoint has_close (s : text) : bool :=
  match s with
  | a :: s' =>
      match s' with
      | b :: _ => ((a =? RBRACK)%N && (b =? RBRACK)%N) || has_close s'
      | [] => false
      end
  | [] => false
  end.

(** The bodies [.*?] can capture: no line terminator, and the span closes
    at the first closing pair, so no closing pair begins inside the body. *)
Definition span_body (body : text) : bool :=
  forallb is_dot body && negb (has_close (body ++ [RBRACK])).

(** [has_open s]: two opening brackets in a row occur somewhere in [s]. *)
Fixpoint has_open (s : text) : bool :=
  match s with
  | a :: s' =>
      match s' with
      | b :: _ => ((a =? LBRACK)%N && (b =? LBRACK)%N) || has_open s'
      | [] => false
      end
  | [] => false
  end.

(** ** A reader of JavaScript string literals

    [string_literal_rest q s] reads a string literal whose opening quote [q]
    has just been consumed and returns the source text that follows the
    closing quote; [None] when the literal is not terminated.  A backslash
    takes the next code unit with it; a bare line break ends the line before
    the literal is closed. *)
Fixpoint string_literal_rest (q : N) (s : text) : option text :=
  match s with
  | [] => None
  | c :: s' =>
      if (c =? q)%N then Some s'
      else if (c =? BACKSLASH)%N then
        match s' with
        | _ :: s'' => string_literal_rest q s''
        | [] => None
        end
      else if (c =? LF)%N || (c =? CR)%N then None
      else string_literal_rest q s'
  end.

(** ** Walks, trees and results *)

(** A name begins with one of the three prefixes the copy filter tests. *)
Definition excluded_from_copy (name : text) : bool :=
  startsWith name (u "node_modules")
  || startsWith name (u "build")
  || startsWith name (u ".git").

(** A relative path leads through an excluded directory: one of its
    components before the last is a name of the exclusion list. *)
Definition through_excluded (rel : path) : bool :=
  existsb (includes excluded_directories) (removelast rel).

(** The number of files below an item, excluded directories pruned, whose
    extension is in the set. *)
Fixpoint matching_files (extensions : list text) (item : entry) : nat :=
  match item with
  | File name _ => if includes extensions (extname name) then 1 else 0
  | Dir name items =>
      if includes excluded_directories name then 0
      else list_sum (List.map (matching_files extensions) items)
  | Special _ => 0
  end.

(** In a directory no two items have the same name. *)
Fixpoint unique_names (e : entry) : bool :=
  match e with
  | Dir _ items =>
      bool_decide (NoDup (List.map entry_name items))
      && forallb unique_names items
  | _ => true
  end.

(** The row has the field [domain]. *)
Definition has_domain (website : gmap text text) : bool :=
  bool_decide (is_Some (website !! u "domain")).

(** The code units a package name is made of when nothing but separators
    replaced by hyphens and lower-case letters and digits are left. *)
Definition is_slug (s : text) : bool :=
  forallb (fun c => in_range 97 122 c || in_range 48 57 c || (c =? 45)%N) s.

(** The console of [io'] continues the console of [io]. *)
Definition extends (io io' : IO) : Prop :=
  exists l, console io' = console io ++ l.

(** ** Induction over directory trees *)

Section EntryInduction.
Variable P : entry -> Prop.
Hypothesis P_File : forall name content, P (File name content).
Hypothesis P_Dir : forall name items, Forall P items -> P (Dir name items).
Hypothesis P_Special : forall name, P (Special name).

Fixpoint entry_tree_ind (e : entry) : P e :=
  match e with
  | File name content => P_File name content
  | Dir name items =>
      P_Dir name items
        ((fix all (l : list entry) : Forall P l :=
            match l with
            | [] => List.Forall_nil P
            | x :: l' => List.Forall_cons P x l' (entry_tree_ind x) (all l')
            end) items)
  | Special name => P_Special name
  end.
End EntryInduction.

(** * Sample data *)

Definition row_of (l : list (string * string)) : gmap text text :=
  list_to_map (List.map (fun kv => (u (fst kv), u (snd kv))) l).

Definition sample_row : gmap text text :=
  row_of [ ("domain", "a.test"); ("title", "A"); ("description", "d");
           ("phone", "1"); ("address", "x") ]%string.

Definition io0 : IO := mkIO [] 0.

(** The random source that always returns [n / (d + 1)], reduced into
    [0, 1). *)
Definition steady (n d : nat) : nat -> unit_interval :=
  fun _ => Draw (n mod S d) (S d) (Nat.mod_upper_bound n (S d) (Nat.neq_succ_0 d)).

Definition first_choice : nat -> unit_interval := steady 0 0.
Definition last_choice : nat -> unit_interval := steady 99 99.

Definition hostile_title : text := u "\';alert(1)//".

Definition with_title (v : text) : gmap text text :=
  <[u "title" := v]> sample_row.

(** ** A sample tree *)

Definition sample_site : list entry :=
  [ File (u "package.json") (u "{ name: {{domain}} }");
    File (u "README.md") (u "{{title}}");
    Dir (u "src") [
      File (u "App.js") (u "'{{title}}' [[x|y]]");
      File (u ".eslintrc") (u "{{title}}");
      Dir (u "build") [ File (u "out.js") (u "{{title}}") ];
      Dir (u "lib") [
        Dir (u "node_modules") [
          Dir (u "dep") [ File (u "index.js") (u "{{title}}") ] ] ] ];
    Dir (u "dist") [ File (u "bundle.js") (u "{{title}}") ];
    Special (u "link.js") ].

Definition sample_tree : entry := Dir [] [ Dir (u "site") sample_site ].

Definition world0 : World := mkWorld sample_tree io0.

(** ** A sample run

    A stand-in for the JSON codec that reads and prints flat objects of
    strings, written without white space or escapes; a stand-in for npm that
    fails in the directory [bad.test] and elsewhere adds the directory the
    command is known to make. *)

Definition read_quoted (s : text) : option (text * text) :=
  match s with
  | c :: s' =>
      if (c =? DQUOTE)%N then
        match drop_while (fun x => negb (x =? DQUOTE)%N) s' with
        | _ :: rest => Some (take_while (fun x => negb (x =? DQUOTE)%N) s', rest)
        | [] => None
        end
      else None
  | [] => None
  end.

Fixpoint read_members (fuel : nat) (s : text) : option (list (text * json)) :=
  match fuel with
  | O => None
  | S fuel' =>
      match read_quoted s with
      | Some (k, 58%N :: s1) =>
          match read_quoted s1 with
          | Some (v, 44%N :: s2) =>
              cons (k, JString v) <$> read_members fuel' s2
          | Some (v, [125%N]) => Some [(k, JString v)]
          | _ => None
          end
      | _ => None
      end
  end.

Definition flat_parse (s : text) : option json :=
  match s with
  | 123%N :: s' => JObject <$> read_members (length s') s'
  | _ => None
  end.

Definition quoted (s : text) : text := DQUOTE :: s ++ [DQUOTE].

Fixpoint flat_stringify (value : json) : text :=
  match value with
  | JNull => u "null"
  | JBool true => u "true"
  | JBool false => u "false"
  | JNumber literal => literal
  | JString s => quoted s
  | JArray items => u "[" ++ join_with (u ",") (List.map flat_stringify items) ++ u "]"
  | JObject members =>
      u "{"
      ++ join_with (u ",")
           (List.map (fun kv => match kv with
                                | (k, v) => quoted k ++ u ":" ++ flat_stringify v
                                end) members)
      ++ u "}"
  end.

Definition add_directory (name : text) (cwd : path) (root : entry)
    : outcome text * entry :=
  match update_path cwd
          (fun d => match d with
                    | Dir n items => Some (Dir n (set_entry (Dir name []) items))
                    | _ => None
                    end) root with
  | Some root1 => (Ok [], root1)
  | None => (Thrown (ENOENT cwd), root)
  end.

Definition sample_npm (command : text) (cwd : path) (root : entry)
    : outcome text * entry :=
  if bool_decide (List.last cwd [] = u "bad.test")
  then (Thrown (Error (u "npm ERR! code E404")), root)
  else if bool_decide (command = u "npm install --silent")
  then add_directory (u "node_modules") cwd root
  else add_directory (u "build") cwd root.

Definition package_json_template : text :=
  [123%N] ++ quoted (u "name") ++ u ":" ++ quoted (u "template") ++ u ","
  ++ quoted (u "description") ++ u ":" ++ quoted (u "{{ description }}")
  ++ [125%N].

Definition sample_template : entry :=
  Dir (u "template") [
    File (u "package.json") package_json_template;
    File (u ".gitignore") (u "node_modules");
    File (u "builder.js") (u "// {{title}}");
    Dir (u "build-tools") [ File (u "run.js") (u "{{title}}") ];
    Dir (u "node_modules") [ Dir (u "react") [ File (u "index.js") (u "{{title}}") ] ];
    Dir (u "build") [ File (u "index.html") (u "{{title}}") ];
    Dir (u "dist") [ File (u "bundle.js") (u "old") ];
    Dir (u "src") [
      File (u "App.js") (u "'{{ title }}' [[ Fast | Quick ]]");
      Dir (u "node_modules") [ File (u "local.js") (u "{{title}}") ];
      Dir (u "build") [ File (u "cache.js") (u "{{title}}") ] ] ].

Definition sample_disk : entry :=
  Dir [] [ Dir (u "src") [ sample_template ] ].

Definition sample_world : World := mkWorld sample_disk io0.

Definition website (domain title : string) : gmap text text :=
  row_of [ ("domain", domain); ("title", title); ("description", "d");
           ("phone", "1"); ("address", "x") ]%string.

Definition sample_build (websites : list (gmap text text))
    : outcome (list build_result) * World :=
  buildWebsitesSequential first_choice flat_parse flat_stringify (fun s => s)
    sample_npm websites [u "src"; u "template"] [u "build"] sample_world.

(** A website directory as it stands between substitution and the
    manifest step. *)
Definition staged_world : World :=
  mkWorld
    (Dir [] [ Dir (u "build") [
                Dir (u "Good.Test") [
                  File (u "package.json") package_json_template ] ] ])
    io0.

(** * The rest of the generator

    The CSV reader ([csvParser.js]: [parseCSV], [validateCSV]), the summary
    of a run ([generateBuildSummary] of [websiteBuilderFixed.js]), the entry
    point ([generate] of [src/generator/index.js]) and the chunks of
    [buildWebsitesParallel] ([websiteBuilder.js]).

    How this part of the program is read:
    - [papa.parse] is a parameter; nothing is assumed about what it returns.
    - A path the user configures is a string; [to_path] reads it as a path
      below the working directory.  Paths made by [path.join] are in normal
      form, and [render] prints them.
    - The colours [chalk] adds to a console line are not modelled: a line is
      the text given to [chalk].
    - The clock and the working directory are parameters. *)

(** ** Numbers and paths as text *)

(** A non-negative integer in a template literal. *)
Definition decimal (n : nat) : text :=
  u (NilZero.string_of_uint (Nat.to_uint n)).

(** The path a configured string names, taken from the working directory. *)
Definition to_path (s : text) : path := path_join [] s.

(** [path.resolve(p)] for a path below the working directory [cwd]. *)
Definition path_resolve (cwd p : path) : text := SLASH :: render (cwd ++ p).

(** Code units outside ASCII that the console lines and the summary use. *)
Definition WHITE_CHECK : text := [9989%N].          (* U+2705 *)
Definition CROSS_MARK : text := [10060%N].          (* U+274C *)
Definition BAR_CHART : text := [55357%N; 56522%N].  (* U+1F4CA *)
Definition ROCKET : text := [55357%N; 56960%N].     (* U+1F680 *)
Definition PAGE : text := [55357%N; 56516%N].       (* U+1F4C4 *)
Definition BROOM : text := [55358%N; 56825%N].      (* U+1F9F9 *)
Definition CRANE : text := [55356%N; 57303%N; 65039%N]. (* U+1F3D7 U+FE0F *)
Definition PARTY : text := [55356%N; 57225%N].      (* U+1F389 *)
Definition STOPWATCH : text := [9201%N; 65039%N].   (* U+23F1 U+FE0F *)
Definition FOLDER : text := [55357%N; 56513%N].     (* U+1F4C1 *)
Definition GLOBE : text := [55356%N; 57104%N].      (* U+1F310 *)

(** [lines.join('\n')] *)
Definition unlines (lines : list text) : text := join_with [LF] lines.

(** ** [fs.writeFile] in general

    The file is made when it is not there and its directory is; a directory
    cannot be written.  On a file that exists this is [fs_writeFile]. *)

Definition put_file (name content : text) (d : entry) : option entry :=
  match d with
  | Dir n items => Some (Dir n (set_entry (File name content) items))
  | _ => None
  end.

Definition write_file (p : path) (content : text) (root : entry)
    : outcome entry :=
  match lookup_path p root with
  | Some (Dir _ _) => Thrown (EISDIR p)
  | Some _ =>
      match overwrite_file p content root with
      | Some root1 => Ok root1
      | None => Thrown (ENOENT p)
      end
  | None =>
      match lookup_path (removelast p) root with
      | Some (Dir _ _) =>
          match update_path (removelast p)
                  (put_file (List.last p []) content) root with
          | Some root1 => Ok root1
          | None => Thrown (ENOENT p)
          end
      | Some _ => Thrown (ENOTDIR p)
      | None => Thrown (ENOENT p)
      end
  end.

Definition fs_writeFile_any (p : path) (content : text) : M unit :=
  lift_fs (fun root => match write_file p content root with
                       | Ok root1 => (Ok tt, root1)
                       | Thrown e => (Thrown e, root)
                       end).

(** ** csvParser.js *)

(** An entry of [errors] in the result of [papa.parse]; [row] is absent
    from the errors that belong to no row. *)
Record parse_error := ParseError { error_row : option nat; error_message : text }.

Definition requiredFields : list text :=
  [u "domain"; u "title"; u "description"; u "phone"; u "address"].

(** The [transform] given to [papa.parse]: every value is a string. *)
Definition transform (value field : text) : text := trim value.

(** [`Row ${error.row}: ${error.message}`] *)
Definition errorMessage (error : parse_error) : text :=
  u "Row "
  ++ match error_row error with
     | Some n => decimal n
     | None => u "undefined"
     end
  ++ u ": " ++ error_message error.

(** [!row[field] || row[field].trim() === ''], for a field that is not a
    name of [Object.prototype]. *)
Definition is_missing (row : gmap text text) (field : text) : bool :=
  match get_property row field with
  | None => true
  | Some value => bool_decide (value = []) || bool_decide (trim value = [])
  end.

(** [`Row ${index + 2}: Missing required field '${field}'`] *)
Definition validation_message (index : nat) (field : text) : text :=
  u "Row " ++ decimal (index + 2) ++ u ": Missing required field '"
  ++ field ++ u "'".

(** The inner [forEach]: the fields of one row, in the order of
    [requiredFields]. *)
Definition missing_in_row (index : nat) (row : gmap text text) : list text :=
  flat_map (fun field =>
              if is_missing row field
              then [validation_message index field]
              else []) requiredFields.

(** The outer [forEach]: the rows in order. *)
Definition missingFields (data : list (gmap text text)) : list text :=
  concat (imap missing_in_row data).

Definition fs_existsSync (p : path) : M bool := fs_pathExists p.

Definition fs_readFileSync (p : path) : M text := fs_readFile p.

Section Parser.
(** [papa.parse(csvFile, { header: true, skipEmptyLines: true, transform })]:
    the rows and the errors. *)
Variable papa_parse :
  (text -> text -> text) -> text -> list (gmap text text) * list parse_error.

Definition parse_rows (csvFile : text) : M (list (gmap text text)) :=
  if bool_decide (trim csvFile = []) then
    throw (Error (u "CSV file is empty"))
  else
    let '(data, errors) := papa_parse transform csvFile in
    if 0 <? length errors then
      let errorMessages := List.map errorMessage errors in
      throw (Error (u "CSV parsing errors:" ++ [LF] ++ unlines errorMessages))
    else if length data =? 0 then
      throw (Error (u "No valid data rows found in CSV file"))
    else
      let missing := missingFields data in
      if 0 <? length missing then
        throw (Error (u "Validation errors:" ++ [LF] ++ unlines missing))
      else
        console_out
          (LogConsole (CHECK_MARK ++ u " Successfully parsed "
                       ++ decimal (length data) ++ u " website(s) from CSV")) ;;
        ret data.

Definition parseCSV (filepath : text) : M (list (gmap text text)) :=
  try_catch
    (let! present := fs_existsSync (to_path filepath) in
     if negb present then
       throw (Error (u "CSV file not found: " ++ filepath))
     else
       let! csvFile := fs_readFileSync (to_path filepath) in
       parse_rows csvFile)
    (fun error =>
       console_out (ErrorConsole (u "Error parsing CSV: " ++ message error)) ;;
       throw error).

Definition validateCSV (filepath : text) : M bool :=
  try_catch
    (parseCSV filepath ;; ret true)
    (fun error => ret false).
End Parser.

(** ** websiteBuilderFixed.js: the summary of a run *)

(** The lines of the three lists.  [r.error] is read from failed results
    and [r.path] from successful ones only; a result without the property
    would print [undefined]. *)
Definition successful_line (r : build_result) : text :=
  u "- " ++ WHITE_CHECK ++ u " [" ++ result_domain r ++ u "](./"
  ++ result_domain r ++ u "/build/index.html)".

(** [r.error] *)
Definition result_error (r : build_result) : text :=
  match r with
  | Failed _ error => error
  | Succeeded _ _ => u "undefined"
  end.

Definition failed_line (r : build_result) : text :=
  u "- " ++ CROSS_MARK ++ u " " ++ result_domain r ++ u ": "
  ++ result_error r.

Definition result_path (r : build_result) : path :=
  match r with
  | Succeeded _ websitePath => websitePath
  | Failed _ _ => []
  end.

(** The template literal ends after the call of [path.resolve]: the line
    has no closing parenthesis. *)
Definition quick_link (cwd : path) (r : build_result) : text :=
  u "- [" ++ result_domain r ++ u "](file://"
  ++ path_resolve cwd (result_path r ++ [u "build"; u "index.html"]).

Section Summary.
(** [process.cwd()] and [new Date().toISOString()]. *)
Variable cwd : path.
Variable now : text.

Definition summaryContent (results : list build_result) : text :=
  let successful := List.filter success results in
  let failed := List.filter (fun r => negb (success r)) results in
  unlines
    [ [];
      u "# Build Summary";
      [];
      u "**Total websites:** " ++ decimal (length results);
      u "**Successful:** " ++ decimal (length successful);
      u "**Failed:** " ++ decimal (length failed);
      [];
      u "## Successful Builds";
      unlines (List.map successful_line successful);
      [];
      u "## Failed Builds";
      unlines (List.map failed_line failed);
      [];
      u "## Quick Links";
      unlines (List.map (quick_link cwd) successful);
      [];
      u "Generated on: " ++ now;
      [] ].

Definition generateBuildSummary (results : list build_result)
    (outputPath : path) : M path :=
  let summaryPath := path_join outputPath (u "build-summary.md") in
  fs_writeFile_any summaryPath (summaryContent results) ;;
  console_out
    (LogConsole ([LF] ++ BAR_CHART ++ u " Build summary saved to: "
                 ++ render summaryPath)) ;;
  ret summaryPath.
End Summary.

(** ** websiteBuilder.js: the chunks of [buildWebsitesParallel] *)

(** [array.slice(start, end)] for indices that are not negative. *)
Definition slice {A} (l : list A) (start finish : nat) : list A :=
  take (finish - start) (drop start l).

(** The loop
    [for (let i = 0; i < websites.length; i += maxConcurrent)
       chunks.push(websites.slice(i, i + maxConcurrent))].
    [fuel] bounds the number of times the condition is tested; [None] means
    the loop has not ended within the bound. *)
Fixpoint chunk_loop {A} (fuel : nat) (websites : list A)
    (maxConcurrent i : nat) (chunks : list (list A))
    : option (list (list A)) :=
  match fuel with
  | O => None
  | S fuel' =>
      if i <? length websites then
        chunk_loop fuel' websites maxConcurrent (i + maxConcurrent)
          (chunks ++ [slice websites i (i + maxConcurrent)])
      else Some chunks
  end.

Definition chunks_of {A} (fuel : nat) (websites : list A)
    (maxConcurrent : nat) : option (list (list A)) :=
  chunk_loop fuel websites maxConcurrent 0 [].

(** ** index.js: the entry point *)

(** How a call of [generate] ends. *)
Inductive termination :=
  | Returned               (* the promise of [generate] resolves *)
  | Exited (code : nat).   (* process.exit(code) *)

Record Config := mkConfig {
  csvPath : text;
  templatePath : text;
  buildPath : text;
  parallelBuilds : text
}.

Definition log (line : text) : M unit := console_out (LogConsole line).

Definition log_error (line : text) : M unit := console_out (ErrorConsole line).

Section Generator.
Variable Math_random : nat -> unit_interval.
Variable JSON_parse : text -> option json.
Variable JSON_stringify : json -> text.
Variable unicode_lower : text -> text.
Variable execSync : text -> path -> entry -> outcome text * entry.
Variable papa_parse :
  (text -> text -> text) -> text -> list (gmap text text) * list parse_error.

(** [process.cwd()], [process.env] once [dotenv] has read its file,
    [parseInt(s)] as a template literal prints it, [new Date().toISOString()]
    at the time of the summary, [((endTime - startTime) / 1000).toFixed(2)],
    and [error.stack]. *)
Variable cwd : path.
Variable env : text -> option text.
Variable show_parseInt : text -> text.
Variable now : text.
Variable duration : text.
Variable stack : error -> text.

(** [process.env.NAME || fallback]: an empty string counts as unset. *)
Definition env_or (name fallback : text) : text :=
  match env name with
  | Some (c :: value) => c :: value
  | _ => fallback
  end.

Definition config : Config :=
  mkConfig
    (env_or (u "CSV_PATH") (u "./src/data/websites.csv"))
    (env_or (u "TEMPLATE_PATH") (u "./src/template"))
    (env_or (u "BUILD_PATH") (u "./build"))
    (show_parseInt (env_or (u "PARALLEL_BUILDS") (u "3"))).

(** "Print results": the lines after the summary is written. *)
Definition print_results (results : list build_result) : M unit :=
  let successful := List.filter success results in
  let failed := List.filter (fun r => negb (success r)) results in
  log ([LF] ++ PARTY ++ u " Generation Complete!") ;;
  log (WHITE_CHECK ++ u " " ++ decimal (length successful)
       ++ u " website(s) built successfully") ;;
  (if 0 <? length failed then
     log (CROSS_MARK ++ u " " ++ decimal (length failed)
          ++ u " website(s) failed") ;;
     for_of failed (fun f =>
       log (u "   - " ++ result_domain f ++ u ": " ++ result_error f))
   else ret tt) ;;
  log (STOPWATCH ++ u "  Total time: " ++ duration ++ u "s") ;;
  log (FOLDER ++ u " Output directory: "
       ++ path_resolve cwd (to_path (buildPath config))) ;;
  (if 0 <? length successful then
     log ([LF] ++ GLOBE ++ u " Generated websites:") ;;
     for_of successful (fun s =>
       log (u "   - " ++ result_domain s ++ u ": file://"
            ++ path_resolve cwd (result_path s ++ [u "build"; u "index.html"])))
   else ret tt).

(** The body of the [try] of [generate]. *)
Definition generate_steps : M termination :=
  log (u "Configuration:") ;;
  log (u "  CSV Path: " ++ csvPath config) ;;
  log (u "  Template Path: " ++ templatePath config) ;;
  log (u "  Build Path: " ++ buildPath config) ;;
  log (u "  Parallel Builds: " ++ parallelBuilds config ++ [LF]) ;;
  let! csvPresent := fs_pathExists (to_path (csvPath config)) in
  if negb csvPresent then
    throw (Error (u "CSV file not found: " ++ csvPath config))
  else
    let! templatePresent := fs_pathExists (to_path (templatePath config)) in
    if negb templatePresent then
      throw (Error (u "Template directory not found: " ++ templatePath config))
    else
      log (PAGE ++ u " Parsing CSV file...") ;;
      let! websites := parseCSV papa_parse (csvPath config) in
      log (BROOM ++ u " Cleaning build directory...") ;;
      fs_remove (to_path (buildPath config)) ;;
      fs_ensureDir (to_path (buildPath config)) ;;
      log (CRANE ++ u "  Building " ++ decimal (length websites)
           ++ u " website(s)...") ;;
      log (u "Using " ++ parallelBuilds config ++ u " parallel builds" ++ [LF]) ;;
      let! results :=
        buildWebsitesSequential Math_random JSON_parse JSON_stringify
          unicode_lower execSync websites
          (to_path (templatePath config)) (to_path (buildPath config)) in
      generateBuildSummary cwd now results (to_path (buildPath config)) ;;
      print_results results ;;
      ret Returned.

(** The [catch] of [generate]. *)
Definition generate_failed (error : error) : M termination :=
  log_error ([LF] ++ CROSS_MARK ++ u " Generation failed:") ;;
  log_error (message error) ;;
  (if bool_decide (env (u "NODE_ENV") = Some (u "development")) then
     log_error ([LF] ++ u "Stack trace:") ;;
     log_error (stack error)
   else ret tt) ;;
  ret (Exited 1).

Definition generate : M termination :=
  log ([LF] ++ ROCKET ++ u " CSV to Multi-Website Generator" ++ [LF]) ;;
  try_catch generate_steps generate_failed.
End Generator.

(** * Further notions the statements use *)

(** Two opening braces in a row occur somewhere in [s]. *)
Fixpoint has_open_braces (s : text) : bool :=
  match s with
  | a :: s' =>
      match s' with
      | b :: _ => ((a =? LBRACE)%N && (b =? LBRACE)%N) || has_open_braces s'
      | [] => false
      end
  | [] => false
  end.

(** The four code units [escapeForJS] replaces. *)
Definition needs_escape (c : N) : bool :=
  ((c =? SQUOTE) || (c =? DQUOTE) || (c =? LF) || (c =? CR))%N.

(** A code unit the pattern of a placeholder has no place for: neither of
    an identifier nor white space. *)
Definition outside_pattern (c : N) : bool :=
  negb (is_word c) && negb (is_space c).

(** The member of a JSON object under a key. *)
Fixpoint get_member (key : text) (members : list (text * json)) : option json :=
  match members with
  | [] => None
  | (k, v) :: rest =>
      if bool_decide (k = key) then Some v else get_member key rest
  end.

(** The members the manifest step does not set. *)
Definition other_members (members : list (text * json)) : list (text * json) :=
  List.filter (fun kv => negb (bool_decide (fst kv = u "name"))
                         && negb (bool_decide (fst kv = u "homepage")))
    members.

(** The world after some lines have been written to the console. *)
Definition say (lines : list console_event) (w : World) : World :=
  mkWorld (fs w) (mkIO (console (io w) ++ lines) (rand_calls (io w))).

(** The console line of [parseCSV], by its outcome. *)
Definition parse_line (r : outcome (list (gmap text text))) : console_event :=
  match r with
  | Ok data =>
      LogConsole (CHECK_MARK ++ u " Successfully parsed "
                  ++ decimal (length data) ++ u " website(s) from CSV")
  | Thrown e => ErrorConsole (u "Error parsing CSV: " ++ message e)
  end.

(** The console lines of [generate] up to the first website, for a
    configuration and the rows of the CSV file. *)
Definition opening_lines (c : Config) (websites : list (gmap text text))
    : list console_event :=
  [ LogConsole ([LF] ++ ROCKET ++ u " CSV to Multi-Website Generator" ++ [LF]);
    LogConsole (u "Configuration:");
    LogConsole (u "  CSV Path: " ++ csvPath c);
    LogConsole (u "  Template Path: " ++ templatePath c);
    LogConsole (u "  Build Path: " ++ buildPath c);
    LogConsole (u "  Parallel Builds: " ++ parallelBuilds c ++ [LF]);
    LogConsole (PAGE ++ u " Parsing CSV file...");
    parse_line (Ok websites);
    LogConsole (BROOM ++ u " Cleaning build directory...");
    LogConsole (CRANE ++ u "  Building " ++ decimal (length websites)
                ++ u " website(s)...");
    LogConsole (u "Using " ++ parallelBuilds c ++ u " parallel builds" ++ [LF]) ].

(** How [generate] ends once the websites are built: by the write of the
    summary alone. *)
Definition ends_as (write : outcome entry) : termination :=
  match write with
  | Ok _ => Returned
  | Thrown _ => Exited 1
  end.

(** * Sample data for the rest of the generator *)

(** Two CSV files, and a stand-in for papaparse that knows them by their
    content and reports an error for every other text. *)
Definition sample_csv : text :=
  u "domain,title,description,phone,address" ++ [LF]
  ++ u "bad.test,B,d,1,x" ++ [LF] ++ u "good.test,G,d,1,x" ++ [LF].

Definition sample_csv_incomplete : text :=
  u "domain,title,description,phone,address" ++ [LF]
  ++ u "a.test,A,d,1,x" ++ [LF] ++ u "b.test, ,d,1," ++ [LF].

Definition sample_papa (transform : text -> text -> text) (csvFile : text)
    : list (gmap text text) * list parse_error :=
  if bool_decide (csvFile = sample_csv) then
    ([website "bad.test" "B"; website "good.test" "G"], [])
  else if bool_decide (csvFile = sample_csv_incomplete) then
    ([website "a.test" "A";
      row_of [ ("domain", "b.test"); ("title", ""); ("description", "d");
               ("phone", "1"); ("address", "") ]%string], [])
  else ([], [ParseError None (u "Unable to auto-detect delimiting character")]).

Definition csv_world (csvFile : text) : World :=
  mkWorld
    (Dir [] [ Dir (u "src") [
                Dir (u "data") [ File (u "websites.csv") csvFile ];
                sample_template ] ])
    io0.

(** A run of [generate] with no variable set in the environment. *)
Definition sample_generate (w : World) : outcome termination * World :=
  generate first_choice flat_parse flat_stringify (fun s => s) sample_npm
    sample_papa [u "home"; u "me"] (fun _ => None) (fun s => s)
    (u "2024-01-01T00:00:00.000Z") (u "0.42") (fun e => message e) w.

(** * Facts *)

(** ** The string helpers *)

Lemma strip_prefix_Some (p s r : text) :
  strip_prefix p s = Some r <-> s = p ++ r.
Proof.
  revert s; induction p as [|a p IH]; intros s; simpl.
  - split; [intros [= ->]; reflexivity | intros ->; reflexivity].
  - destruct s as [|b s]; [split; discriminate|].
    destruct (N.eqb_spec a b) as [->|Hne].
    + rewrite IH. split; [intros ->; reflexivity | intros [= ->]; reflexivity].
    + split; [discriminate | intros [= -> _]; congruence].
Qed.

Lemma strip_prefix_app (p r : text) : strip_prefix p (p ++ r) = Some r.
Proof. apply strip_prefix_Some; reflexivity. Qed.

Lemma take_drop_while (p : N -> bool) (s : text) :
  take_while p s ++ drop_while p s = s.
Proof.
  induction s as [|c s IH]; simpl; [reflexivity|].
  destruct (p c); simpl; [rewrite IH|]; reflexivity.
Qed.

Lemma take_while_all (p : N -> bool) (s : text) :
  forallb p (take_while p s) = true.
Proof.
  induction s as [|c s IH]; simpl; [reflexivity|].
  destruct (p c) eqn:E; simpl; [rewrite E, IH|]; reflexivity.
Qed.

Lemma take_while_app (p : N -> bool) (a r : text) :
  forallb p a = true ->
  match r with c :: _ => p c = false | [] => True end ->
  take_while p (a ++ r) = a /\ drop_while p (a ++ r) = r.
Proof.
  intros Ha Hr. induction a as [|c a IH]; simpl in *.
  - destruct r as [|c r]; simpl; [auto|]. rewrite Hr; auto.
  - apply andb_true_iff in Ha as [Hc Ha]. rewrite Hc.
    destruct (IH Ha) as [-> ->]; auto.
Qed.

Ltac class_facts :=
  unfold is_word, is_space, is_dot, is_line_terminator, in_range,
    LBRACE, RBRACE, LBRACK, RBRACK in *;
  repeat match goal with
         | H : negb _ = true |- _ => apply negb_true_iff in H
         | H : _ = false |- _ => apply not_true_iff_false in H
         | |- _ = false => apply not_true_iff_false; intro
         | |- negb _ = true => apply negb_true_iff
         end;
  rewrite ?orb_true_iff, ?andb_true_iff, ?N.leb_le, ?N.eqb_eq in *.

Lemma word_not_space (c : N) : is_word c = true -> is_space c = false.
Proof. intros H. class_facts. lia. Qed.

Lemma word_not_rbrace (c : N) : is_word c = true -> c <> RBRACE.
Proof. intros H ->. class_facts. lia. Qed.

Lemma space_not_rbrace (c : N) : is_space c = true -> c <> RBRACE.
Proof. intros H ->. class_facts. lia. Qed.

Lemma word_not_lbrace (c : N) : is_word c = true -> c <> LBRACE.
Proof. intros H ->. class_facts. lia. Qed.

Lemma space_not_lbrace (c : N) : is_space c = true -> c <> LBRACE.
Proof. intros H ->. class_facts. lia. Qed.

(** ** The alternatives of a span *)

Lemma split_nonempty (sep : N) (s : text) : split sep s <> [].
Proof.
  destruct s as [|c s]; cbn [split]; [discriminate|].
  destruct (c =? sep)%N; [discriminate|].
  destruct (split sep s); discriminate.
Qed.

Lemma split_join (sep : N) (s : text) : join_with [sep] (split sep s) = s.
Proof.
  induction s as [|c s IH]; [reflexivity|]. cbn [split].
  pose proof (split_nonempty sep s) as Hne.
  destruct (split sep s) as [|p ps]; [congruence|].
  destruct (N.eqb_spec c sep) as [->|Hc].
  - change (join_with [sep] ([] :: p :: ps))
      with ([sep] ++ join_with [sep] (p :: ps)).
    rewrite IH. reflexivity.
  - destruct ps as [|p' ps].
    + cbn [join_with] in *. rewrite IH. reflexivity.
    + change (join_with [sep] ((c :: p) :: p' :: ps))
        with (c :: join_with [sep] (p :: p' :: ps)).
      rewrite IH. reflexivity.
Qed.

Lemma split_pieces (sep : N) (s piece : text) :
  In piece (split sep s) -> ~ In sep piece.
Proof.
  revert piece; induction s as [|c s IH]; intros piece; cbn [split].
  - intros [<-|[]] [].
  - destruct (N.eqb_spec c sep) as [->|Hne].
    + intros [<-|H]; [intros [] | apply IH, H].
    + destruct (split sep s) as [|p ps] eqn:E.
      * intros [<-|[]] [H|[]]. congruence.
      * intros [<-|H].
        -- intros [H|H]; [congruence|]. apply (IH p); [left; reflexivity|exact H].
        -- apply IH. right; exact H.
Qed.

(** The alternatives are the non-empty ones among the trimmed pieces
    between the bars. *)
Lemma choices_of_spec (options alt : text) :
  In alt (choices_of options) <->
  alt <> [] /\ exists piece, In piece (split PIPE options) /\ alt = trim piece.
Proof.
  unfold choices_of. rewrite filter_In, in_map_iff, negb_true_iff, Nat.eqb_neq.
  split.
  - intros [(piece & <- & Hin) Hlen]. split; [|eauto].
    intros E. rewrite E in Hlen. apply Hlen. reflexivity.
  - intros [Hne (piece & Hin & ->)]. split; [eauto|].
    destruct (trim piece); [congruence | discriminate].
Qed.

(** ** [escapeForJS] and string literals *)

Lemma escapeForJS_app (a b : text) :
  escapeForJS (a ++ b) = escapeForJS a ++ escapeForJS b.
Proof. unfold escapeForJS, replace_char. rewrite !flat_map_app. reflexivity. Qed.

Lemma escapeForJS_one (c : N) :
  escapeForJS [c] =
    if (c =? SQUOTE)%N then [BACKSLASH; SQUOTE]
    else if (c =? DQUOTE)%N then [BACKSLASH; DQUOTE]
    else if (c =? LF)%N then [BACKSLASH; 110%N]
    else if (c =? CR)%N then [BACKSLASH; 114%N]
    else [c].
Proof.
  unfold escapeForJS, replace_char. cbn [flat_map app].
  destruct (N.eqb_spec c SQUOTE) as [->|H1]; [reflexivity|].
  cbn [flat_map app].
  destruct (N.eqb_spec c DQUOTE) as [->|H2]; [reflexivity|].
  cbn [flat_map app].
  destruct (N.eqb_spec c LF) as [->|H3]; [reflexivity|].
  cbn [flat_map app].
  destruct (N.eqb_spec c CR) as [->|H4]; reflexivity.
Qed.

(** A value without a backslash, once escaped, stays inside the single- or
    double-quoted literal it is written into: the literal ends at its own
    closing quote. *)
Lemma escapeForJS_stays_inside (q : N) (value rest : text) :
  q = SQUOTE \/ q = DQUOTE -> ~ In BACKSLASH value ->
  string_literal_rest q (escapeForJS value ++ q :: rest) = Some rest.
Proof.
  intros Hq. induction value as [|c value IH]; intros Hno.
  - cbn [escapeForJS replace_char flat_map app string_literal_rest].
    rewrite N.eqb_refl. reflexivity.
  - change (c :: value) with ([c] ++ value).
    rewrite escapeForJS_app, escapeForJS_one, <- app_assoc.
    assert (c <> BACKSLASH) as Hc by (intros ->; apply Hno; left; reflexivity).
    specialize (IH ltac:(intros H; apply Hno; right; exact H)).
    assert ((BACKSLASH =? q)%N = false) as Hbq
      by (destruct Hq as [-> | ->]; reflexivity).
    destruct (N.eqb_spec c SQUOTE) as [->|H1];
      [cbn [app string_literal_rest]; rewrite Hbq, N.eqb_refl; exact IH|].
    destruct (N.eqb_spec c DQUOTE) as [->|H2];
      [cbn [app string_literal_rest]; rewrite Hbq, N.eqb_refl; exact IH|].
    destruct (N.eqb_spec c LF) as [->|H3];
      [cbn [app string_literal_rest]; rewrite Hbq, N.eqb_refl; exact IH|].
    destruct (N.eqb_spec c CR) as [->|H4];
      [cbn [app string_literal_rest]; rewrite Hbq, N.eqb_refl; exact IH|].
    cbn [app string_literal_rest].
    rewrite (proj2 (N.eqb_neq c q)) by (destruct Hq as [-> | ->]; assumption).
    rewrite (proj2 (N.eqb_neq c BACKSLASH) Hc).
    rewrite (proj2 (N.eqb_neq c LF) H3), (proj2 (N.eqb_neq c CR) H4).
    exact IH.
Qed.

(** ** The global replace *)

Section ReplaceFacts.
Context {G St : Type}.
Variable matcher : text -> option (G * nat).
Variable fn : text -> G -> St -> text * St.

Lemma replace_from_skip (s : text) (skip : nat) (st : St) :
  replace_from matcher fn s skip st = replace_all matcher fn (drop skip s) st.
Proof.
  revert skip; induction s as [|c s IH]; intros skip.
  - destruct skip; reflexivity.
  - destruct skip as [|k]; [reflexivity|]. simpl. apply IH.
Qed.

Lemma replace_all_nil (st : St) : replace_all matcher fn [] st = ([], st).
Proof. reflexivity. Qed.

Lemma replace_all_no_match (c : N) (s : text) (st : St) :
  matcher (c :: s) = None ->
  replace_all matcher fn (c :: s) st =
    let '(out, st1) := replace_all matcher fn s st in (c :: out, st1).
Proof. unfold replace_all; simpl. intros ->. reflexivity. Qed.

Lemma replace_all_match (s : text) (g : G) (n : nat) (st : St) :
  matcher s = Some (g, n) -> 0 < n -> s <> [] ->
  replace_all matcher fn s st =
    let '(r, st1) := fn (take n s) g st in
    let '(out, st2) := replace_all matcher fn (drop n s) st1 in
    (r ++ out, st2).
Proof.
  intros Hm Hn Hs. destruct s as [|c s]; [congruence|].
  destruct n as [|n]; [lia|].
  unfold replace_all at 1. simpl. rewrite Hm.
  destruct (fn (c :: take n s) g st) as [r st1].
  rewrite replace_from_skip. reflexivity.
Qed.

Lemma settledb_settled (pre rest : text) :
  settledb matcher pre rest = true -> settled matcher pre rest.
Proof.
  unfold settledb, settled. rewrite forallb_forall. intros H i g n Hi Hm.
  specialize (H i). rewrite Hm in H. apply Nat.leb_le, H, in_seq. lia.
Qed.

Lemma settled_tail (c : N) (pre rest : text) :
  settled matcher (c :: pre) rest -> settled matcher pre rest.
Proof.
  intros H i g n Hi Hm. specialize (H (S i) g n). simpl in H.
  specialize (H ltac:(lia) Hm). lia.
Qed.

Lemma settled_drop (k : nat) (pre rest : text) :
  k <= length pre -> settled matcher pre rest -> settled matcher (drop k pre) rest.
Proof.
  intros Hk H i g n Hi Hm. rewrite length_drop in Hi |- *.
  specialize (H (k + i) g n ltac:(lia)).
  rewrite <- drop_drop, drop_app_le in H by lia.
  specialize (H Hm). lia.
Qed.

Lemma replace_all_app (pre rest : text) (st : St) :
  prefix_stable matcher -> settled matcher pre rest ->
  replace_all matcher fn (pre ++ rest) st =
    let '(o1, st1) := replace_all matcher fn pre st in
    let '(o2, st2) := replace_all matcher fn rest st1 in
    (o1 ++ o2, st2).
Proof.
  intros (Hext & Hres & Hlen).
  remember (length pre) as k eqn:Hk. revert pre st Hk.
  induction k as [k IH] using lt_wf_ind. intros pre st Hk Hset.
  destruct pre as [|c pre].
  - cbn [app]. rewrite replace_all_nil.
    destruct (replace_all matcher fn rest st); reflexivity.
  - destruct (matcher ((c :: pre) ++ rest)) as [[g n]|] eqn:Hm.
    + pose proof (Hset 0 g n ltac:(simpl; lia) Hm) as Hn. simpl in Hn.
      pose proof (Hres _ _ _ _ Hm Hn) as Hm'.
      destruct (Hlen _ _ _ Hm') as [Hpos _].
      rewrite (replace_all_match _ g n st Hm Hpos) by discriminate.
      rewrite (replace_all_match _ g n st Hm' Hpos) by discriminate.
      rewrite take_app_le, drop_app_le by (simpl; lia).
      destruct (fn (take n (c :: pre)) g st) as [r st1].
      rewrite (IH (length (drop n (c :: pre)))); try reflexivity.
      * destruct (replace_all matcher fn (drop n (c :: pre)) st1) as [o1 st2].
        destruct (replace_all matcher fn rest st2) as [o2 st3].
        rewrite app_assoc. reflexivity.
      * rewrite length_drop. subst k. simpl in *. lia.
      * apply settled_drop; [simpl; lia | exact Hset].
    + assert (matcher (c :: pre) = None) as Hm'.
      { destruct (matcher (c :: pre)) as [[g n]|] eqn:E; [|reflexivity].
        rewrite (Hext _ rest _ _ E) in Hm. discriminate. }
      simpl app in *. rewrite (replace_all_no_match _ _ _ Hm).
      rewrite (replace_all_no_match _ _ _ Hm').
      rewrite (IH (length pre)); subst k; simpl; try lia; try reflexivity.
      * destruct (replace_all matcher fn pre st) as [o1 st1].
        destruct (replace_all matcher fn rest st1) as [o2 st2]. reflexivity.
      * eapply settled_tail, Hset.
Qed.
End ReplaceFacts.

(** ** The double-brace token *)

Lemma is_identifier_spec (key : text) :
  is_identifier key = true <-> key <> [] /\ forallb is_word key = true.
Proof.
  unfold is_identifier. rewrite andb_true_iff, negb_true_iff, Nat.eqb_neq.
  destruct key; simpl; intuition (try congruence; try lia).
Qed.

Lemma space_not_word (c : N) : is_space c = true -> is_word c = false.
Proof.
  intros H. destruct (is_word c) eqn:E; [|reflexivity].
  apply word_not_space in E. congruence.
Qed.

Lemma match_var_token (ws1 key ws2 r : text) :
  is_blank ws1 = true -> is_identifier key = true -> is_blank ws2 = true ->
  match_var (token ws1 key ws2 ++ r) = Some (key, length (token ws1 key ws2)).
Proof.
  unfold is_blank. intros H1 Hk H2. apply is_identifier_spec in Hk as [Hne Hk].
  unfold match_var, token. rewrite <- !app_assoc.
  rewrite strip_prefix_app.
  destruct (take_while_app is_space ws1 (key ++ ws2 ++ [RBRACE; RBRACE] ++ r) H1)
    as [E1 E1'].
  { destruct key as [|c key]; [congruence|]. simpl in *.
    apply andb_true_iff in Hk as [Hc _]. apply word_not_space, Hc. }
  cbv zeta. rewrite E1, E1'.
  destruct (take_while_app is_word key (ws2 ++ [RBRACE; RBRACE] ++ r) Hk)
    as [E2 E2'].
  { destruct ws2 as [|c ws2]; simpl in *; [reflexivity|].
    apply andb_true_iff in H2 as [Hc _]. apply space_not_word, Hc. }
  rewrite E2, E2'.
  destruct (take_while_app is_space ws2 ([RBRACE; RBRACE] ++ r) H2)
    as [E3 E3']; [reflexivity|].
  rewrite E3, E3', strip_prefix_app.
  destruct key; [congruence|]. f_equal. f_equal.
  rewrite !length_app. simpl. lia.
Qed.

Lemma match_var_inv (s key : text) (n : nat) :
  match_var s = Some (key, n) ->
  exists ws1 ws2 r,
    s = token ws1 key ws2 ++ r /\ is_blank ws1 = true
    /\ is_identifier key = true /\ is_blank ws2 = true
    /\ n = length (token ws1 key ws2).
Proof.
  unfold match_var. destruct (strip_prefix _ s) as [s1|] eqn:E0; [|discriminate].
  apply strip_prefix_Some in E0. cbv zeta.
  set (ws1 := take_while is_space s1). set (s2 := drop_while is_space s1).
  set (k := take_while is_word s2). set (s3 := drop_while is_word s2).
  set (ws2 := take_while is_space s3). set (s4 := drop_while is_space s3).
  destruct k as [|c k'] eqn:Ek; [discriminate|].
  destruct (strip_prefix _ s4) as [r|] eqn:E4; [|discriminate].
  apply strip_prefix_Some in E4. intros [= <- <-].
  exists ws1, ws2, r. rewrite <- Ek. repeat split.
  - unfold token. rewrite <- !app_assoc, <- E4. subst s4 ws2.
    rewrite take_drop_while. subst s3 k. rewrite take_drop_while.
    subst s2 ws1. rewrite take_drop_while. exact E0.
  - apply take_while_all.
  - apply is_identifier_spec. split; [rewrite Ek; discriminate|].
    apply take_while_all.
  - apply take_while_all.
  - unfold token. rewrite !length_app, Ek. simpl. lia.
Qed.

Lemma match_var_stable : prefix_stable match_var.
Proof.
  repeat split.
  - intros a b g n H. apply match_var_inv in H
      as (ws1 & ws2 & r & -> & H1 & Hk & H2 & ->).
    rewrite <- app_assoc. apply match_var_token; assumption.
  - intros a b g n H Hn. apply match_var_inv in H
      as (ws1 & ws2 & r & E & H1 & Hk & H2 & ->).
    assert (a = token ws1 g ws2 ++ drop (length (token ws1 g ws2)) a) as ->.
    { rewrite <- (take_drop (length (token ws1 g ws2)) a) at 1. f_equal.
      rewrite <- (take_app_le a b) by exact Hn. rewrite E.
      rewrite take_app_length. reflexivity. }
    apply match_var_token; assumption.
  - apply match_var_inv in H as (ws1 & ws2 & r & -> & H1 & Hk & H2 & ->).
    unfold token. simpl. lia.
  - apply match_var_inv in H as (ws1 & ws2 & r & -> & H1 & Hk & H2 & ->).
    rewrite length_app. lia.
Qed.

Lemma token_inside_no_lbrace (ws1 key ws2 r : text) (j : nat) :
  is_blank ws1 = true -> is_identifier key = true -> is_blank ws2 = true ->
  2 <= j < length (token ws1 key ws2) ->
  (token ws1 key ws2 ++ r) !! j <> Some LBRACE.
Proof.
  unfold is_blank. intros H1 Hk H2 Hj.
  apply is_identifier_spec in Hk as [_ Hk].
  assert (Forall (fun c => c <> LBRACE) (ws1 ++ key ++ ws2 ++ [RBRACE; RBRACE]))
    as HF.
  { rewrite forallb_forall in H1, Hk, H2.
    rewrite !Forall_app. repeat split.
    - apply Forall_forall. intros c Hc%list_elem_of_In.
      apply space_not_lbrace; auto.
    - apply Forall_forall. intros c Hc%list_elem_of_In.
      apply word_not_lbrace; auto.
    - apply Forall_forall. intros c Hc%list_elem_of_In.
      apply space_not_lbrace; auto.
    - repeat constructor; discriminate. }
  rewrite lookup_app_l by lia. unfold token in *.
  destruct j as [|[|j]]; [lia|lia|]. simpl.
  intros Hl. rewrite Forall_lookup in HF. apply (HF _ _ Hl). reflexivity.
Qed.

(** Tokens cannot overlap: a match that begins before a token ends before
    it. *)
Lemma token_settles (pre ws1 key ws2 post : text) :
  settled match_var pre (token ws1 key ws2 ++ post).
Proof.
  intros i g n Hi Hm.
  destruct (le_gt_dec (i + n) (length pre)) as [|Hgt]; [assumption|exfalso].
  apply match_var_inv in Hm as (a1 & a2 & r & E & H1 & Hk & H2 & ->).
  set (m := length pre - i).
  assert (forall d, d < 2 ->
            (token a1 g a2 ++ r) !! (m + d) = Some LBRACE) as Hbr.
  { intros d Hd. rewrite <- E, lookup_drop.
    rewrite lookup_app_r by lia.
    replace (i + (m + d) - length pre) with d by lia.
    destruct d as [|[|d]]; [reflexivity|reflexivity|lia]. }
  assert (5 <= length (token a1 g a2)) as Hlen.
  { apply is_identifier_spec in Hk as [Hne _]. unfold token.
    rewrite !length_app. destruct g; [congruence|]. simpl. lia. }
  destruct (le_gt_dec 2 m) as [Hm2|Hm1].
  - apply (token_inside_no_lbrace a1 g a2 r m); try assumption; [lia|].
    rewrite <- (Hbr 0) by lia. f_equal. lia.
  - apply (token_inside_no_lbrace a1 g a2 r (m + 1)); try assumption; [lia|].
    apply Hbr; lia.
Qed.

(** The variable pass at one token: what precedes and what follows the
    token is substituted on its own, and the token itself becomes what the
    callback returns for it. *)
Lemma substitute_variables_token (data : gmap text text)
    (filePath pre ws1 key ws2 post : text) (io : IO) :
  is_blank ws1 = true -> is_identifier key = true -> is_blank ws2 = true ->
  substitute_variables data filePath (pre ++ token ws1 key ws2 ++ post) io =
    let '(o1, io1) := substitute_variables data filePath pre io in
    let '(r, io2) :=
      replace_variable data filePath (token ws1 key ws2) key io1 in
    let '(o2, io3) := substitute_variables data filePath post io2 in
    (o1 ++ r ++ o2, io3).
Proof.
  intros H1 Hk H2. unfold substitute_variables.
  rewrite replace_all_app by (apply match_var_stable || apply token_settles).
  destruct (replace_all match_var _ pre io) as [o1 io1].
  pose proof (match_var_token ws1 key ws2 post H1 Hk H2) as Hm.
  rewrite (replace_all_match _ _ _ _ _ io1 Hm).
  - rewrite take_app_length, drop_app_length.
    destruct (replace_variable _ _ _ _ io1) as [r io2].
    destruct (replace_all match_var _ post io2) as [o2 io3]. reflexivity.
  - unfold token. simpl. lia.
  - discriminate.
Qed.

(** ** The double-bracket span *)

Lemma span_body_cons (c : N) (body : text) :
  span_body (c :: body) = true ->
  is_dot c = true /\ span_body body = true
  /\ forall r, strip_prefix [RBRACK; RBRACK] (c :: body ++ [RBRACK; RBRACK] ++ r) = None.
Proof.
  unfold span_body. simpl forallb. rewrite !andb_true_iff, !negb_true_iff.
  intros [[Hc Hb] Hh]. simpl in Hh.
  destruct (body ++ [RBRACK]) as [|b t] eqn:E; [destruct body; discriminate|].
  apply orb_false_iff in Hh as [Hcb Hh].
  repeat split; try assumption.
  intros r. cbn [strip_prefix].
  destruct (N.eqb_spec RBRACK c) as [<-|]; [|reflexivity].
  assert (exists t', body ++ [RBRACK; RBRACK] ++ r = b :: t') as [t' ->].
  { destruct body as [|b' body']; simpl in *; injection E as <- _; eauto. }
  rewrite N.eqb_refl in Hcb. cbn [andb] in Hcb.
  rewrite N.eqb_sym, Hcb. reflexivity.
Qed.

Lemma lazy_dots_body (body r : text) :
  span_body body = true ->
  lazy_dots (body ++ [RBRACK; RBRACK] ++ r) = Some (length body).
Proof.
  induction body as [|c body IH]; intros H.
  - reflexivity.
  - apply span_body_cons in H as (Hc & Hb & Hs).
    change ((c :: body) ++ [RBRACK; RBRACK] ++ r)
      with (c :: body ++ [RBRACK; RBRACK] ++ r).
    cbn [lazy_dots]. rewrite Hs, Hc, (IH Hb). reflexivity.
Qed.

Lemma lazy_dots_inv (s : text) (n : nat) :
  lazy_dots s = Some n ->
  exists body r,
    s = body ++ [RBRACK; RBRACK] ++ r /\ length body = n
    /\ span_body body = true.
Proof.
  revert n; induction s as [|c s IH]; intros n; [discriminate|].
  cbn [lazy_dots].
  destruct (strip_prefix [RBRACK; RBRACK] (c :: s)) as [r|] eqn:E.
  - intros [= <-]. apply strip_prefix_Some in E.
    exists [], r. repeat split. exact E.
  - destruct (is_dot c) eqn:Hc; [|discriminate].
    destruct (lazy_dots s) as [k|] eqn:Hk; [|discriminate].
    intros [= <-]. destruct (IH k eq_refl) as (body & r & -> & <- & Hb).
    exists (c :: body), r. repeat split.
    unfold span_body in *. simpl forallb. rewrite Hc. simpl andb.
    apply andb_true_iff in Hb as [Hd Hh]. rewrite Hd. simpl andb.
    apply negb_true_iff. apply negb_true_iff in Hh.
    simpl. destruct (body ++ [RBRACK]) as [|b t] eqn:Eb;
      [destruct body; discriminate|].
    rewrite Hh, orb_false_r.
    assert (exists t', body ++ [RBRACK; RBRACK] ++ r = b :: t') as [t' Et].
    { destruct body as [|b' body']; simpl in *; injection Eb as <- _; eauto. }
    rewrite Et in E. cbn [strip_prefix] in E.
    destruct (N.eqb_spec c RBRACK) as [->|]; [|reflexivity].
    destruct (N.eqb_spec b RBRACK) as [->|]; [|reflexivity].
    rewrite !N.eqb_refl in E. discriminate.
Qed.

Lemma match_span_span (body r : text) :
  span_body body = true ->
  match_span (span body ++ r) = Some (body, length (span body)).
Proof.
  intros Hb. unfold match_span, span. rewrite <- !app_assoc.
  rewrite strip_prefix_app, (lazy_dots_body body r Hb).
  rewrite take_app_length. f_equal. f_equal.
  rewrite !length_app. simpl. lia.
Qed.

Lemma match_span_inv (s g : text) (n : nat) :
  match_span s = Some (g, n) ->
  exists r, s = span g ++ r /\ span_body g = true /\ n = length (span g).
Proof.
  unfold match_span.
  destruct (strip_prefix _ s) as [s1|] eqn:E; [|discriminate].
  apply strip_prefix_Some in E.
  destruct (lazy_dots s1) as [k|] eqn:Hk; [|discriminate].
  apply lazy_dots_inv in Hk as (body & r & -> & <- & Hb).
  rewrite take_app_length. intros [= <- <-]. exists r. repeat split.
  - unfold span. rewrite <- !app_assoc. exact E.
  - exact Hb.
  - unfold span. rewrite !length_app. simpl. lia.
Qed.

Lemma match_span_stable : prefix_stable match_span.
Proof.
  repeat split.
  - intros a b g n H. apply match_span_inv in H as (r & -> & Hb & ->).
    rewrite <- app_assoc. apply match_span_span, Hb.
  - intros a b g n H Hn. apply match_span_inv in H as (r & E & Hb & ->).
    assert (a = span g ++ drop (length (span g)) a) as ->.
    { rewrite <- (take_drop (length (span g)) a) at 1. f_equal.
      rewrite <- (take_app_le a b) by exact Hn. rewrite E.
      rewrite take_app_length. reflexivity. }
    apply match_span_span, Hb.
  - apply match_span_inv in H as (r & -> & Hb & ->). unfold span. simpl. lia.
  - apply match_span_inv in H as (r & -> & Hb & ->). rewrite length_app. lia.
Qed.

Lemma floor_times_lt (r : unit_interval) (n : nat) :
  0 < n -> floor_times r n < n.
Proof.
  intros Hn. unfold floor_times. destruct r as [a b Hab]. simpl.
  apply Nat.Div0.div_lt_upper_bound. nia.
Qed.

Section SelectionFacts.
Variable Math_random : nat -> unit_interval.

(** The selection pass at one span that the scan reaches. *)
Lemma select_random_span (pre body post : text) (io : IO) :
  settled match_span pre (span body ++ post) -> span_body body = true ->
  select_random Math_random (pre ++ span body ++ post) io =
    let '(o1, io1) := select_random Math_random pre io in
    let '(r, io2) := replace_selection Math_random (span body) body io1 in
    let '(o2, io3) := select_random Math_random post io2 in
    (o1 ++ r ++ o2, io3).
Proof.
  intros Hset Hb. unfold select_random.
  rewrite replace_all_app by (apply match_span_stable || exact Hset).
  destruct (replace_all match_span _ pre io) as [o1 io1].
  pose proof (match_span_span body post Hb) as Hm.
  rewrite (replace_all_match _ _ _ _ _ io1 Hm).
  - rewrite take_app_length, drop_app_length.
    destruct (replace_selection _ _ _ io1) as [r io2].
    destruct (replace_all match_span _ post io2) as [o2 io3]. reflexivity.
  - unfold span. simpl. lia.
  - discriminate.
Qed.

Lemma replace_selection_cases (matched options : text) (io : IO) :
  (choices_of options = []
   /\ replace_selection Math_random matched options io
      = (matched, emit (WarnNoValidOptions matched) io))
  \/ (exists alt, In alt (choices_of options)
      /\ replace_selection Math_random matched options io = (alt, tick io)).
Proof.
  unfold replace_selection.
  destruct (choices_of options) as [|c cs] eqn:E; [left; auto|right].
  eexists; split; [|reflexivity].
  unfold array_get. apply nth_In, floor_times_lt. simpl. lia.
Qed.
End SelectionFacts.

Lemma has_open_head (s : text) :
  has_open s = false -> strip_prefix [LBRACK; LBRACK] s = None.
Proof.
  destruct s as [|a [|b s]]; cbn [has_open strip_prefix]; try reflexivity.
  - intros _. destruct (LBRACK =? a)%N; reflexivity.
  - intros H%orb_false_iff. destruct H as [H _].
    rewrite (N.eqb_sym LBRACK a), (N.eqb_sym LBRACK b).
    destruct (a =? LBRACK)%N; [|reflexivity].
    destruct (b =? LBRACK)%N; [discriminate|reflexivity].
Qed.

Lemma has_open_tail (c : N) (s : text) :
  has_open (c :: s) = false -> has_open s = false.
Proof.
  cbn [has_open]. destruct s; [reflexivity|].
  intros H%orb_false_iff. apply H.
Qed.

(** Without a pair of opening brackets the selection pass finds nothing. *)
Lemma select_random_no_open (Math_random : nat -> unit_interval)
    (s : text) (io : IO) :
  has_open s = false -> select_random Math_random s io = (s, io).
Proof.
  unfold select_random. induction s as [|c s IH]; intros H; [reflexivity|].
  rewrite replace_all_no_match.
  - rewrite IH by (eapply has_open_tail, H). reflexivity.
  - unfold match_span. rewrite (has_open_head _ H). reflexivity.
Qed.

(** ** Directory trees *)


Lemma find_entry_name (name : text) (items : list entry) (e : entry) :
  find_entry name items = Some e -> entry_name e = name.
Proof.
  induction items as [|x items IH]; simpl; [discriminate|].
  case_bool_decide; [intros [= <-]; assumption | exact IH].
Qed.

Lemma find_entry_In (name : text) (items : list entry) (e : entry) :
  find_entry name items = Some e -> In e items.
Proof.
  induction items as [|x items IH]; simpl; [discriminate|].
  case_bool_decide; [intros [= <-]; auto | auto].
Qed.

Lemma find_set_entry_eq (new : entry) (items : list entry) :
  find_entry (entry_name new) (set_entry new items) = Some new.
Proof.
  induction items as [|x items IH]; simpl.
  - rewrite bool_decide_eq_true_2; reflexivity.
  - case_bool_decide as E; simpl.
    + rewrite bool_decide_eq_true_2; reflexivity.
    + rewrite bool_decide_eq_false_2 by exact E. exact IH.
Qed.

Lemma find_set_entry_ne (name : text) (new : entry) (items : list entry) :
  name <> entry_name new ->
  find_entry name (set_entry new items) = find_entry name items.
Proof.
  intros Hne. induction items as [|x items IH]; simpl.
  - rewrite bool_decide_eq_false_2 by congruence. reflexivity.
  - case_bool_decide as E; simpl.
    + rewrite !bool_decide_eq_false_2 by congruence. reflexivity.
    + rewrite IH. reflexivity.
Qed.

Lemma lookup_path_app (p q : path) (e : entry) :
  lookup_path (p ++ q) e =
    match lookup_path p e with
    | Some sub => lookup_path q sub
    | None => None
    end.
Proof.
  revert e; induction p as [|name p IH]; intros e; simpl; [reflexivity|].
  destruct e as [| d items |]; try reflexivity.
  destruct (find_entry name items); [apply IH | reflexivity].
Qed.

(** *** The copy filter *)

Lemma path_relative_below (templatePath rel : path) :
  path_relative templatePath (templatePath ++ rel) = render rel.
Proof.
  unfold path_relative. f_equal.
  induction templatePath as [|a t IH]; simpl; [reflexivity|].
  rewrite bool_decide_eq_true_2 by reflexivity. exact IH.
Qed.

Lemma startsWith_first_component (name : text) (more : path) (prefix : text) :
  ~ In SLASH prefix ->
  startsWith (render (name :: more)) prefix = startsWith name prefix.
Proof.
  intros Hno. destruct more as [|m more]; [reflexivity|].
  change (render (name :: m :: more)) with (name ++ SLASH :: render (m :: more)).
  unfold startsWith.
  destruct (le_gt_dec (length prefix) (length name)) as [Hle|Hgt].
  - rewrite take_app_le by exact Hle. reflexivity.
  - rewrite (bool_decide_eq_false_2 (take _ name = prefix)).
    + apply bool_decide_eq_false_2. intros E. apply Hno.
      rewrite <- E. apply list_elem_of_In.
      apply (list_elem_of_lookup_2 _ (length name)).
      rewrite lookup_take_lt by lia.
      rewrite lookup_app_r by lia. rewrite Nat.sub_diag. reflexivity.
    + intros E. apply (f_equal length) in E. rewrite length_take in E. lia.
Qed.

Lemma copy_filter_below (templatePath : path) (name : text) (more : path) :
  copy_filter templatePath (templatePath ++ name :: more)
  = negb (excluded_from_copy name).
Proof.
  unfold copy_filter, excluded_from_copy.
  rewrite path_relative_below.
  rewrite !startsWith_first_component
    by (vm_compute; intuition discriminate).
  rewrite !negb_orb. reflexivity.
Qed.

Lemma copy_filter_root (templatePath : path) :
  copy_filter templatePath templatePath = true.
Proof.
  unfold copy_filter.
  rewrite <- (app_nil_r templatePath) at 2 4 6.
  rewrite path_relative_below. reflexivity.
Qed.

Lemma copy_entry_all (filter : path -> bool) (e : entry) (src : path) :
  (forall more, more <> [] -> filter (src ++ more) = true) ->
  copy_entry filter src e = e.
Proof.
  revert src. induction e as [| name items IH |] using entry_tree_ind;
    intros src Hall; try reflexivity.
  cbn [copy_entry]. f_equal.
  induction IH as [|x items Hx _ IHitems]; [reflexivity|].
  cbn [flat_map]. rewrite (Hall [entry_name x]) by discriminate.
  rewrite Hx.
  - simpl. f_equal. exact IHitems.
  - intros more Hmore. rewrite <- app_assoc. apply Hall. discriminate.
Qed.

(** What the copy of a template directory holds: the items of its first
    level whose name does not begin with one of the three prefixes, each
    with everything below it. *)
Lemma copy_entry_template (templatePath : path) (name : text)
    (items : list entry) :
  copy_entry (copy_filter templatePath) templatePath (Dir name items)
  = Dir name
      (List.filter (fun e => negb (excluded_from_copy (entry_name e))) items).
Proof.
  cbn [copy_entry]. f_equal.
  induction items as [|x items IH]; [reflexivity|].
  cbn [flat_map List.filter]. rewrite copy_filter_below.
  destruct (excluded_from_copy (entry_name x)) eqn:E; simpl; [exact IH|].
  f_equal; [|exact IH].
  apply copy_entry_all. intros more Hmore.
  rewrite <- app_assoc. simpl. rewrite copy_filter_below, E. reflexivity.
Qed.

Lemma find_entry_filter_name (keep : text -> bool) (name : text)
    (items : list entry) :
  find_entry name (List.filter (fun e => keep (entry_name e)) items)
  = if keep name then find_entry name items else None.
Proof.
  induction items as [|x items IH]; simpl; [destruct (keep name); reflexivity|].
  destruct (keep (entry_name x)) eqn:K; simpl.
  - case_bool_decide as E; [rewrite <- E, K; reflexivity | exact IH].
  - rewrite IH. destruct (keep name) eqn:K'; [|reflexivity].
    rewrite bool_decide_eq_false_2 by congruence. reflexivity.
Qed.

(** *** Reading and overwriting files *)

Lemma update_path_name (p : path) (f : entry -> option entry) (e e' : entry) :
  (forall x y, f x = Some y -> entry_name y = entry_name x) ->
  update_path p f e = Some e' -> entry_name e' = entry_name e.
Proof.
  intros Hf. destruct p as [|name p]; simpl; [apply Hf|].
  destruct e as [| d items |]; try discriminate.
  destruct (find_entry name items); [|discriminate].
  destruct (update_path p f e); [|discriminate].
  intros [= <-]. reflexivity.
Qed.

Lemma set_content_name (content : text) (x y : entry) :
  set_content content x = Some y -> entry_name y = entry_name x.
Proof. destruct x; simpl; intros [= <-]; reflexivity. Qed.

Lemma read_after_overwrite (p : path) (content : text) (root root' : entry) :
  overwrite_file p content root = Some root' ->
  read_file p root' = Some content.
Proof.
  unfold overwrite_file, read_file.
  revert root root'; induction p as [|name p IH]; intros root root'; simpl.
  - destruct root; simpl; intros [= <-]; reflexivity.
  - destruct root as [| d items |]; try discriminate.
    destruct (find_entry name items) as [sub|] eqn:Ef; [|discriminate].
    destruct (update_path p _ sub) as [sub'|] eqn:Eu; [|discriminate].
    intros [= <-]. simpl.
    pose proof (update_path_name _ _ _ _ (set_content_name content) Eu) as Hn.
    rewrite (find_entry_name _ _ _ Ef) in Hn. rewrite <- Hn at 1.
    rewrite find_set_entry_eq. exact (IH _ _ Eu).
Qed.

(** Overwriting one file changes the content of no other. *)
Lemma read_other_after_overwrite (p q : path) (content : text)
    (root root' : entry) :
  overwrite_file p content root = Some root' -> q <> p ->
  read_file q root' = read_file q root.
Proof.
  unfold overwrite_file, read_file.
  revert q root root'; induction p as [|name p IH]; intros q root root'; simpl.
  - destruct root; simpl; intros [= <-] Hq; destruct q; try congruence;
      reflexivity.
  - destruct root as [| d items |]; try discriminate.
    destruct (find_entry name items) as [sub|] eqn:Ef; [|discriminate].
    destruct (update_path p _ sub) as [sub'|] eqn:Eu; [|discriminate].
    intros [= <-] Hq. destruct q as [|m q]; [reflexivity|]. simpl.
    pose proof (update_path_name _ _ _ _ (set_content_name content) Eu) as Hn.
    rewrite (find_entry_name _ _ _ Ef) in Hn.
    destruct (decide (m = name)) as [->|Hm].
    + rewrite <- Hn at 1. rewrite find_set_entry_eq, Ef.
      apply (IH q _ _ Eu). congruence.
    + rewrite find_set_entry_ne by congruence. reflexivity.
Qed.

Lemma overwrite_file_defined (p : path) (content content' : text)
    (root : entry) :
  read_file p root = Some content ->
  exists root', overwrite_file p content' root = Some root'.
Proof.
  unfold overwrite_file, read_file.
  revert root; induction p as [|name p IH]; intros root; simpl.
  - destruct root; try discriminate. intros _. eexists; reflexivity.
  - destruct root as [| d items |]; try discriminate.
    destruct (find_entry name items) as [sub|]; [|discriminate].
    intros H. destruct (IH _ H) as [sub' ->]. eexists; reflexivity.
Qed.

Lemma lookup_after_update (p : path) (f : entry -> option entry)
    (e e' : entry) :
  (forall x y, f x = Some y -> entry_name y = entry_name x) ->
  update_path p f e = Some e' ->
  exists x y, lookup_path p e = Some x /\ f x = Some y
              /\ lookup_path p e' = Some y.
Proof.
  intros Hf. revert e e'; induction p as [|name p IH]; intros e e'; simpl.
  - intros H. exists e, e'. auto.
  - destruct e as [| d items |]; try discriminate.
    destruct (find_entry name items) as [sub|] eqn:Ef; [|discriminate].
    destruct (update_path p f sub) as [sub'|] eqn:Eu; [|discriminate].
    intros [= <-]. simpl.
    pose proof (update_path_name _ _ _ _ Hf Eu) as Hn.
    rewrite (find_entry_name _ _ _ Ef) in Hn.
    assert (find_entry name (set_entry sub' items) = Some sub') as ->
      by (rewrite <- Hn; apply find_set_entry_eq).
    exact (IH _ _ Eu).
Qed.

Lemma rename_name (name : text) (e : entry) : entry_name (rename name e) = name.
Proof. destruct e; reflexivity. Qed.

(** Where [fs.copy] succeeds and the filter lets the source pass, the
    destination holds the filtered copy of the source under its new name. *)
Lemma copy_tree_places_copy (src dest : path) (filter : path -> bool)
    (root root' e : entry) :
  lookup_path src root = Some e -> filter src = true -> dest <> [] ->
  copy_tree src dest filter root = Ok root' ->
  lookup_path dest root'
  = Some (rename (List.last dest []) (copy_entry filter src e)).
Proof.
  intros Hsrc Hfilter Hdest. unfold copy_tree. rewrite Hsrc, Hfilter.
  destruct (is_prefix src dest); [discriminate|]. cbn [negb].
  destruct (mkdirs (removelast dest) root) as [root1|]; [|discriminate].
  set (copy := rename (List.last dest []) (copy_entry filter src e)).
  destruct (update_path (removelast dest) _ root1) as [root2|] eqn:Eu;
    [|discriminate].
  intros [= <-].
  apply lookup_after_update in Eu as (x & y & _ & Hy & Hl).
  - rewrite (app_removelast_last [] Hdest) at 1.
    rewrite lookup_path_app, Hl.
    destruct x as [| n items |]; try discriminate. injection Hy as <-.
    cbn [lookup_path].
    replace (List.last dest []) with (entry_name copy) at 1
      by apply rename_name.
    rewrite find_set_entry_eq. reflexivity.
  - intros x y. destruct x; try discriminate. intros [= <-]. reflexivity.
Qed.

(** *** The walk *)

Lemma in_traverseDirectory (extensions : list text) (cur p : path)
    (items : list entry) :
  In p (traverseDirectory extensions cur items) <->
  exists item, In item items /\ In p (traverseItem extensions cur item).
Proof. unfold traverseDirectory. rewrite in_flat_map. reflexivity. Qed.

Lemma traverseItem_paths (extensions : list text) (item : entry) :
  forall cur p, In p (traverseItem extensions cur item) ->
  exists rel, p = cur ++ entry_name item :: rel
              /\ through_excluded (entry_name item :: rel) = false.
Proof.
  induction item as [name content | name items IH | name] using entry_tree_ind;
    intros cur p; cbn [traverseItem entry_name].
  - destruct (includes extensions (extname name)); [|intros []].
    intros [<-|[]]. exists []. split; reflexivity.
  - destruct (includes excluded_directories name) eqn:Ex; [intros []|].
    cbn [negb]. rewrite in_flat_map. intros (x & Hx & Hp).
    rewrite Forall_forall in IH.
    destruct (IH x ltac:(apply list_elem_of_In; exact Hx) _ _ Hp)
      as (rel & -> & Hrel).
    exists (entry_name x :: rel). split.
    + rewrite <- app_assoc. reflexivity.
    + unfold through_excluded in *.
      change (removelast (name :: entry_name x :: rel))
        with (name :: removelast (entry_name x :: rel)).
      cbn [existsb]. rewrite Ex, Hrel. reflexivity.
  - intros [].
Qed.

Lemma traverseItem_length (extensions : list text) (item : entry) :
  forall cur, length (traverseItem extensions cur item)
              = matching_files extensions item.
Proof.
  induction item as [name content | name items IH | name] using entry_tree_ind;
    intros cur; cbn [traverseItem matching_files entry_name].
  - destruct (includes extensions (extname name)); reflexivity.
  - destruct (includes excluded_directories name); [reflexivity|]. cbn [negb].
    induction IH as [|x items Hx _ IHitems]; [reflexivity|].
    cbn [flat_map List.map list_sum]. rewrite length_app, Hx, IHitems.
    reflexivity.
  - reflexivity.
Qed.

Lemma traverseDirectory_length (extensions : list text) (cur : path)
    (items : list entry) :
  length (traverseDirectory extensions cur items)
  = list_sum (List.map (matching_files extensions) items).
Proof.
  unfold traverseDirectory. induction items as [|x items IH]; [reflexivity|].
  cbn [flat_map List.map list_sum].
  rewrite length_app, traverseItem_length, IH. reflexivity.
Qed.

Lemma unique_names_Dir (name : text) (items : list entry) :
  unique_names (Dir name items) = true ->
  NoDup (List.map entry_name items)
  /\ forall x, In x items -> unique_names x = true.
Proof.
  cbn [unique_names]. rewrite andb_true_iff, bool_decide_eq_true.
  rewrite forallb_forall. auto.
Qed.

Lemma find_entry_unique (items : list entry) (x : entry) :
  NoDup (List.map entry_name items) -> In x items ->
  find_entry (entry_name x) items = Some x.
Proof.
  induction items as [|y items IH]; simpl; [intros _ []|].
  intros Hnd [->|Hin].
  - rewrite bool_decide_eq_true_2; reflexivity.
  - apply NoDup_cons in Hnd as [Hy Hnd].
    rewrite bool_decide_eq_false_2; [auto|].
    intros E. apply Hy. rewrite E. apply list_elem_of_In, in_map, Hin.
Qed.

Lemma traverseItem_readable (extensions : list text) (item : entry) :
  unique_names item = true ->
  forall cur p, In p (traverseItem extensions cur item) ->
  exists rel content,
    p = cur ++ entry_name item :: rel /\ read_file rel item = Some content.
Proof.
  induction item as [name content | name items IH | name] using entry_tree_ind;
    intros Hwf cur p; cbn [traverseItem entry_name].
  - destruct (includes extensions (extname name)); [|intros []].
    intros [<-|[]]. exists [], content. split; reflexivity.
  - destruct (includes excluded_directories name); [intros []|].
    cbn [negb]. rewrite in_flat_map. intros (x & Hx & Hp).
    apply unique_names_Dir in Hwf as [Hnd Hwf].
    rewrite Forall_forall in IH.
    destruct (IH x ltac:(apply list_elem_of_In; exact Hx) (Hwf x Hx) _ _ Hp)
      as (rel & content & -> & Hread).
    exists (entry_name x :: rel), content. split.
    + rewrite <- app_assoc. reflexivity.
    + unfold read_file in *. cbn [lookup_path].
      rewrite (find_entry_unique items x Hnd Hx). exact Hread.
  - intros [].
Qed.

Lemma traverseItem_NoDup (extensions : list text) (item : entry) :
  unique_names item = true ->
  forall cur, NoDup (traverseItem extensions cur item).
Proof.
  induction item as [name content | name items IH | name] using entry_tree_ind;
    intros Hwf cur; cbn [traverseItem entry_name].
  - destruct (includes extensions (extname name));
      [apply NoDup_singleton | apply NoDup_nil_2].
  - destruct (includes excluded_directories name); [apply NoDup_nil_2|].
    cbn [negb]. apply unique_names_Dir in Hwf as [Hnd Hwf].
    induction IH as [|x items Hx _ IHitems]; [apply NoDup_nil_2|].
    cbn [flat_map]. cbn [List.map] in Hnd.
    apply NoDup_cons in Hnd as [Hnx Hnd].
    apply NoDup_app. split; [|split].
    + apply Hx. apply Hwf. left; reflexivity.
    + intros p Hp%list_elem_of_In Hq%list_elem_of_In.
      apply in_flat_map in Hq as (y & Hy & Hq).
      apply traverseItem_paths in Hp as (r1 & -> & _).
      apply traverseItem_paths in Hq as (r2 & E & _).
      apply app_inv_head in E. injection E as E _.
      apply Hnx. rewrite E. apply list_elem_of_In, in_map, Hy.
    + apply IHitems; [exact Hnd|]. intros y Hy. apply Hwf. right; exact Hy.
  - apply NoDup_nil_2.
Qed.

(** *** The console only grows *)

Lemma extends_refl (io : IO) : extends io io.
Proof. exists []. rewrite app_nil_r. reflexivity. Qed.

Lemma extends_trans (a b c : IO) : extends a b -> extends b c -> extends a c.
Proof.
  intros [l1 H1] [l2 H2]. exists (l1 ++ l2). rewrite H2, H1, app_assoc.
  reflexivity.
Qed.

Lemma extends_emit (e : console_event) (io : IO) : extends io (emit e io).
Proof. exists [e]. reflexivity. Qed.

Lemma extends_tick (io : IO) : extends io (tick io).
Proof. exists []. rewrite app_nil_r. reflexivity. Qed.

Lemma replace_from_extends {G : Type} (matcher : text -> option (G * nat))
    (fn : text -> G -> IO -> text * IO) :
  (forall m g io, extends io (snd (fn m g io))) ->
  forall s skip io, extends io (snd (replace_from matcher fn s skip io)).
Proof.
  intros Hfn. induction s as [|c s IH]; intros skip io; [apply extends_refl|].
  cbn [replace_from]. destruct skip as [|k]; [|apply IH].
  destruct (matcher (c :: s)) as [[g [|n]]|].
  - pose proof (Hfn [] g io) as H1. destruct (fn [] g io) as [r io1].
    pose proof (IH 0 io1) as H2.
    destruct (replace_from matcher fn s 0 io1) as [out io2].
    eapply extends_trans; eassumption.
  - pose proof (Hfn (take (S n) (c :: s)) g io) as H1.
    destruct (fn (take (S n) (c :: s)) g io) as [r io1].
    pose proof (IH n io1) as H2.
    destruct (replace_from matcher fn s n io1) as [out io2].
    eapply extends_trans; eassumption.
  - pose proof (IH 0 io) as H2.
    destruct (replace_from matcher fn s 0 io) as [out io1]. exact H2.
Qed.

Lemma processTemplate_extends (Math_random : nat -> unit_interval)
    (content : text) (data : gmap text text) (filePath : text) (io : IO) :
  extends io (snd (processTemplate Math_random content data filePath io)).
Proof.
  unfold processTemplate, substitute_variables, select_random, replace_all.
  pose proof (replace_from_extends match_var (replace_variable data filePath))
    as H1.
  specialize (H1 ltac:(intros m g st; unfold replace_variable;
                       destruct (get_property data g);
                       [apply extends_refl | apply extends_emit])
                 content 0 io).
  destruct (replace_from match_var _ content 0 io) as [c1 io1].
  pose proof (replace_from_extends match_span (replace_selection Math_random))
    as H2.
  specialize (H2 ltac:(intros m g st; unfold replace_selection;
                       destruct (choices_of g);
                       [apply extends_emit | apply extends_tick])
                 c1 0 io1).
  eapply extends_trans; eassumption.
Qed.

(** *** One file, then all of them *)

Section ProcessorFacts.
Variable Math_random : nat -> unit_interval.

Lemma processFile_readable (p : path) (data : gmap text text) (w : World)
    (content : text) :
  read_file p (fs w) = Some content ->
  let result := processTemplate Math_random content data (render p) (io w) in
  exists root',
    overwrite_file p (fst result) (fs w) = Some root'
    /\ processFile Math_random p data w = (Ok tt, mkWorld root' (snd result)).
Proof.
  intros Hread result.
  destruct (overwrite_file_defined p content (fst result) (fs w) Hread)
    as [root' Hw].
  exists root'. split; [exact Hw|].
  unfold processFile, try_catch, bind, fs_readFile, run_processTemplate,
    fs_writeFile.
  unfold read_file in Hread.
  destruct (lookup_path p (fs w)) as [[n c| |]|]; try discriminate.
  injection Hread as ->. fold result.
  destruct result as [out io1]. cbn [fs io fst snd] in *. rewrite Hw.
  reflexivity.
Qed.

Lemma processFile_effect (p : path) (data : gmap text text) (w : World) :
  let w' := snd (processFile Math_random p data w) in
  extends (io w) (io w')
  /\ (fs w' = fs w \/ exists c, overwrite_file p c (fs w) = Some (fs w')).
Proof.
  destruct (read_file p (fs w)) as [content|] eqn:Hread.
  - destruct (processFile_readable p data w content Hread) as (root' & Hw & ->).
    cbn [snd fs io]. split; [apply processTemplate_extends|].
    right. eexists. exact Hw.
  - unfold processFile, try_catch, bind, fs_readFile, console_out, throw.
    unfold read_file in Hread.
    destruct (lookup_path p (fs w)) as [[n c| |]|]; try discriminate;
      cbn [snd fs io]; (split; [apply extends_emit | left; reflexivity]).
Qed.

Lemma for_of_processFile_effect (files : list path) (data : gmap text text)
    (w : World) :
  let w' := snd (for_of files (fun file => processFile Math_random file data) w) in
  extends (io w) (io w')
  /\ forall q, ~ In q files -> read_file q (fs w') = read_file q (fs w).
Proof.
  revert w; induction files as [|p files IH]; intros w; cbn [for_of].
  - split; [apply extends_refl | reflexivity].
  - unfold bind.
    pose proof (processFile_effect p data w) as [He Hfs].
    destruct (processFile Math_random p data w) as [[[]|e] w1]; cbn [snd] in *.
    + destruct (IH w1) as [He1 Hfs1]. split; [eapply extends_trans; eassumption|].
      intros q Hq. rewrite Hfs1 by (intros H; apply Hq; right; exact H).
      destruct Hfs as [->|[c Hc]]; [reflexivity|].
      apply (read_other_after_overwrite p q c _ _ Hc).
      intros ->. apply Hq. left; reflexivity.
    + split; [exact He|]. intros q Hq.
      destruct Hfs as [->|[c Hc]]; [reflexivity|].
      apply (read_other_after_overwrite p q c _ _ Hc).
      intros ->. apply Hq. left; reflexivity.
Qed.

Lemma for_of_processFile_readable (files : list path) (data : gmap text text)
    (w : World) :
  (forall p, In p files -> is_Some (read_file p (fs w))) ->
  NoDup files ->
  exists w',
    for_of files (fun file => processFile Math_random file data) w = (Ok tt, w')
    /\ forall p, In p files ->
       exists content io_p,
         read_file p (fs w) = Some content
         /\ read_file p (fs w')
            = Some (fst (processTemplate Math_random content data (render p) io_p)).
Proof.
  revert w; induction files as [|p files IH]; intros w Hread Hnd; cbn [for_of].
  - exists w. split; [reflexivity | intros p []].
  - apply NoDup_cons in Hnd as [Hp Hnd].
    destruct (Hread p ltac:(left; reflexivity)) as [content Hc].
    destruct (processFile_readable p data w content Hc) as (root' & Hw & E).
    unfold bind. rewrite E.
    set (w1 := mkWorld root' _).
    assert (forall q, q <> p -> read_file q (fs w1) = read_file q (fs w)) as Hframe.
    { intros q Hq. apply (read_other_after_overwrite p q _ _ _ Hw Hq). }
    destruct (IH w1) as (w' & Hrun & Hall); [|exact Hnd|].
    { intros q Hq. rewrite Hframe; [apply Hread; right; exact Hq|].
      intros ->. apply Hp, list_elem_of_In, Hq. }
    exists w'. split; [exact Hrun|].
    intros q [<-|Hq].
    + exists content, (io w). split; [exact Hc|].
      pose proof (for_of_processFile_effect files data w1) as [_ Hkeep].
      rewrite Hrun in Hkeep. cbn [snd] in Hkeep.
      rewrite Hkeep by (intros H; apply Hp, list_elem_of_In, H).
      apply (read_after_overwrite _ _ _ _ Hw).
    + destruct (Hall q Hq) as (c & io_q & H1 & H2).
      exists c, io_q. split; [|exact H2].
      rewrite <- Hframe; [exact H1|].
      intros ->. apply Hp, list_elem_of_In, Hq.
Qed.
End ProcessorFacts.

Lemma unique_names_lookup (p : path) (e sub : entry) :
  unique_names e = true -> lookup_path p e = Some sub ->
  unique_names sub = true.
Proof.
  revert e; induction p as [|name p IH]; intros e Hwf; simpl.
  - intros [= <-]. exact Hwf.
  - destruct e as [| d items |]; try discriminate.
    destruct (find_entry name items) as [x|] eqn:E; [|discriminate].
    apply IH. apply unique_names_Dir in Hwf as [_ Hwf].
    apply Hwf. eapply find_entry_In, E.
Qed.

Lemma read_file_below (cur rel : path) (root sub : entry) :
  lookup_path cur root = Some sub ->
  read_file (cur ++ rel) root = read_file rel sub.
Proof.
  intros H. unfold read_file. rewrite lookup_path_app, H. reflexivity.
Qed.

Lemma traverseDirectory_readable (extensions : list text) (cur : path)
    (root : entry) (name : text) (items : list entry) :
  unique_names root = true ->
  lookup_path cur root = Some (Dir name items) ->
  forall p, In p (traverseDirectory extensions cur items) ->
  is_Some (read_file p root).
Proof.
  intros Hwf Hdir p Hp.
  pose proof (unique_names_lookup _ _ _ Hwf Hdir) as Hsub.
  apply unique_names_Dir in Hsub as [Hnd Hsub].
  apply in_traverseDirectory in Hp as (x & Hx & Hp).
  destruct (traverseItem_readable extensions x (Hsub x Hx) _ _ Hp)
    as (rel & content & -> & Hread).
  exists content. rewrite (read_file_below _ _ _ _ Hdir).
  unfold read_file in *. cbn [lookup_path].
  rewrite (find_entry_unique items x Hnd Hx). exact Hread.
Qed.

Lemma traverseDirectory_NoDup (extensions : list text) (cur : path)
    (name : text) (items : list entry) :
  unique_names (Dir name items) = true ->
  NoDup (traverseDirectory extensions cur items).
Proof.
  intros Hwf. apply unique_names_Dir in Hwf as [Hnd Hwf].
  unfold traverseDirectory.
  induction items as [|x items IH]; [apply NoDup_nil_2|].
  cbn [flat_map]. cbn [List.map] in Hnd.
  apply NoDup_cons in Hnd as [Hnx Hnd].
  apply NoDup_app. split; [|split].
  - apply traverseItem_NoDup, Hwf. left; reflexivity.
  - intros p Hp%list_elem_of_In Hq%list_elem_of_In.
    apply in_flat_map in Hq as (y & Hy & Hq).
    apply traverseItem_paths in Hp as (r1 & -> & _).
    apply traverseItem_paths in Hq as (r2 & E & _).
    apply app_inv_head in E. injection E as E _.
    apply Hnx. rewrite E. apply list_elem_of_In, in_map, Hy.
  - apply IH; [exact Hnd|]. intros y Hy. apply Hwf. right; exact Hy.
Qed.

Lemma traverseDirectory_paths (extensions : list text) (cur p : path)
    (items : list entry) :
  In p (traverseDirectory extensions cur items) ->
  exists rel, p = cur ++ rel /\ through_excluded rel = false.
Proof.
  intros (x & _ & Hp)%in_traverseDirectory.
  apply traverseItem_paths in Hp as (rel & -> & H). eauto.
Qed.

Section DirectoryFacts.
Variable Math_random : nat -> unit_interval.

(** Whatever happens, [processDirectory] changes the content of no file
    outside the list [getAllFiles] gives it. *)
Lemma processDirectory_frame (dirPath : path) (data : gmap text text)
    (extensions : list text) (w : World) (q : path) :
  (forall name items,
     lookup_path dirPath (fs w) = Some (Dir name items) ->
     ~ In q (traverseDirectory extensions dirPath items)) ->
  read_file q
    (fs (snd (processDirectory Math_random dirPath data extensions w)))
  = read_file q (fs w).
Proof.
  intros Hq.
  unfold processDirectory, getAllFiles.
  unfold try_catch, bind, fs_readdir, ret, console_out, throw.
  destruct (lookup_path dirPath (fs w)) as [[n c | name items | n]|] eqn:Hdir;
    cbn [snd fs]; try reflexivity.
  specialize (Hq name items eq_refl).
  set (files := traverseDirectory extensions dirPath items) in *.
  set (w1 := mkWorld (fs w) (emit (LogProcessingFiles (length files)) (io w))).
  pose proof (for_of_processFile_effect Math_random files data w1)
    as [_ Hkeep].
  destruct (for_of files _ w1) as [[[]|e] w2]; cbn [snd fs] in *;
    apply (Hkeep q Hq).
Qed.
End DirectoryFacts.

(** ** The monad *)

Lemma bind_Ok {A B} (m : M A) (k : A -> M B) (w w' : World) (b : B) :
  bind m k w = (Ok b, w') ->
  exists a w1, m w = (Ok a, w1) /\ k a w1 = (Ok b, w').
Proof.
  unfold bind. destruct (m w) as [[a|e] w1]; [eauto | discriminate].
Qed.

Lemma bind_run {A B} (m : M A) (k : A -> M B) (w w1 : World) (a : A) :
  m w = (Ok a, w1) -> bind m k w = k a w1.
Proof. unfold bind. intros ->. reflexivity. Qed.

Lemma bind_thrown {A B} (m : M A) (k : A -> M B) (w w1 : World) (e : error) :
  m w = (Thrown e, w1) -> bind m k w = (Thrown e, w1).
Proof. unfold bind. intros ->. reflexivity. Qed.

(** ** The builder *)

Section BuilderFacts.
Variable Math_random : nat -> unit_interval.
Variable JSON_parse : text -> option json.
Variable JSON_stringify : json -> text.
Variable unicode_lower : text -> text.
Variable execSync : text -> path -> entry -> outcome text * entry.

Abbreviation buildWebsite' :=
  (buildWebsite Math_random JSON_parse JSON_stringify unicode_lower execSync).
Abbreviation build_each' :=
  (build_each Math_random JSON_parse JSON_stringify unicode_lower execSync).
Abbreviation build_steps' :=
  (build_steps Math_random JSON_parse JSON_stringify unicode_lower execSync).

Lemma install_and_build_result (domain : text) (websitePath : path)
    (w w' : World) (r : build_result) :
  install_and_build execSync domain websitePath w = (Ok r, w') ->
  r = Succeeded domain websitePath.
Proof.
  unfold install_and_build. intros H.
  apply bind_Ok in H as (? & ? & _ & H).
  apply bind_Ok in H as (? & ? & _ & H).
  apply bind_Ok in H as (? & ? & _ & H).
  unfold ret in H. congruence.
Qed.

Lemma build_steps_result (domain : text) (data : gmap text text)
    (templatePath outputPath websitePath : path) (w w' : World)
    (r : build_result) :
  build_steps' domain data templatePath outputPath websitePath w = (Ok r, w') ->
  r = Succeeded domain websitePath.
Proof.
  unfold build_steps. intros H.
  apply bind_Ok in H as (? & ? & _ & H).
  apply bind_Ok in H as (? & ? & _ & H).
  apply bind_Ok in H as (? & ? & _ & H).
  eapply install_and_build_result, H.
Qed.

(** A website with a domain always ends with a result, and the result is
    a success exactly when every step of the [try] succeeded. *)
Lemma buildWebsite_terminal (domain : text) (data : gmap text text)
    (templatePath outputPath : path) (w : World) :
  exists result w',
    buildWebsite' (Some domain) data templatePath outputPath w = (Ok result, w')
    /\ result_domain result = domain
    /\ (success result = true <->
        exists r w1,
          build_steps' domain data templatePath outputPath
            (path_join outputPath domain) w = (Ok r, w1))
    /\ (result = Succeeded domain (path_join outputPath domain)
        \/ exists e, result = Failed domain (message e)).
Proof.
  unfold buildWebsite, try_catch.
  destruct (build_steps' domain data templatePath outputPath
              (path_join outputPath domain) w) as [[r|e] w1] eqn:E.
  - pose proof (build_steps_result _ _ _ _ _ _ _ _ E) as ->.
    eexists _, _. split; [reflexivity|]. split; [reflexivity|].
    split; [|left; reflexivity]. split; [eauto | reflexivity].
  - eexists _, _. split; [reflexivity|]. split; [reflexivity|].
    split; [|right; eauto].
    split; [discriminate | intros (? & ? & ?); discriminate].
Qed.

Lemma build_each_acc (websites : list (gmap text text))
    (templatePath outputPath : path) (acc : list build_result) (w : World) :
  build_each' websites templatePath outputPath acc w
  = match build_each' websites templatePath outputPath [] w with
    | (Ok results, w') => (Ok (acc ++ results), w')
    | (Thrown e, w') => (Thrown e, w')
    end.
Proof.
  revert acc w; induction websites as [|website rest IH]; intros acc w.
  - cbn [build_each]. unfold ret. rewrite app_nil_r. reflexivity.
  - cbn [build_each]. unfold bind.
    destruct (buildWebsite' (website !! u "domain") website templatePath
                outputPath w) as [[r|e] w1]; [|reflexivity].
    rewrite (IH (acc ++ [r])), (IH ([] ++ [r])).
    destruct (build_each' rest templatePath outputPath [] w1) as [[rs|e] w2];
      [|reflexivity].
    rewrite <- app_assoc. reflexivity.
Qed.

Lemma build_each_cons (website : gmap text text)
    (rest : list (gmap text text)) (templatePath outputPath : path)
    (w w1 w2 : World) (r : build_result) (rs : list build_result) :
  buildWebsite' (website !! u "domain") website templatePath outputPath w
  = (Ok r, w1) ->
  build_each' rest templatePath outputPath [] w1 = (Ok rs, w2) ->
  build_each' (website :: rest) templatePath outputPath [] w = (Ok (r :: rs), w2).
Proof.
  intros H1 H2. cbn [build_each]. rewrite (bind_run _ _ _ _ _ H1).
  rewrite build_each_acc, H2. reflexivity.
Qed.
End BuilderFacts.

(** ** The program on small inputs *)

Example escapeForJS_quotes :
  escapeForJS (u "it's" ++ [LF] ++ u "ok") = u "it\'s\nok".
Proof. reflexivity. Qed.

Example extname_names :
  List.map extname
    [u "App.js"; u "index.test.tsx"; u ".gitignore"; u "Makefile"; u "a.";
     u ".."; u ".env.json"]
  = [u ".js"; u ".tsx"; []; []; u "."; []; u ".json"].
Proof. reflexivity. Qed.

Example path_join_names :
  path_join [u "build"] (u "a.test") = [u "build"; u "a.test"]
  /\ path_join [u "build"] (u "shop/eu") = [u "build"; u "shop"; u "eu"]
  /\ path_join [u "build"; u "a.test"] (u "package.json")
     = [u "build"; u "a.test"; u "package.json"].
Proof. repeat split. Qed.

Example variable_then_selection :
  processTemplate first_choice (u "Hello {{title}}, [[Hi|Yo]]! {{missing}}")
    sample_row [] io0
  = (u "Hello A, Hi! {{missing}}",
     mkIO [WarnVariableNotFound (u "missing")] 1)
  /\ fst (processTemplate last_choice
            (u "Hello {{title}}, [[Hi|Yo]]! {{missing}}") sample_row [] io0)
     = u "Hello A, Yo! {{missing}}".
Proof. vm_compute. split; reflexivity. Qed.

(** Whatever the random source, the text [Hello {{title}}, [[Hi|Yo]]!]
    becomes one of two texts for the sample row. *)
Example hello_is_one_of_two (Math_random : nat -> unit_interval) :
  In (fst (processTemplate Math_random (u "Hello {{title}}, [[Hi|Yo]]!")
             sample_row [] io0))
    [u "Hello A, Hi!"; u "Hello A, Yo!"].
Proof.
  unfold processTemplate.
  assert (substitute_variables sample_row [] (u "Hello {{title}}, [[Hi|Yo]]!")
            io0 = (u "Hello A, " ++ span (u "Hi|Yo") ++ u "!", io0)) as ->
    by (vm_compute; reflexivity).
  rewrite select_random_span
    by (try apply settledb_settled; vm_compute; reflexivity).
  assert (select_random Math_random (u "Hello A, ") io0 = (u "Hello A, ", io0))
    as -> by (apply select_random_no_open; reflexivity).
  destruct (replace_selection_cases Math_random (span (u "Hi|Yo")) (u "Hi|Yo")
              io0) as [[Hc _]|(alt & Hin & ->)]; [discriminate|].
  rewrite select_random_no_open by reflexivity. cbn [fst].
  vm_compute in Hin. destruct Hin as [<-|[<-|[]]]; [left|right; left];
    reflexivity.
Qed.

(** * Further facts about the passes, the copy and the rows *)

(** ** Text that a global replace passes over *)

Section ReplaceOver.
Context {G St : Type}.
Variable matcher : text -> option (G * nat).
Variable fn : text -> G -> St -> text * St.

Lemma no_match_inside_spec (v rest : text) :
  no_match_inside matcher v rest = true ->
  forall i, i < length v -> matcher (drop i (v ++ rest)) = None.
Proof.
  unfold no_match_inside. rewrite forallb_forall. intros H i Hi.
  specialize (H i ltac:(apply in_seq; lia)).
  destruct (matcher (drop i (v ++ rest))); [discriminate|reflexivity].
Qed.

(** Where no match begins inside [v], the replace copies [v] and goes on
    with what follows. *)
Lemma replace_all_over (v rest : text) (st : St) :
  (forall i, i < length v -> matcher (drop i (v ++ rest)) = None) ->
  replace_all matcher fn (v ++ rest) st
  = let '(o, st1) := replace_all matcher fn rest st in (v ++ o, st1).
Proof.
  induction v as [|c v IH]; intros H.
  - cbn [app]. destruct (replace_all matcher fn rest st); reflexivity.
  - cbn [app]. rewrite replace_all_no_match by exact (H 0 ltac:(cbn; lia)).
    rewrite IH by (intros i Hi; exact (H (S i) ltac:(cbn; lia))).
    destruct (replace_all matcher fn rest st); reflexivity.
Qed.

(** A stretch of text that no match overlaps: what precedes and what
    follows it is replaced on its own. *)
Lemma replace_all_around (pre v post : text) (st : St) :
  prefix_stable matcher ->
  settled matcher pre (v ++ post) ->
  (forall i, i < length v -> matcher (drop i (v ++ post)) = None) ->
  replace_all matcher fn (pre ++ v ++ post) st
  = let '(o1, st1) := replace_all matcher fn pre st in
    let '(o2, st2) := replace_all matcher fn post st1 in
    (o1 ++ v ++ o2, st2).
Proof.
  intros Hstable Hset Hv. rewrite replace_all_app by assumption.
  destruct (replace_all matcher fn pre st) as [o1 st1].
  rewrite replace_all_over by exact Hv.
  destruct (replace_all matcher fn post st1) as [o2 st2]. reflexivity.
Qed.
End ReplaceOver.

(** ** Brackets that open no span *)

Lemma no_close_head (c : N) (body r : text) :
  has_close ((c :: body) ++ [RBRACK]) = false ->
  has_close (body ++ [RBRACK]) = false
  /\ strip_prefix [RBRACK; RBRACK] (c :: body ++ [RBRACK; RBRACK] ++ r) = None.
Proof.
  intros H. cbn [app has_close] in H.
  destruct (body ++ [RBRACK]) as [|b t] eqn:E; [destruct body; discriminate|].
  apply orb_false_iff in H as [Hcb Hh]. split; [exact Hh|].
  cbn [strip_prefix].
  destruct (N.eqb_spec RBRACK c) as [<-|]; [|reflexivity].
  assert (exists t', body ++ [RBRACK; RBRACK] ++ r = b :: t') as [t' ->].
  { destruct body as [|b' body']; simpl in *; injection E as <- _; eauto. }
  rewrite N.eqb_refl in Hcb. cbn [andb] in Hcb.
  rewrite N.eqb_sym, Hcb. reflexivity.
Qed.

(** A line terminator before the first closing pair: the lazy dots cannot
    reach the pair. *)
Lemma lazy_dots_broken (body r : text) :
  has_close (body ++ [RBRACK]) = false ->
  forallb is_dot body = false ->
  lazy_dots (body ++ [RBRACK; RBRACK] ++ r) = None.
Proof.
  induction body as [|c body IH]; intros Hclose Hdots; [discriminate|].
  apply (no_close_head c body r) in Hclose as [Hclose Hstrip].
  change ((c :: body) ++ [RBRACK; RBRACK] ++ r)
    with (c :: body ++ [RBRACK; RBRACK] ++ r).
  cbn [lazy_dots]. rewrite Hstrip.
  cbn [forallb] in Hdots. destruct (is_dot c); [|reflexivity].
  cbn [andb] in Hdots. rewrite (IH Hclose Hdots). reflexivity.
Qed.

Lemma match_span_broken (body r : text) :
  has_close (body ++ [RBRACK]) = false ->
  forallb is_dot body = false ->
  match_span (span body ++ r) = None.
Proof.
  intros Hclose Hdots. unfold match_span, span.
  rewrite <- !app_assoc. rewrite strip_prefix_app.
  change ([RBRACK; RBRACK] ++ r) with ([RBRACK; RBRACK] ++ r).
  rewrite (lazy_dots_broken body r Hclose Hdots). reflexivity.
Qed.

Lemma span_body_split (body : text) :
  span_body body = true <->
  has_close (body ++ [RBRACK]) = false /\ forallb is_dot body = true.
Proof.
  unfold span_body. rewrite andb_true_iff, negb_true_iff. tauto.
Qed.

Lemma has_open_snoc (l : text) (x : N) :
  has_open l = false -> x <> LBRACK -> has_open (l ++ [x]) = false.
Proof.
  intros Hl Hx. induction l as [|a l IH]; [reflexivity|].
  destruct l as [|b l].
  - cbn. apply orb_false_iff. split; [|reflexivity].
    apply andb_false_iff. right. apply N.eqb_neq. exact Hx.
  - cbn [app has_open] in *. apply orb_false_iff in Hl as [Hab Hl].
    apply orb_false_iff. split; [exact Hab|]. apply IH. exact Hl.
Qed.

(** In a text without two opening brackets in a row that does not end in
    an opening bracket, no span begins, whatever follows. *)
Lemma no_open_no_match (l post : text) :
  has_open l = false -> List.last l 0%N <> LBRACK ->
  forall i, i < length l -> match_span (drop i (l ++ post)) = None.
Proof.
  induction l as [|c l IH]; intros Hopen Hlast i Hi; [cbn in Hi; lia|].
  destruct i as [|i].
  - unfold match_span. cbn [drop app strip_prefix].
    destruct l as [|d l].
    + cbn in Hlast. rewrite (proj2 (N.eqb_neq LBRACK c)) by congruence.
      reflexivity.
    + cbn [has_open] in Hopen. apply orb_false_iff in Hopen as [Hcd _].
      cbn [app]. rewrite (N.eqb_sym LBRACK c), (N.eqb_sym LBRACK d).
      destruct (c =? LBRACK)%N; [|reflexivity].
      destruct (d =? LBRACK)%N; [discriminate|reflexivity].
  - cbn [drop app]. cbn [length] in Hi. apply IH; [|  |lia].
    + eapply has_open_tail, Hopen.
    + destruct l; [cbn in Hi; lia|exact Hlast].
Qed.

Section BrokenSpans.
Variable Math_random : nat -> unit_interval.

(** The selection pass at a pair of opening brackets whose closing pair
    lies behind a line terminator: the first bracket is copied and the scan
    goes on with the second. *)
Lemma select_random_broken (pre body post : text) (io : IO) :
  settled match_span pre (span body ++ post) ->
  has_close (body ++ [RBRACK]) = false ->
  forallb is_dot body = false ->
  select_random Math_random (pre ++ span body ++ post) io
  = let '(o1, io1) := select_random Math_random pre io in
    let '(o2, io2) :=
      select_random Math_random (LBRACK :: body ++ [RBRACK; RBRACK] ++ post)
        io1 in
    (o1 ++ LBRACK :: o2, io2).
Proof.
  intros Hset Hclose Hdots. unfold select_random.
  rewrite replace_all_app by (apply match_span_stable || exact Hset).
  destruct (replace_all match_span _ pre io) as [o1 io1].
  pose proof (match_span_broken body post Hclose Hdots) as Hm.
  unfold span in *. rewrite <- !app_assoc in *. cbn [app] in *.
  rewrite (replace_all_no_match _ _ _ _ _ Hm).
  destruct (replace_all match_span _ _ io1) as [o2 io2]. reflexivity.
Qed.

(** Brackets without two opening brackets in a row between them stay. *)
Lemma select_random_keeps_brackets (body post : text) (io : IO) :
  has_open (LBRACK :: body) = false ->
  select_random Math_random (LBRACK :: body ++ [RBRACK; RBRACK] ++ post) io
  = let '(o2, io2) := select_random Math_random post io in
    (LBRACK :: body ++ [RBRACK; RBRACK] ++ o2, io2).
Proof.
  intros Hopen. unfold select_random.
  pose proof (replace_all_over match_span (replace_selection Math_random)
                ((LBRACK :: body) ++ [RBRACK; RBRACK]) post io) as E.
  rewrite <- !app_assoc in E. cbn [app] in E |- *. rewrite E.
  - destruct (replace_all match_span _ post io) as [o2 io2].
    rewrite <- app_assoc. reflexivity.
  - intros i Hi.
    pose proof (no_open_no_match (((LBRACK :: body) ++ [RBRACK]) ++ [RBRACK])
                  post) as H.
    rewrite <- !app_assoc in H. cbn [app] in H. apply H.
    + change (LBRACK :: body ++ [RBRACK; RBRACK])
        with ((LBRACK :: body) ++ [RBRACK] ++ [RBRACK]).
      rewrite app_assoc.
      apply has_open_snoc; [apply has_open_snoc|]; try discriminate.
      exact Hopen.
    + replace (LBRACK :: body ++ [RBRACK; RBRACK])
        with ((LBRACK :: body ++ [RBRACK]) ++ [RBRACK])
        by (cbn [app]; rewrite <- app_assoc; reflexivity).
      rewrite last_last. discriminate.
    + cbn [app length] in Hi |- *. exact Hi.
Qed.

(** An inserted stretch that no span overlaps stays, and the spans before
    and behind it are resolved on their own. *)
Lemma select_random_around (pre v post : text) (io : IO) :
  settled match_span pre (v ++ post) ->
  no_match_inside match_span v post = true ->
  select_random Math_random (pre ++ v ++ post) io
  = let '(o1, io1) := select_random Math_random pre io in
    let '(o2, io2) := select_random Math_random post io1 in
    (o1 ++ v ++ o2, io2).
Proof.
  intros Hset Hv. unfold select_random.
  apply replace_all_around;
    [apply match_span_stable|exact Hset|apply no_match_inside_spec, Hv].
Qed.
End BrokenSpans.
(** Where the copy step of [buildWebsite] succeeds, the path of the website
    holds the copy of the template as it was after the first two steps. *)
Lemma materialize_places_copy (domain : text)
    (templatePath outputPath websitePath : path) (w w' : World) :
  websitePath <> [] ->
  materialize domain templatePath outputPath websitePath w = (Ok tt, w') ->
  exists root1 template,
    mkdirs outputPath (fs w) = Some root1
    /\ lookup_path templatePath (remove_path websitePath root1) = Some template
    /\ lookup_path websitePath (fs w')
       = Some (rename (List.last websitePath [])
                 (copy_entry (copy_filter templatePath) templatePath template)).
Proof.
  intros Hsite.
  unfold materialize, bind, console_out, fs_ensureDir, fs_remove, fs_copy,
    lift_fs.
  cbn [fs io].
  destruct (mkdirs outputPath (fs w)) as [root1|]; [|discriminate].
  cbn [fs io].
  destruct (copy_tree templatePath websitePath (copy_filter templatePath)
              (remove_path websitePath root1)) as [root2|e] eqn:Ecopy;
    [|discriminate].
  intros [= <-]. cbn [fs].
  destruct (lookup_path templatePath (remove_path websitePath root1))
    as [template|] eqn:El.
  - exists root1, template. split; [reflexivity|]. split; [exact El|].
    eapply copy_tree_places_copy; try eassumption. apply copy_filter_root.
  - unfold copy_tree in Ecopy. rewrite El in Ecopy. discriminate.
Qed.


(** What stands in the copy of the template, by the first component of
    the path. *)
Lemma lookup_in_copy (templatePath : path) (name first : text) (rest : path)
    (template : entry) :
  lookup_path (first :: rest)
    (rename name (copy_entry (copy_filter templatePath) templatePath template))
  = if excluded_from_copy first then None
    else lookup_path (first :: rest) template.
Proof.
  destruct template as [n c | n items | n].
  - cbn. destruct (excluded_from_copy first); reflexivity.
  - rewrite copy_entry_template. cbn [rename lookup_path].
    rewrite (find_entry_filter_name (fun n => negb (excluded_from_copy n))).
    destruct (excluded_from_copy first); reflexivity.
  - cbn. destruct (excluded_from_copy first); reflexivity.
Qed.

(** ** The result of a row *)

Section RowFacts.
Variable Math_random : nat -> unit_interval.
Variable JSON_parse : text -> option json.
Variable JSON_stringify : json -> text.
Variable unicode_lower : text -> text.
Variable execSync : text -> path -> entry -> outcome text * entry.

Abbreviation buildWebsite_ :=
  (buildWebsite Math_random JSON_parse JSON_stringify unicode_lower execSync).
Abbreviation build_steps_ :=
  (build_steps Math_random JSON_parse JSON_stringify unicode_lower execSync).

(** The result of [buildWebsite] and the world it leaves, by the outcome
    of the steps of its [try]. *)
Lemma buildWebsite_caught (domain : text) (data : gmap text text)
    (templatePath outputPath : path) (w w1 : World) (result : build_result) :
  buildWebsite_ (Some domain) data templatePath outputPath w = (Ok result, w1) ->
  (forall r w3,
     build_steps_ domain data templatePath outputPath
       (path_join outputPath domain) w = (Ok r, w3) ->
     result = Succeeded domain (path_join outputPath domain) /\ w1 = w3)
  /\ (forall e w3,
        build_steps_ domain data templatePath outputPath
          (path_join outputPath domain) w = (Thrown e, w3) ->
        result = Failed domain (message e)
        /\ w1 = mkWorld (fs w3)
                  (emit (ErrorBuildFailed domain (message e)) (io w3))).
Proof.
  unfold buildWebsite, try_catch. intros Hrun.
  destruct (build_steps_ domain data templatePath outputPath
              (path_join outputPath domain) w) as [[r|e] w3] eqn:E.
  - pose proof (build_steps_result _ _ _ _ _ _ _ _ _ _ _ _ _ E) as Hr.
    split; [|discriminate].
    intros r0 w4 [= <- <-]. split; congruence.
  - split; [discriminate|].
    intros e0 w4 [= <- <-].
    unfold build_failed, bind, console_out, ret in Hrun.
    injection Hrun as <- <-. split; reflexivity.
Qed.

(** The steps of the [try] fail with the error of the first stage that
    fails. *)
Lemma build_steps_stage (domain : text) (data : gmap text text)
    (templatePath outputPath websitePath : path) (w w3 : World) (e : error) :
  (materialize domain templatePath outputPath websitePath w = (Thrown e, w3)
   \/ (exists wa,
         materialize domain templatePath outputPath websitePath w = (Ok tt, wa)
         /\ processDirectory Math_random websitePath data default_extensions wa
            = (Thrown e, w3))
   \/ (exists wa r wb,
         materialize domain templatePath outputPath websitePath w = (Ok tt, wa)
         /\ processDirectory Math_random websitePath data default_extensions wa
            = (Ok r, wb)
         /\ updatePackageJson JSON_parse JSON_stringify unicode_lower domain
              websitePath wb = (Thrown e, w3))
   \/ (exists wa r wb wc,
         materialize domain templatePath outputPath websitePath w = (Ok tt, wa)
         /\ processDirectory Math_random websitePath data default_extensions wa
            = (Ok r, wb)
         /\ updatePackageJson JSON_parse JSON_stringify unicode_lower domain
              websitePath wb = (Ok tt, wc)
         /\ install_and_build execSync domain websitePath wc = (Thrown e, w3)))
  <-> build_steps_ domain data templatePath outputPath websitePath w
      = (Thrown e, w3).
Proof.
  unfold build_steps. split.
  - intros [H|[(wa & H1 & H)|[(wa & r & wb & H1 & H2 & H)
                              |(wa & r & wb & wc & H1 & H2 & H3 & H)]]].
    + rewrite (bind_thrown _ _ _ _ _ H). reflexivity.
    + rewrite (bind_run _ _ _ _ _ H1), (bind_thrown _ _ _ _ _ H).
      reflexivity.
    + rewrite (bind_run _ _ _ _ _ H1), (bind_run _ _ _ _ _ H2),
        (bind_thrown _ _ _ _ _ H). reflexivity.
    + rewrite (bind_run _ _ _ _ _ H1), (bind_run _ _ _ _ _ H2),
        (bind_run _ _ _ _ _ H3). exact H.
  - intros H. unfold bind in H.
    destruct (materialize domain templatePath outputPath websitePath w)
      as [[[]|e1] wa]; [|left; injection H as -> ->; reflexivity]. right.
    destruct (processDirectory Math_random websitePath data
                default_extensions wa) as [[r|e2] wb] eqn:E2;
      [|left; exists wa; split; [reflexivity|];
        injection H as -> ->; exact E2].
    right.
    destruct (updatePackageJson JSON_parse JSON_stringify unicode_lower
                domain websitePath wb) as [[[]|e3] wc] eqn:E3.
    + right. exists wa, r, wb, wc. auto.
    + left. exists wa, r, wb. injection H as -> ->. auto.
Qed.
End RowFacts.

(** * The claims *)

(** ** C1: the variable pass *)

(** C1, as amended.  Wherever a double-brace token [{{ key }}] occurs in a
    text, the variable pass treats what precedes and what follows it on
    their own, and
    - if [key] is a field of the row with value [v], the token is replaced
      by [v], escaped by [escapeForJS] when the file path ends in [.js] or
      [.jsx] and literally otherwise, and nothing is written to the console
      for it;
    - if [key] is neither a field of the row nor the name of a property
      that the row object inherits, the token is left as it is and one
      warning naming [key] is written to the console. *)
Theorem variable_pass_at_token (data : gmap text text)
    (filePath pre ws1 key ws2 post : text) (io : IO) :
  is_blank ws1 = true -> is_identifier key = true -> is_blank ws2 = true ->
  let before := substitute_variables data filePath pre io in
  (forall v, data !! key = Some v ->
     let after := substitute_variables data filePath post (snd before) in
     substitute_variables data filePath (pre ++ token ws1 key ws2 ++ post) io
     = (fst before
          ++ (if is_js_file filePath then escapeForJS v else v)
          ++ fst after,
        snd after))
  /\ (data !! key = None -> assoc key Object_prototype = None ->
      let after :=
        substitute_variables data filePath post
          (emit (WarnVariableNotFound key) (snd before)) in
      substitute_variables data filePath (pre ++ token ws1 key ws2 ++ post) io
      = (fst before ++ token ws1 key ws2 ++ fst after, snd after)).
Proof.
  intros H1 Hk H2 before.
  pose proof (substitute_variables_token data filePath pre ws1 key ws2 post io
                H1 Hk H2) as E.
  fold before in E. destruct before as [o1 io1]. cbn [fst snd].
  unfold replace_variable, get_property in E.
  split.
  - intros v Hv. rewrite Hv in E. cbv zeta.
    destruct (substitute_variables data filePath post io1) as [o2 io2].
    exact E.
  - intros Hn Hp. rewrite Hn, Hp in E. cbv zeta.
    destruct (substitute_variables data filePath post _) as [o2 io2].
    exact E.
Qed.

Lemma variable_pass_at_token_witness :
  is_blank (u " ") = true /\ is_identifier (u "title") = true
  /\ is_blank [] = true
  /\ substitute_variables sample_row (u "index.html")
       (u "<h1>{{ title}}</h1> {{missing}}") io0
     = (u "<h1>A</h1> {{missing}}",
        mkIO [WarnVariableNotFound (u "missing")] 0).
Proof.
  split; [reflexivity|]. split; [reflexivity|]. split; [reflexivity|].
  destruct (variable_pass_at_token sample_row (u "index.html") (u "<h1>")
              (u " ") (u "title") [] (u "</h1> {{missing}}") io0
              eq_refl eq_refl eq_refl) as [H _].
  specialize (H (u "A") ltac:(vm_compute; reflexivity)).
  vm_compute in H |- *. exact H.
Defined.

(** C1 fails as stated on two inputs.  [constructor] is not a field of the
    sample row, yet the token [{{constructor}}] is replaced, by the text of
    the function the row object inherits under that name, and no warning is
    written.  And in a [.js] file the value [it's] is not inserted
    literally. *)
Lemma variable_pass_counterexample :
  (sample_row !! u "constructor" = None
   /\ substitute_variables sample_row [] (u "{{constructor}}") io0
      = (u "function Object() { [native code] }", io0)
   /\ u "function Object() { [native code] }" <> u "{{constructor}}")
  /\ (row_of [("title", "it's")]%string !! u "title" = Some (u "it's")
      /\ substitute_variables (row_of [("title", "it's")]%string) (u "App.js")
           (u "{{title}}") io0
         = (u "it\'s", io0)
      /\ u "it\'s" <> u "it's").
Proof. vm_compute. repeat split; discriminate. Qed.

(** ** C2: escaping in script files *)

(** C2, at the failing input.  [escapeForJS] copies a backslash as it is.
    The value [\';alert(1)//], substituted into [title: '{{ title }}',] of a
    [.js] file, becomes [\\';alert(1)//]: inside the quotes the two
    backslashes form one escape, the quote that follows closes the literal,
    and the rest of the value is read as code.  A value that ends in a
    backslash leaves the literal open. *)
Theorem escapeForJS_leaves_backslash :
  (forall value, escapeForJS (BACKSLASH :: value)
                 = BACKSLASH :: escapeForJS value)
  /\ escapeForJS hostile_title = u "\\';alert(1)//"
  /\ processTemplate first_choice (u "title: '{{ title }}',")
       (with_title hostile_title)
       (u "src/stores/websiteStore.js") io0
     = (u "title: '\\';alert(1)//',", io0)
  /\ string_literal_rest SQUOTE (escapeForJS hostile_title ++ u "',")
     = Some (u ";alert(1)//',")
  /\ string_literal_rest SQUOTE (escapeForJS (u "A\") ++ u "',") = None.
Proof.
  split.
  - intros value. change (BACKSLASH :: value) with ([BACKSLASH] ++ value).
    rewrite escapeForJS_app. reflexivity.
  - vm_compute. repeat split.
Qed.

(** ** C3: the random-selection pass *)

(** C3, as amended.  Wherever the scan of the selection pass reaches a
    pair of opening brackets that a closing pair follows (the body is the
    text up to the first closing pair), what precedes the brackets is
    processed on its own.  If the body is written on one line (it holds no
    line terminator), what follows the span is processed on its own, and
    - if the body has at least one non-empty trimmed alternative, the span
      is replaced by one of them and one random number is drawn;
    - otherwise the span stays as it is and one warning is written.
    If the body holds a line terminator, the brackets open no span: no
    warning is written for them, the first bracket is copied and the scan
    goes on with the second, so that a span that begins behind it is
    resolved like any other; where no two opening brackets stand in a row
    from there to the closing pair, brackets and body stay as they are and
    what follows them is processed on its own. *)
Theorem selection_pass_at_span (Math_random : nat -> unit_interval)
    (pre body post : text) (io : IO) :
  settledb match_span pre (span body ++ post) = true ->
  has_close (body ++ [RBRACK]) = false ->
  let before := select_random Math_random pre io in
  (forallb is_dot body = true ->
   (choices_of body <> [] ->
    exists alt, In alt (choices_of body) /\
      let after := select_random Math_random post (tick (snd before)) in
      select_random Math_random (pre ++ span body ++ post) io
      = (fst before ++ alt ++ fst after, snd after))
   /\ (choices_of body = [] ->
       let after :=
         select_random Math_random post
           (emit (WarnNoValidOptions (span body)) (snd before)) in
       select_random Math_random (pre ++ span body ++ post) io
       = (fst before ++ span body ++ fst after, snd after)))
  /\ (forallb is_dot body = false ->
      (let behind :=
         select_random Math_random
           (LBRACK :: body ++ [RBRACK; RBRACK] ++ post) (snd before) in
       select_random Math_random (pre ++ span body ++ post) io
       = (fst before ++ LBRACK :: fst behind, snd behind))
      /\ (has_open (LBRACK :: body) = false ->
          let after := select_random Math_random post (snd before) in
          select_random Math_random (pre ++ span body ++ post) io
          = (fst before ++ span body ++ fst after, snd after))).
Proof.
  intros Hs%settledb_settled Hclose before. split.
  - intros Hdots.
    assert (Hb : span_body body = true) by (apply span_body_split; auto).
    pose proof (select_random_span Math_random pre body post io Hs Hb) as E.
    fold before in E. destruct before as [o1 io1]. cbn [fst snd].
    destruct (replace_selection_cases Math_random (span body) body io1)
      as [[Hc Hr]|(alt & Hin & Hr)]; rewrite Hr in E.
    + split; [congruence|]. intros _. cbv zeta.
      destruct (select_random Math_random post _) as [o2 io2]. exact E.
    + split.
      * intros _. exists alt. split; [exact Hin|]. cbv zeta.
        destruct (select_random Math_random post _) as [o2 io2]. exact E.
      * intros Hc. rewrite Hc in Hin. destruct Hin.
  - intros Hdots.
    pose proof (select_random_broken Math_random pre body post io Hs Hclose
                  Hdots) as E.
    fold before in E. destruct before as [o1 io1]. cbn [fst snd].
    split.
    + cbv zeta.
      destruct (select_random Math_random
                  (LBRACK :: body ++ [RBRACK; RBRACK] ++ post) io1)
        as [o2 io2]. exact E.
    + intros Hopen. cbv zeta.
      rewrite (select_random_keeps_brackets Math_random body post io1 Hopen)
        in E.
      destruct (select_random Math_random post io1) as [o2 io2].
      rewrite E. unfold span. cbn [app fst snd].
      rewrite <- ?app_assoc. reflexivity.
Qed.

Lemma selection_pass_at_span_witness :
  (settledb match_span (u "<h1>[[ Quick | Fast ]] [[|]]")
     (span (u " delivery | service ") ++ u "</h1>") = true
   /\ has_close (u " delivery | service " ++ [RBRACK]) = false
   /\ forallb is_dot (u " delivery | service ") = true
   /\ exists alt, In alt [u "delivery"; u "service"]
      /\ select_random last_choice
           (u "<h1>[[ Quick | Fast ]] [[|]][[ delivery | service ]]</h1>") io0
         = (u "<h1>Fast [[|]]" ++ alt ++ u "</h1>",
            mkIO [WarnNoValidOptions (u "[[|]]")] 2))
  /\ (let body := u " Quick |" ++ [LF] ++ u " Fast " in
      forallb is_dot body = false
      /\ has_open (LBRACK :: body) = false
      /\ select_random last_choice
           (u "<p>" ++ span body ++ u "</p>[[ a | b ]]") io0
         = (u "<p>" ++ span body ++ u "</p>b", mkIO [] 1))
  /\ (let body := u " x" ++ [LF] ++ u "[[b|c" in
      forallb is_dot body = false
      /\ select_random last_choice (span body ++ u " ]]") io0
         = (u "[[ x" ++ [LF] ++ u "c ]]", mkIO [] 1)).
Proof.
  split; [|split].
  - split; [vm_compute; reflexivity|]. split; [vm_compute; reflexivity|].
    split; [vm_compute; reflexivity|].
    destruct (selection_pass_at_span last_choice
                (u "<h1>[[ Quick | Fast ]] [[|]]") (u " delivery | service ")
                (u "</h1>") io0 ltac:(vm_compute; reflexivity)
                ltac:(vm_compute; reflexivity)) as [H _].
    destruct (H ltac:(vm_compute; reflexivity)) as [H1 _].
    destruct (H1 ltac:(vm_compute; discriminate)) as (alt & Hin & E).
    exists alt. split; [exact Hin|].
    etransitivity; [exact E|]. vm_compute. reflexivity.
  - cbv zeta. split; [vm_compute; reflexivity|].
    split; [vm_compute; reflexivity|].
    destruct (selection_pass_at_span last_choice (u "<p>")
                (u " Quick |" ++ [LF] ++ u " Fast ") (u "</p>[[ a | b ]]") io0
                ltac:(vm_compute; reflexivity)
                ltac:(vm_compute; reflexivity)) as [_ H].
    destruct (H ltac:(vm_compute; reflexivity)) as [_ H2].
    etransitivity; [exact (H2 ltac:(vm_compute; reflexivity))|].
    vm_compute. reflexivity.
  - cbv zeta. split; [vm_compute; reflexivity|].
    destruct (selection_pass_at_span last_choice []
                (u " x" ++ [LF] ++ u "[[b|c") (u " ]]") io0
                ltac:(vm_compute; reflexivity)
                ltac:(vm_compute; reflexivity)) as [_ H].
    destruct (H ltac:(vm_compute; reflexivity)) as [H1 _].
    etransitivity; [exact H1|]. vm_compute. reflexivity.
Defined.

(** C3 fails as stated on a span that runs over a line break: its two
    trimmed alternatives are [Quick] and [Fast], and the pass leaves the
    whole span in place, without a warning. *)
Lemma selection_pass_counterexample :
  let body := u " Quick |" ++ [LF] ++ u "   Fast " in
  choices_of body = [u "Quick"; u "Fast"]
  /\ select_random first_choice (span body) io0 = (span body, io0)
  /\ ~ In (span body) (choices_of body).
Proof.
  vm_compute. repeat split. intros [H|[H|[]]]; discriminate.
Qed.

(** ** C4: what a later pass sees of an earlier replacement *)

(** C4, as amended.  Within the variable pass an inserted value is not
    scanned again: whatever the value of a known field contains, double-brace
    tokens included, it stands verbatim (escaped in script files) in the
    output of that pass.  The selection pass then scans the whole output of
    the variable pass, inserted values included:
    - where no span of the selection pass overlaps the inserted value (none
      begins inside it and none that begins before it runs into it), the
      value stands verbatim in the final output, and what precedes and what
      follows it is resolved on its own;
    - a span that stands in the inserted value and that the scan reaches is
      resolved like any other: one of its alternatives takes its place, or
      it stays with a warning when it has none. *)
Theorem inserted_value_after_each_pass (Math_random : nat -> unit_interval)
    (data : gmap text text) (filePath pre ws1 key ws2 post v : text) (io : IO) :
  is_blank ws1 = true -> is_identifier key = true -> is_blank ws2 = true ->
  data !! key = Some v ->
  let before := substitute_variables data filePath pre io in
  let after := substitute_variables data filePath post (snd before) in
  let inserted := if is_js_file filePath then escapeForJS v else v in
  let pass1 := fst before ++ inserted ++ fst after in
  substitute_variables data filePath (pre ++ token ws1 key ws2 ++ post) io
  = (pass1, snd after)
  /\ processTemplate Math_random (pre ++ token ws1 key ws2 ++ post)
       data filePath io
     = select_random Math_random pass1 (snd after)
  /\ (has_open pass1 = false ->
      processTemplate Math_random (pre ++ token ws1 key ws2 ++ post)
        data filePath io
      = (pass1, snd after))
  /\ (settledb match_span (fst before) (inserted ++ fst after) = true ->
      no_match_inside match_span inserted (fst after) = true ->
      let s1 := select_random Math_random (fst before) (snd after) in
      let s2 := select_random Math_random (fst after) (snd s1) in
      processTemplate Math_random (pre ++ token ws1 key ws2 ++ post)
        data filePath io
      = (fst s1 ++ inserted ++ fst s2, snd s2))
  /\ (forall a body b,
        inserted = a ++ span body ++ b ->
        span_body body = true ->
        settledb match_span (fst before ++ a) (span body ++ b ++ fst after)
        = true ->
        let s1 := select_random Math_random (fst before ++ a) (snd after) in
        let picked :=
          replace_selection Math_random (span body) body (snd s1) in
        let s2 := select_random Math_random (b ++ fst after) (snd picked) in
        processTemplate Math_random (pre ++ token ws1 key ws2 ++ post)
          data filePath io
        = (fst s1 ++ fst picked ++ fst s2, snd s2)
        /\ (choices_of body <> [] ->
            In (fst picked) (choices_of body) /\ snd picked = tick (snd s1))
        /\ (choices_of body = [] ->
            picked
            = (span body, emit (WarnNoValidOptions (span body)) (snd s1)))).
Proof.
  intros H1 Hk H2 Hv before after inserted pass1.
  pose proof (substitute_variables_token data filePath pre ws1 key ws2 post io
                H1 Hk H2) as E.
  unfold replace_variable, get_property in E. rewrite Hv in E.
  fold before in E. destruct before as [o1 io1] eqn:Eb.
  cbn [snd] in after. fold inserted in E. fold after in E.
  destruct after as [o2 io2] eqn:Ea. cbn [fst snd] in *.
  assert (processTemplate Math_random (pre ++ token ws1 key ws2 ++ post)
            data filePath io = select_random Math_random pass1 io2) as Ep.
  { unfold processTemplate. rewrite E. reflexivity. }
  split; [exact E|]. split; [exact Ep|].
  split; [intros Hno; rewrite Ep; apply select_random_no_open, Hno|].
  split.
  - intros Hs%settledb_settled Hin. cbv zeta. rewrite Ep. unfold pass1.
    rewrite (select_random_around Math_random o1 inserted o2 io2 Hs Hin).
    destruct (select_random Math_random o1 io2) as [p1 io3]. cbn [fst snd].
    destruct (select_random Math_random o2 io3) as [p2 io4]. reflexivity.
  - intros a body b Hins Hb Hs%settledb_settled. cbv zeta. split; [|split].
    + rewrite Ep. unfold pass1. rewrite Hins.
      replace (o1 ++ (a ++ span body ++ b) ++ o2)
        with ((o1 ++ a) ++ span body ++ b ++ o2)
        by (rewrite <- !app_assoc; reflexivity).
      rewrite (select_random_span Math_random (o1 ++ a) body (b ++ o2) io2
                 Hs Hb).
      destruct (select_random Math_random (o1 ++ a) io2) as [p1 io3].
      cbn [fst snd].
      destruct (replace_selection Math_random (span body) body io3)
        as [r io4]. cbn [fst snd].
      destruct (select_random Math_random (b ++ o2) io4) as [p2 io5].
      reflexivity.
    + intros Hc.
      destruct (replace_selection_cases Math_random (span body) body
                  (snd (select_random Math_random (o1 ++ a) io2)))
        as [[Hnil _]|(alt & Hin & Hr)]; [contradiction|].
      rewrite Hr. cbn [fst snd]. auto.
    + intros Hc.
      destruct (replace_selection_cases Math_random (span body) body
                  (snd (select_random Math_random (o1 ++ a) io2)))
        as [[_ Hr]|(alt & Hin & _)]; [exact Hr|].
      rewrite Hc in Hin. destruct Hin.
Qed.

Lemma inserted_value_after_each_pass_witness :
  (is_blank [] = true /\ is_identifier (u "title") = true
   /\ with_title (u "{{phone}} & Sons") !! u "title"
      = Some (u "{{phone}} & Sons")
   /\ processTemplate first_choice (u "<b>{{title}}</b>")
        (with_title (u "{{phone}} & Sons")) (u "index.html") io0
      = (u "<b>{{phone}} & Sons</b>", io0))
  /\ (with_title (u "T&T [x]") !! u "title" = Some (u "T&T [x]")
      /\ processTemplate last_choice (u "[[a|b]] {{title}} [[c|d]]")
           (with_title (u "T&T [x]")) (u "index.html") io0
         = (u "b T&T [x] d", mkIO [] 2))
  /\ (with_title (u "x [[a|b]] y") !! u "title" = Some (u "x [[a|b]] y")
      /\ processTemplate last_choice (u "<b>{{title}}</b>")
           (with_title (u "x [[a|b]] y")) (u "index.html") io0
         = (u "<b>x b y</b>", mkIO [] 1)).
Proof.
  split; [|split].
  - split; [reflexivity|]. split; [reflexivity|].
    split; [vm_compute; reflexivity|].
    destruct (inserted_value_after_each_pass first_choice
                (with_title (u "{{phone}} & Sons"))
                (u "index.html") (u "<b>") [] (u "title") [] (u "</b>")
                (u "{{phone}} & Sons") io0 eq_refl eq_refl eq_refl
                ltac:(vm_compute; reflexivity)) as (_ & _ & H & _).
    etransitivity; [exact (H ltac:(vm_compute; reflexivity))|].
    vm_compute. reflexivity.
  - split; [vm_compute; reflexivity|].
    destruct (inserted_value_after_each_pass last_choice
                (with_title (u "T&T [x]"))
                (u "index.html") (u "[[a|b]] ") [] (u "title") []
                (u " [[c|d]]") (u "T&T [x]") io0 eq_refl eq_refl eq_refl
                ltac:(vm_compute; reflexivity)) as (_ & _ & _ & H & _).
    etransitivity;
      [exact (H ltac:(vm_compute; reflexivity)
                ltac:(vm_compute; reflexivity))|].
    vm_compute. reflexivity.
  - split; [vm_compute; reflexivity|].
    destruct (inserted_value_after_each_pass last_choice
                (with_title (u "x [[a|b]] y"))
                (u "index.html") (u "<b>") [] (u "title") [] (u "</b>")
                (u "x [[a|b]] y") io0 eq_refl eq_refl eq_refl
                ltac:(vm_compute; reflexivity)) as (_ & _ & _ & _ & H).
    destruct (H (u "x ") (u "a|b") (u " y") ltac:(vm_compute; reflexivity)
                ltac:(vm_compute; reflexivity)
                ltac:(vm_compute; reflexivity)) as (E & _).
    etransitivity; [exact E|]. vm_compute. reflexivity.
Defined.

(** C4 fails as stated: the value [[[a|b]]] of the field [title] does not
    appear in the final output; the selection pass resolves it to one of its
    alternatives. *)
Lemma inserted_span_counterexample :
  let data := with_title (u "[[a|b]]") in
  data !! u "title" = Some (u "[[a|b]]")
  /\ processTemplate first_choice (u "{{title}}") data [] io0
     = (u "a", mkIO [] 1)
  /\ processTemplate last_choice (u "{{title}}") data [] io0
     = (u "b", mkIO [] 1)
  /\ u "a" <> u "[[a|b]]" /\ u "b" <> u "[[a|b]]".
Proof. vm_compute. repeat split; discriminate. Qed.

(** ** C5: the walker and the excluded directories *)

(** C5.  Below the directory it is started in, the walker lists no file
    that lies inside a directory named [node_modules], [build], [dist] or
    [.git], at any depth and whatever the file's extension; and
    [processDirectory], however it ends, leaves the content of every such
    file as it was. *)
Theorem walker_prunes_excluded_directories
    (Math_random : nat -> unit_interval) (dirPath : path)
    (data : gmap text text) (extensions : list text) (w : World) :
  (forall files w1,
     getAllFiles dirPath extensions w = (Ok files, w1) ->
     forall p, In p files ->
     exists rel, p = dirPath ++ rel /\ through_excluded rel = false)
  /\ (forall rel,
        through_excluded rel = true ->
        read_file (dirPath ++ rel)
          (fs (snd (processDirectory Math_random dirPath data extensions w)))
        = read_file (dirPath ++ rel) (fs w)).
Proof.
  split.
  - intros files w1. unfold getAllFiles, bind, fs_readdir, ret.
    destruct (lookup_path dirPath (fs w)) as [[n c | name items | n]|];
      try discriminate.
    intros [= <- <-] p Hp. eapply traverseDirectory_paths, Hp.
  - intros rel Hrel. apply processDirectory_frame.
    intros name items _ Hin.
    apply traverseDirectory_paths in Hin as (rel' & E & Hrel').
    apply app_inv_head in E. congruence.
Qed.

Lemma walker_prunes_excluded_directories_witness :
  let inside := [u "src"; u "lib"; u "node_modules"; u "dep"; u "index.js"] in
  through_excluded inside = true
  /\ read_file (u "site" :: inside)
       (fs (snd (processDirectory first_choice [u "site"] sample_row
                   default_extensions world0)))
     = Some (u "{{title}}")
  /\ fst (getAllFiles [u "site"] default_extensions world0)
     = Ok [ [u "site"; u "package.json"]; [u "site"; u "src"; u "App.js"] ].
Proof.
  split; [reflexivity|]. split; [|vm_compute; reflexivity].
  etransitivity.
  - exact (proj2 (walker_prunes_excluded_directories first_choice [u "site"]
                    sample_row default_extensions world0)
             [u "src"; u "lib"; u "node_modules"; u "dep"; u "index.js"]
             eq_refl).
  - vm_compute. reflexivity.
Defined.

(** ** C6: what the copy of the template holds *)

(** C6, as amended.  Where the copy step of [buildWebsite] succeeds on a
    template directory, the website directory holds the items of the
    template's first level whose name does not begin with [node_modules],
    [build] or [.git], each with everything below it: the filter looks at
    the first component of the relative path only.  [dist] is not among the
    prefixes, and below an item that is kept no name is looked at, so a
    nested [node_modules], [build], [dist] or [.git] is copied. *)
Theorem materialized_copy_prunes_first_level_only
    (templatePath websitePath : path) (name : text) (items : list entry)
    (w w' : World) :
  lookup_path templatePath (fs w) = Some (Dir name items) ->
  websitePath <> [] ->
  fs_copy templatePath websitePath (copy_filter templatePath) w = (Ok tt, w') ->
  lookup_path websitePath (fs w')
  = Some (Dir (List.last websitePath [])
            (List.filter (fun e => negb (excluded_from_copy (entry_name e)))
               items))
  /\ excluded_from_copy (u "dist") = false
  /\ forall first more,
       copy_filter templatePath (templatePath ++ first :: more)
       = negb (excluded_from_copy first).
Proof.
  intros Hsrc Hdest Hcopy. split; [|split; [reflexivity|]].
  - unfold fs_copy, lift_fs in Hcopy.
    destruct (copy_tree templatePath websitePath (copy_filter templatePath)
                (fs w)) as [root'|e] eqn:E; [|discriminate].
    injection Hcopy as <-. cbn [fs].
    rewrite (copy_tree_places_copy _ _ _ _ _ _ Hsrc
               (copy_filter_root templatePath) Hdest E).
    rewrite copy_entry_template. reflexivity.
  - intros first more. apply copy_filter_below.
Qed.

Lemma materialized_copy_prunes_first_level_only_witness :
  let templatePath := [u "src"; u "template"] in
  let websitePath := [u "build"; u "good.test"] in
  let w' := snd (fs_copy templatePath websitePath (copy_filter templatePath)
                   sample_world) in
  lookup_path templatePath (fs sample_world) = Some sample_template
  /\ websitePath <> []
  /\ fs_copy templatePath websitePath (copy_filter templatePath) sample_world
     = (Ok tt, w')
  /\ List.map entry_name
       (match lookup_path websitePath (fs w') with
        | Some (Dir _ items) => items
        | _ => []
        end)
     = [u "package.json"; u "dist"; u "src"].
Proof.
  split; [reflexivity|]. split; [discriminate|].
  split; [vm_compute; reflexivity|].
  destruct (materialized_copy_prunes_first_level_only
              [u "src"; u "template"] [u "build"; u "good.test"]
              (u "template")
              (match sample_template with Dir _ items => items | _ => [] end)
              sample_world
              (snd (fs_copy [u "src"; u "template"] [u "build"; u "good.test"]
                      (copy_filter [u "src"; u "template"]) sample_world))
              eq_refl ltac:(discriminate) ltac:(vm_compute; reflexivity))
    as [H _].
  cbv zeta. rewrite H. vm_compute. reflexivity.
Defined.

(** C6 fails as stated: the materialized copy of the sample template holds
    the template's [dist] directory and the [node_modules] and [build]
    directories nested in [src]; the website built from it has them too. *)
Lemma materialized_copy_counterexample :
  let templatePath := [u "src"; u "template"] in
  let copy := copy_entry (copy_filter templatePath) templatePath sample_template in
  let built := fs (snd (sample_build [website "good.test" "G"])) in
  lookup_path [u "src"; u "node_modules"; u "local.js"] copy
  = Some (File (u "local.js") (u "{{title}}"))
  /\ lookup_path [u "src"; u "build"; u "cache.js"] copy
     = Some (File (u "cache.js") (u "{{title}}"))
  /\ lookup_path [u "dist"; u "bundle.js"] copy
     = Some (File (u "bundle.js") (u "old"))
  /\ lookup_path [u "build"; u "good.test"; u "src"; u "node_modules"; u "local.js"]
       built
     = Some (File (u "local.js") (u "{{title}}"))
  /\ lookup_path [u "build"; u "good.test"; u "dist"; u "bundle.js"] built
     = Some (File (u "bundle.js") (u "old")).
Proof. vm_compute. repeat split. Qed.

(** ** C7: one result for every row *)

(** C7.  For rows that have a domain, [buildWebsitesSequential] does not
    throw, whatever the file system, the JSON codec and the build tool do:
    it returns one result for every row, in order and under the row's
    domain.  Each row's pipeline is run once, on the world the rows before
    it have left, after which the rows behind it are run.  Whatever goes
    wrong in its steps is caught and becomes its failed result: when the
    copy, the substitution, the manifest step or the install and build
    throws an error, the row's result is the failed result that carries the
    row's domain and that error's message, and the world is the one the
    failing step has left with one error line for the row added; when all
    steps succeed the result is the success with the row's directory, on the
    world the steps have left.  The result is a success exactly when its own
    steps all succeed there. *)
Theorem row_failures_are_isolated
    (Math_random : nat -> unit_interval)
    (JSON_parse : text -> option json) (JSON_stringify : json -> text)
    (unicode_lower : text -> text)
    (execSync : text -> path -> entry -> outcome text * entry)
    (websites : list (gmap text text)) (templatePath outputPath : path)
    (w : World) :
  forallb has_domain websites = true ->
  exists results w',
    buildWebsitesSequential Math_random JSON_parse JSON_stringify unicode_lower
      execSync websites templatePath outputPath w = (Ok results, w')
    /\ List.map (fun website => website !! u "domain") websites
       = List.map (fun result => Some (result_domain result)) results
    /\ forall before website after,
         websites = before ++ website :: after ->
         exists results1 w1 result w2 results2,
           buildWebsitesSequential Math_random JSON_parse JSON_stringify
             unicode_lower execSync before templatePath outputPath w
           = (Ok results1, w1)
           /\ buildWebsite Math_random JSON_parse JSON_stringify unicode_lower
                execSync (website !! u "domain") website templatePath
                outputPath w1
              = (Ok result, w2)
           /\ buildWebsitesSequential Math_random JSON_parse JSON_stringify
                unicode_lower execSync after templatePath outputPath w2
              = (Ok results2, w')
           /\ results = results1 ++ result :: results2
           /\ forall domain,
                website !! u "domain" = Some domain ->
                let websitePath := path_join outputPath domain in
                (result = Succeeded domain websitePath
                 \/ exists e, result = Failed domain (message e))
                /\ (success result = true <->
                    exists r w3,
                      build_steps Math_random JSON_parse JSON_stringify
                        unicode_lower execSync domain website templatePath
                        outputPath websitePath w1
                      = (Ok r, w3))
                /\ (forall r w3,
                      build_steps Math_random JSON_parse JSON_stringify
                        unicode_lower execSync domain website templatePath
                        outputPath websitePath w1
                      = (Ok r, w3) ->
                      result = Succeeded domain websitePath /\ w2 = w3)
                /\ (forall e w3,
                      build_steps Math_random JSON_parse JSON_stringify
                        unicode_lower execSync domain website templatePath
                        outputPath websitePath w1
                      = (Thrown e, w3) ->
                      result = Failed domain (message e)
                      /\ w2 = mkWorld (fs w3)
                                (emit (ErrorBuildFailed domain (message e))
                                   (io w3)))
                /\ (forall e w3,
                      (materialize domain templatePath outputPath websitePath
                         w1 = (Thrown e, w3)
                       \/ (exists wa,
                             materialize domain templatePath outputPath
                               websitePath w1 = (Ok tt, wa)
                             /\ processDirectory Math_random websitePath
                                  website default_extensions wa
                                = (Thrown e, w3))
                       \/ (exists wa r wb,
                             materialize domain templatePath outputPath
                               websitePath w1 = (Ok tt, wa)
                             /\ processDirectory Math_random websitePath
                                  website default_extensions wa
                                = (Ok r, wb)
                             /\ updatePackageJson JSON_parse JSON_stringify
                                  unicode_lower domain websitePath wb
                                = (Thrown e, w3))
                       \/ (exists wa r wb wc,
                             materialize domain templatePath outputPath
                               websitePath w1 = (Ok tt, wa)
                             /\ processDirectory Math_random websitePath
                                  website default_extensions wa
                                = (Ok r, wb)
                             /\ updatePackageJson JSON_parse JSON_stringify
                                  unicode_lower domain websitePath wb
                                = (Ok tt, wc)
                             /\ install_and_build execSync domain websitePath
                                  wc = (Thrown e, w3))) ->
                      result = Failed domain (message e)
                      /\ w2 = mkWorld (fs w3)
                                (emit (ErrorBuildFailed domain (message e))
                                   (io w3))).
Proof.
  unfold buildWebsitesSequential.
  revert w; induction websites as [|x rest IH]; intros w Hdom.
  - exists [], w. split; [reflexivity|]. split; [reflexivity|].
    intros [|? ?] ? ? ?; discriminate.
  - cbn [forallb] in Hdom. apply andb_true_iff in Hdom as [Hx Hrest].
    unfold has_domain in Hx. apply bool_decide_eq_true in Hx as [d Hd].
    destruct (buildWebsite_terminal Math_random JSON_parse JSON_stringify
                unicode_lower execSync d x templatePath outputPath w)
      as (r & w1 & Hrun & Hname & Hsucc & Hshape).
    destruct (buildWebsite_caught Math_random JSON_parse JSON_stringify
                unicode_lower execSync d x templatePath outputPath w w1 r
                Hrun) as [Hok Hthrown].
    rewrite <- Hd in Hrun.
    destruct (IH w1 Hrest) as (rs & w' & Hrs & Hmap & Hsplit).
    exists (r :: rs), w'. split; [|split].
    + eapply build_each_cons; eassumption.
    + cbn [List.map]. rewrite Hd, Hname, Hmap. reflexivity.
    + intros before website after E. destruct before as [|b before].
      * injection E as <- <-.
        exists [], w, r, w1, rs.
        split; [reflexivity|]. split; [exact Hrun|]. split; [exact Hrs|].
        split; [reflexivity|].
        intros domain Hdomain. rewrite Hd in Hdomain.
        injection Hdomain as <-. cbv zeta.
        split; [exact Hshape|]. split; [exact Hsucc|].
        split; [exact Hok|]. split; [exact Hthrown|].
        intros e w3 Hstage. apply Hthrown.
        apply build_steps_stage. exact Hstage.
      * injection E as <- E.
        destruct (Hsplit before website after E)
          as (rs1 & w2 & res & w3 & rs2 & H1 & H2 & H3 & -> & H5).
        exists (r :: rs1), w2, res, w3, rs2.
        split; [eapply build_each_cons; eassumption|].
        split; [exact H2|]. split; [exact H3|]. split; [reflexivity|exact H5].
Qed.

Lemma row_failures_are_isolated_witness :
  let websites := [website "bad.test" "B"; website "good.test" "G"] in
  forallb has_domain websites = true
  /\ fst (sample_build websites)
     = Ok [ Failed (u "bad.test") (u "npm ERR! code E404");
            Succeeded (u "good.test") [u "build"; u "good.test"] ].
Proof.
  split; [vm_compute; reflexivity|].
  destruct (row_failures_are_isolated first_choice flat_parse flat_stringify
              (fun s => s) sample_npm
              [website "bad.test" "B"; website "good.test" "G"]
              [u "src"; u "template"] [u "build"] sample_world
              ltac:(vm_compute; reflexivity))
    as (results & w' & Hrun & _).
  unfold sample_build. rewrite Hrun. cbn [fst].
  vm_compute in Hrun. injection Hrun as <- _. reflexivity.
Defined.

(** ** C8: the manifest *)

(** C8, as amended.  In [buildWebsite] the manifest is handled on the world
    that [processDirectory] leaves, and not at all when the substitution
    throws.  When there is no [package.json] in the website directory the
    step does nothing and succeeds.  When there is one and it parses to an
    object, the file is rewritten with the member [name] set to the domain
    with every dot replaced by a hyphen and then lower-cased (no other code
    unit is replaced) and the member [homepage] set to [https://] followed
    by the domain. *)
Theorem manifest_is_rewritten_after_substitution
    (Math_random : nat -> unit_interval)
    (JSON_parse : text -> option json) (JSON_stringify : json -> text)
    (unicode_lower : text -> text)
    (execSync : text -> path -> entry -> outcome text * entry)
    (domain : text) (data : gmap text text) (templatePath outputPath : path) :
  let websitePath := path_join outputPath domain in
  let manifest := path_join websitePath (u "package.json") in
  let finalize :=
    updatePackageJson JSON_parse JSON_stringify unicode_lower domain
      websitePath in
  (forall w w1 w2 r,
     materialize domain templatePath outputPath websitePath w = (Ok tt, w1) ->
     processDirectory Math_random websitePath data default_extensions w1
     = (r, w2) ->
     buildWebsite Math_random JSON_parse JSON_stringify unicode_lower execSync
       (Some domain) data templatePath outputPath w
     = match r with
       | Ok _ =>
           try_catch (finalize ;; install_and_build execSync domain websitePath)
             (build_failed domain) w2
       | Thrown e => build_failed domain e w2
       end)
  /\ (forall w2, lookup_path manifest (fs w2) = None -> finalize w2 = (Ok tt, w2))
  /\ (forall w2 content members,
        read_file manifest (fs w2) = Some content ->
        JSON_parse content = Some (JObject members) ->
        let name := toLowerCase unicode_lower (replace_char DOT [45%N] domain) in
        let rewritten :=
          JObject (set_member (u "homepage") (JString (u "https://" ++ domain))
                     (set_member (u "name") (JString name) members)) in
        exists root',
          overwrite_file manifest (JSON_stringify rewritten ++ [LF]) (fs w2)
          = Some root'
          /\ finalize w2 = (Ok tt, mkWorld root' (io w2)))
  /\ (forallb (fun c => (c <? 128)%N) domain = true ->
      package_name unicode_lower domain
      = List.map ascii_lower (replace_char DOT [45%N] domain)).
Proof.
  intros websitePath manifest finalize. split; [|split; [|split]].
  - intros w w1 w2 r Hmat Hproc.
    unfold buildWebsite, build_steps, try_catch. fold websitePath.
    rewrite (bind_run _ _ _ _ _ Hmat).
    unfold bind at 1. rewrite Hproc. destruct r as [v|e]; reflexivity.
  - intros w2 Hnone. unfold finalize, updatePackageJson, bind, fs_pathExists.
    fold websitePath. fold manifest. rewrite Hnone.
    rewrite bool_decide_eq_false_2 by (intros [? ?]; discriminate).
    reflexivity.
  - intros w2 content members Hread Hparse name rewritten.
    destruct (overwrite_file_defined manifest content
                (JSON_stringify rewritten ++ [LF]) (fs w2) Hread)
      as [root' Hw].
    exists root'. split; [exact Hw|].
    unfold finalize, updatePackageJson, bind, fs_pathExists, fs_readJson, bind,
      fs_readFile, fs_writeJson, fs_writeFile, ret.
    cbv zeta. fold websitePath. fold manifest.
    unfold read_file in Hread.
    destruct (lookup_path manifest (fs w2)) as [[n c | |]|] eqn:Hl;
      try discriminate.
    injection Hread as ->.
    rewrite bool_decide_eq_true_2 by eauto.
    cbv beta. rewrite Hl, Hparse. cbn [assign]. unfold package_name, homepage.
    fold name. fold rewritten. rewrite Hw. reflexivity.
  - intros Hascii. unfold package_name, toLowerCase.
    assert (forallb (fun c : N => (c <? 128)%N)
              (replace_char DOT [45%N] domain) = true) as ->; [|reflexivity].
    unfold replace_char. induction domain as [|c s IH]; [reflexivity|].
    cbn [forallb flat_map] in *. apply andb_true_iff in Hascii as [Hc Hs].
    rewrite forallb_app, (IH Hs), andb_true_r.
    destruct (c =? DOT)%N; [reflexivity|]. cbn [forallb]. rewrite Hc.
    reflexivity.
Qed.

Lemma manifest_is_rewritten_after_substitution_witness :
  let manifest := [u "build"; u "Good.Test"; u "package.json"] in
  read_file manifest (fs staged_world) = Some package_json_template
  /\ flat_parse package_json_template
     = Some (JObject [ (u "name", JString (u "template"));
                       (u "description", JString (u "{{ description }}")) ])
  /\ exists root',
       updatePackageJson flat_parse flat_stringify (fun s => s)
         (u "Good.Test") [u "build"; u "Good.Test"] staged_world
       = (Ok tt, mkWorld root' io0)
       /\ read_file manifest root'
          = Some (flat_stringify
                    (JObject [ (u "name", JString (u "good-test"));
                               (u "description", JString (u "{{ description }}"));
                               (u "homepage", JString (u "https://Good.Test")) ])
                  ++ [LF]).
Proof.
  split; [vm_compute; reflexivity|]. split; [vm_compute; reflexivity|].
  destruct (manifest_is_rewritten_after_substitution first_choice flat_parse
              flat_stringify (fun s => s) sample_npm (u "Good.Test") sample_row
              [u "src"; u "template"] [u "build"]) as (_ & _ & H & _).
  destruct (H staged_world package_json_template
              [ (u "name", JString (u "template"));
                (u "description", JString (u "{{ description }}")) ]
              ltac:(vm_compute; reflexivity) ltac:(vm_compute; reflexivity))
    as (root' & Hw & Hrun).
  exists root'. split.
  - etransitivity; [|exact Hrun]. reflexivity.
  - etransitivity; [exact (read_after_overwrite _ _ _ _ Hw)|].
    vm_compute. reflexivity.
Defined.

(** C8 fails as stated: only dots are replaced.  The underscore, the space
    and the slash of a domain stay in the package name, which is then not
    made of lower-case letters, digits and hyphens alone; the same name is
    what a build writes into the manifest. *)
Lemma package_name_counterexample :
  package_name (fun s => s) (u "Big_Shop.Example.com")
  = u "big_shop-example-com"
  /\ is_slug (u "big_shop-example-com") = false
  /\ package_name (fun s => s) (u "a b/c.com") = u "a b/c-com"
  /\ is_slug (u "a b/c-com") = false
  /\ read_file [u "build"; u "big_shop.test"; u "package.json"]
       (fs (snd (sample_build [website "big_shop.test" "S"])))
     = Some (flat_stringify
               (JObject [ (u "name", JString (u "big_shop-test"));
                          (u "description", JString (u "d"));
                          (u "homepage", JString (u "https://big_shop.test")) ])
             ++ [LF]).
Proof. vm_compute. repeat split. Qed.

(** ** C9: what [processDirectory] gives back *)

(** C9, as amended.  [processDirectory] resolves to [undefined], not to a
    count.  On a tree in which no directory holds two items of one name,
    started in a directory, it does not throw; it passes through the
    substitution engine and rewrites in place exactly the files the walker
    lists, whose number is the number of files below the directory,
    excluded directories pruned, with an extension in the set; that number
    is what it writes to the console before and after. *)
Theorem processDirectory_logs_the_count
    (Math_random : nat -> unit_interval) (dirPath : path)
    (data : gmap text text) (extensions : list text) (w : World)
    (name : text) (items : list entry) :
  unique_names (fs w) = true ->
  lookup_path dirPath (fs w) = Some (Dir name items) ->
  let files := traverseDirectory extensions dirPath items in
  let count := list_sum (List.map (matching_files extensions) items) in
  exists w' warnings,
    processDirectory Math_random dirPath data extensions w = (Ok undefined, w')
    /\ length files = count
    /\ console (io w')
       = console (io w)
         ++ LogProcessingFiles count :: warnings ++ [LogProcessedFiles count]
    /\ (forall p, In p files ->
        exists content io_p,
          read_file p (fs w) = Some content
          /\ read_file p (fs w')
             = Some (fst (processTemplate Math_random content data
                            (render p) io_p)))
    /\ (forall q, ~ In q files -> read_file q (fs w') = read_file q (fs w)).
Proof.
  intros Hwf Hdir files count.
  assert (length files = count) as Hlen by apply traverseDirectory_length.
  set (w1 := mkWorld (fs w) (emit (LogProcessingFiles (length files)) (io w))).
  destruct (for_of_processFile_readable Math_random files data w1)
    as (w2 & Hrun & Hall).
  { apply (traverseDirectory_readable extensions dirPath (fs w) name items Hwf Hdir). }
  { apply (traverseDirectory_NoDup extensions dirPath name items).
    apply (unique_names_lookup _ _ _ Hwf Hdir). }
  pose proof (for_of_processFile_effect Math_random files data w1)
    as [[mid Hmid] Hkeep].
  rewrite Hrun in Hmid, Hkeep. cbn [snd] in Hmid, Hkeep.
  exists (mkWorld (fs w2) (emit (LogProcessedFiles (length files)) (io w2))), mid.
  split; [|split; [exact Hlen|split; [|split]]].
  - unfold processDirectory, getAllFiles.
    unfold try_catch, bind, fs_readdir, ret, console_out.
    rewrite Hdir. fold files. fold w1. rewrite Hrun. reflexivity.
  - cbn [io console emit]. rewrite Hmid. cbn [io console emit w1].
    rewrite Hlen, <- !app_assoc. reflexivity.
  - exact Hall.
  - exact Hkeep.
Qed.

Lemma processDirectory_logs_the_count_witness :
  unique_names (fs world0) = true
  /\ lookup_path [u "site"] (fs world0) = Some (Dir (u "site") sample_site)
  /\ exists w',
       processDirectory first_choice [u "site"] sample_row default_extensions
         world0 = (Ok undefined, w')
       /\ console (io w')
          = [LogProcessingFiles 2; LogProcessedFiles 2]
       /\ read_file [u "site"; u "src"; u "App.js"] (fs w') = Some (u "'A' x").
Proof.
  split; [vm_compute; reflexivity|]. split; [reflexivity|].
  destruct (processDirectory_logs_the_count first_choice [u "site"] sample_row
              default_extensions world0 (u "site") sample_site
              ltac:(vm_compute; reflexivity) eq_refl)
    as (w' & warnings & Hrun & _).
  exists w'. split; [exact Hrun|].
  vm_compute in Hrun. injection Hrun as <-. vm_compute. split; reflexivity.
Defined.

(** C9 fails as stated: on the sample tree two files are processed, and
    what [processDirectory] resolves to is [undefined], not the number
    two. *)
Lemma processDirectory_counterexample :
  fst (getAllFiles [u "site"] default_extensions world0)
  = Ok [ [u "site"; u "package.json"]; [u "site"; u "src"; u "App.js"] ]
  /\ fst (processDirectory first_choice [u "site"] sample_row
            default_extensions world0) = Ok undefined
  /\ undefined <> number 2.
Proof. vm_compute. repeat split. discriminate. Qed.

(** ** C10: the copy filter is a prefix test *)

(** C10.  The copy filter is a test on the text of the relative path.
    Where the copy step of [buildWebsite] succeeds, the template is looked
    up after the output directory has been made and the old website
    directory removed, and the materialized project holds, below the website
    directory, exactly this: an entry of the template's first level whose
    name begins with [node_modules], [build] or [.git] is absent with
    everything below it, [builder.js], [build-tools] and [.gitignore]
    included; every other entry of the first level is there exactly as it is
    in the template, whatever the names below it. *)
Theorem copy_filter_tests_a_prefix (domain : text)
    (templatePath outputPath websitePath : path) (w w' : World) :
  websitePath <> [] ->
  materialize domain templatePath outputPath websitePath w = (Ok tt, w') ->
  exists root1 template,
    mkdirs outputPath (fs w) = Some root1
    /\ lookup_path templatePath (remove_path websitePath root1) = Some template
    /\ (forall first rest,
          lookup_path (websitePath ++ first :: rest) (fs w')
          = if excluded_from_copy first then None
            else lookup_path (first :: rest) template)
    /\ (forall name items first rest,
          lookup_path (first :: rest)
            (copy_entry (copy_filter templatePath) templatePath
               (Dir name items))
          = if excluded_from_copy first then None
            else lookup_path (first :: rest) (Dir name items))
    /\ (forall first rest,
          copy_filter templatePath (templatePath ++ first :: rest)
          = negb (startsWith first (u "node_modules")
                  || startsWith first (u "build")
                  || startsWith first (u ".git")))
    /\ excluded_from_copy (u "builder.js") = true
    /\ excluded_from_copy (u "build-tools") = true
    /\ excluded_from_copy (u ".gitignore") = true.
Proof.
  intros Hsite Hrun.
  destruct (materialize_places_copy domain templatePath outputPath websitePath
              w w' Hsite Hrun) as (root1 & template & Hmk & Htemplate & Hcopy).
  exists root1, template. split; [exact Hmk|]. split; [exact Htemplate|].
  split; [|split; [|split; [|repeat split]]].
  - intros first rest. rewrite lookup_path_app, Hcopy. apply lookup_in_copy.
  - intros name items first rest.
    rewrite copy_entry_template. cbn [lookup_path].
    rewrite (find_entry_filter_name (fun n => negb (excluded_from_copy n))).
    destruct (excluded_from_copy first); reflexivity.
  - intros first rest. apply copy_filter_below.
Qed.

Lemma copy_filter_tests_a_prefix_witness :
  exists w',
    materialize (u "a.test") [u "src"; u "template"] [u "build"]
      [u "build"; u "a.test"] sample_world = (Ok tt, w')
    /\ lookup_path [u "build"; u "a.test"; u "builder.js"] (fs w') = None
    /\ lookup_path [u "build"; u "a.test"; u "build-tools"; u "run.js"] (fs w')
       = None
    /\ lookup_path [u "build"; u "a.test"; u ".gitignore"] (fs w') = None
    /\ lookup_path
         [u "build"; u "a.test"; u "node_modules"; u "react"; u "index.js"]
         (fs w')
       = None
    /\ lookup_path
         [u "build"; u "a.test"; u "src"; u "node_modules"; u "local.js"]
         (fs w')
       = Some (File (u "local.js") (u "{{title}}"))
    /\ lookup_path [u "build"; u "a.test"; u "dist"; u "bundle.js"] (fs w')
       = Some (File (u "bundle.js") (u "old")).
Proof.
  set (w' := snd (materialize (u "a.test") [u "src"; u "template"] [u "build"]
                    [u "build"; u "a.test"] sample_world)).
  assert (E : materialize (u "a.test") [u "src"; u "template"] [u "build"]
                [u "build"; u "a.test"] sample_world = (Ok tt, w'))
    by (vm_compute; reflexivity).
  exists w'. split; [exact E|].
  destruct (copy_filter_tests_a_prefix (u "a.test") [u "src"; u "template"]
              [u "build"] [u "build"; u "a.test"] sample_world w'
              ltac:(discriminate) E)
    as (root1 & template & Hmk & Htemplate & Hcopy & _).
  vm_compute in Hmk. injection Hmk as <-.
  vm_compute in Htemplate. injection Htemplate as <-.
  split; [exact (Hcopy (u "builder.js") [])|].
  split; [exact (Hcopy (u "build-tools") [u "run.js"])|].
  split; [exact (Hcopy (u ".gitignore") [])|].
  split; [exact (Hcopy (u "node_modules") [u "react"; u "index.js"])|].
  split; [etransitivity;
            [exact (Hcopy (u "src") [u "node_modules"; u "local.js"])|];
          vm_compute; reflexivity|].
  etransitivity; [exact (Hcopy (u "dist") [u "bundle.js"])|].
  vm_compute; reflexivity.
Defined.

(** * Further properties of the code *)

(** ** Facts about strings and lists *)

Lemma drop_while_nil (p : N -> bool) (s : text) :
  drop_while p s = [] <-> forallb p s = true.
Proof.
  induction s as [|c s IH]; cbn [drop_while forallb]; [tauto|].
  destruct (p c); cbn [andb]; [exact IH|].
  split; discriminate.
Qed.

Lemma trim_nil (s : text) : trim s = [] <-> forallb is_space s = true.
Proof.
  unfold trim. split.
  - intros H. apply (f_equal (@rev N)) in H. rewrite rev_involutive in H.
    cbn [rev] in H. apply drop_while_nil in H.
    rewrite forallb_forall in H.
    destruct (drop_while is_space s) as [|c r] eqn:E.
    + apply drop_while_nil, E.
    + exfalso.
      assert (Hc : is_space c = true).
      { apply H. rewrite <- in_rev. left. reflexivity. }
      clear H. induction s as [|x s IH]; [discriminate|].
      cbn [drop_while] in E. destruct (is_space x) eqn:Ex; [auto|].
      injection E as -> ->. congruence.
  - intros H. apply drop_while_nil in H. rewrite H. reflexivity.
Qed.

Lemma concat_imap_nil {A B} (f : nat -> A -> list B) (l : list A) :
  concat (imap f l) = [] ->
  forall i x, l !! i = Some x -> f i x = [].
Proof.
  revert f; induction l as [|a l IH]; intros f H i x Hi; [discriminate|].
  cbn [imap concat] in H. apply app_eq_nil in H as [H0 H1].
  destruct i as [|i]; cbn in Hi.
  - injection Hi as <-. exact H0.
  - exact (IH _ H1 i x Hi).
Qed.

Lemma in_concat_imap {A B} (f : nat -> A -> list B) (l : list A) (y : B) :
  In y (concat (imap f l)) <->
  exists i x, l !! i = Some x /\ In y (f i x).
Proof.
  revert f; induction l as [|a l IH]; intros f.
  - cbn. split; [tauto|]. intros (i & x & H & _). destruct i; discriminate.
  - cbn [imap concat]. rewrite in_app_iff, IH. split.
    + intros [H|(i & x & Hi & H)].
      * exists 0, a. split; [reflexivity|exact H].
      * exists (S i), x. split; [exact Hi|exact H].
    + intros (i & x & Hi & H). destruct i as [|i]; cbn in Hi.
      * injection Hi as <-. left. exact H.
      * right. exists i, x. split; assumption.
Qed.

Lemma length_zero_ltb {A} (l : list A) : (0 <? length l) = false -> l = [].
Proof. destruct l; [reflexivity|discriminate]. Qed.

(** ** The CSV reader *)

Lemma required_field_is_own (row : gmap text text) (field : text) :
  In field requiredFields -> get_property row field = row !! field.
Proof.
  intros H. unfold get_property. destruct (row !! field); [reflexivity|].
  cbn in H. intuition (subst; vm_compute; reflexivity).
Qed.

Lemma is_missing_spec (row : gmap text text) (field : text) :
  In field requiredFields ->
  is_missing row field = false <->
  exists value, row !! field = Some value /\ trim value <> [].
Proof.
  intros H. unfold is_missing. rewrite (required_field_is_own _ _ H).
  destruct (row !! field) as [v|]; split.
  - intros E. apply orb_false_iff in E as [_ E].
    apply bool_decide_eq_false in E. eauto.
  - intros (v' & [= <-] & Hv). apply orb_false_iff. split.
    + apply bool_decide_eq_false. intros ->. apply Hv. reflexivity.
    + apply bool_decide_eq_false. exact Hv.
  - discriminate.
  - intros (? & ? & _). discriminate.
Qed.

Lemma in_missingFields (data : list (gmap text text)) (line : text) :
  In line (missingFields data) <->
  exists index row field,
    data !! index = Some row /\ In field requiredFields
    /\ is_missing row field = true /\ line = validation_message index field.
Proof.
  unfold missingFields. rewrite in_concat_imap. split.
  - intros (i & row & Hi & H). unfold missing_in_row in H.
    apply in_flat_map in H as (field & Hf & H).
    destruct (is_missing row field) eqn:E; [|destruct H].
    destruct H as [<-|[]]. exists i, row, field. auto.
  - intros (i & row & field & Hi & Hf & E & ->).
    exists i, row. split; [exact Hi|]. unfold missing_in_row.
    apply in_flat_map. exists field. split; [exact Hf|].
    rewrite E. left. reflexivity.
Qed.

Lemma missingFields_nil (data : list (gmap text text)) :
  missingFields data = [] ->
  forall row field, In row data -> In field requiredFields ->
  is_missing row field = false.
Proof.
  intros H row field Hrow Hfield.
  destruct (is_missing row field) eqn:E; [|reflexivity]. exfalso.
  apply list_elem_of_In, list_elem_of_lookup in Hrow as [i Hi].
  assert (Hin : In (validation_message i field) (missingFields data)).
  { apply in_missingFields. exists i, row, field. auto. }
  rewrite H in Hin. destruct Hin.
Qed.

Section ParserFacts.
Variable papa_parse :
  (text -> text -> text) -> text -> list (gmap text text) * list parse_error.

(** What [parseCSV] does, case by case. *)
Lemma parseCSV_cases (filepath : text) (w : World) :
  let failed e :=
    (Thrown e,
     mkWorld (fs w)
       (emit (ErrorConsole (u "Error parsing CSV: " ++ message e)) (io w))) in
  parseCSV papa_parse filepath w =
    match lookup_path (to_path filepath) (fs w) with
    | None => failed (Error (u "CSV file not found: " ++ filepath))
    | Some (File _ csvFile) =>
        if bool_decide (trim csvFile = []) then
          failed (Error (u "CSV file is empty"))
        else
          let '(data, errors) := papa_parse transform csvFile in
          if 0 <? length errors then
            failed (Error (u "CSV parsing errors:" ++ [LF]
                           ++ unlines (List.map errorMessage errors)))
          else if length data =? 0 then
            failed (Error (u "No valid data rows found in CSV file"))
          else if 0 <? length (missingFields data) then
            failed (Error (u "Validation errors:" ++ [LF]
                           ++ unlines (missingFields data)))
          else
            (Ok data,
             mkWorld (fs w)
               (emit (LogConsole (CHECK_MARK ++ u " Successfully parsed "
                                  ++ decimal (length data)
                                  ++ u " website(s) from CSV")) (io w)))
    | Some (Dir _ _) => failed (EISDIR (to_path filepath))
    | Some (Special _) => failed (ENOENT (to_path filepath))
    end.
Proof.
  cbv zeta.
  unfold parseCSV, try_catch, bind, fs_existsSync, fs_pathExists,
    fs_readFileSync, fs_readFile, throw, console_out, ret.
  destruct (lookup_path (to_path filepath) (fs w)) as [[name csvFile|name items|name]|] eqn:E.
  - rewrite bool_decide_eq_true_2 by eauto. cbn [negb]. rewrite E.
    unfold parse_rows, throw, bind, console_out, ret.
    destruct (bool_decide (trim csvFile = [])); [reflexivity|].
    destruct (papa_parse transform csvFile) as [data errors].
    destruct (0 <? length errors); [reflexivity|].
    destruct (length data =? 0); [reflexivity|].
    cbv zeta. destruct (0 <? length (missingFields data)); reflexivity.
  - rewrite bool_decide_eq_true_2 by eauto. cbn [negb]. rewrite E. reflexivity.
  - rewrite bool_decide_eq_true_2 by eauto. cbn [negb]. rewrite E. reflexivity.
  - rewrite bool_decide_eq_false_2 by (intros [? ?]; discriminate).
    reflexivity.
Qed.
End ParserFacts.

(** X1.  [parseCSV] resolves exactly when the file is a regular file that is
    not blank, papaparse reports no error and at least one row, and every
    row has each of the five required fields with a value that is not
    blank.  It then resolves to the rows papaparse gave. *)
Theorem parseCSV_resolves_iff
    (papa_parse : (text -> text -> text) -> text
                  -> list (gmap text text) * list parse_error)
    (filepath : text) (w : World) (data : list (gmap text text)) :
  (exists w', parseCSV papa_parse filepath w = (Ok data, w'))
  <->
  (exists csvFile,
     read_file (to_path filepath) (fs w) = Some csvFile
     /\ trim csvFile <> []
     /\ papa_parse transform csvFile = (data, [])
     /\ data <> []
     /\ forall row field, In row data -> In field requiredFields ->
        exists value, row !! field = Some value /\ trim value <> []).
Proof.
  rewrite parseCSV_cases. cbv zeta. unfold read_file.
  destruct (lookup_path (to_path filepath) (fs w)) as [[name csvFile|name items|name]|];
    try (split; [intros [? ?]; discriminate | intros (? & ? & _); discriminate]).
  case_bool_decide as Hblank.
  { split; [intros [? ?]; discriminate|].
    intros (? & [= <-] & H & _). contradiction. }
  destruct (papa_parse transform csvFile) as [data' errors] eqn:Epapa.
  destruct (0 <? length errors) eqn:Eerr.
  { split; [intros [? ?]; discriminate|].
    intros (? & [= <-] & _ & Hp & _). rewrite Epapa in Hp.
    injection Hp as -> ->. discriminate. }
  apply length_zero_ltb in Eerr as ->.
  destruct (length data' =? 0) eqn:Elen.
  { split; [intros [? ?]; discriminate|].
    intros (? & [= <-] & _ & Hp & H & _). rewrite Epapa in Hp.
    injection Hp as ->.
    apply Nat.eqb_eq in Elen. destruct data; [contradiction|discriminate]. }
  destruct (0 <? length (missingFields data')) eqn:Emiss.
  { split; [intros [? ?]; discriminate|].
    intros (? & [= <-] & _ & Hp & _ & H). rewrite Epapa in Hp.
    injection Hp as ->. exfalso.
    destruct (missingFields data) as [|line rest] eqn:E; [discriminate|].
    assert (Hin : In line (missingFields data)) by (rewrite E; left; reflexivity).
    apply in_missingFields in Hin as (i & row & field & Hi & Hf & Hm & _).
    assert (Hrow : In row data).
    { apply list_elem_of_In, list_elem_of_lookup. eauto. }
    apply (is_missing_spec row field Hf) in H; [|exact Hrow|exact Hf].
    congruence. }
  apply length_zero_ltb in Emiss.
  split.
  - intros [w' [= <- _]]. exists csvFile.
    split; [reflexivity|]. split; [exact Hblank|]. split; [exact Epapa|].
    split.
    + intros ->. discriminate.
    + intros row field Hrow Hf. apply is_missing_spec; [exact Hf|].
      eapply missingFields_nil; eassumption.
  - intros (? & [= <-] & _ & Hp & _). rewrite Epapa in Hp.
    injection Hp as ->. eexists. reflexivity.
Qed.

(** X2.  Whether [parseCSV] resolves or rejects, it leaves the file system
    as it was and writes exactly one console line: the count of rows when
    it resolves, the message of the error when it rejects. *)
Theorem parseCSV_writes_one_line
    (papa_parse : (text -> text -> text) -> text
                  -> list (gmap text text) * list parse_error)
    (filepath : text) (w : World) :
  let line :=
    match fst (parseCSV papa_parse filepath w) with
    | Ok data =>
        LogConsole (CHECK_MARK ++ u " Successfully parsed "
                    ++ decimal (length data) ++ u " website(s) from CSV")
    | Thrown e => ErrorConsole (u "Error parsing CSV: " ++ message e)
    end in
  snd (parseCSV papa_parse filepath w) = mkWorld (fs w) (emit line (io w)).
Proof.
  rewrite parseCSV_cases. cbv zeta.
  destruct (lookup_path (to_path filepath) (fs w)) as [[name csvFile|name items|name]|];
    try reflexivity.
  destruct (bool_decide (trim csvFile = [])); [reflexivity|].
  destruct (papa_parse transform csvFile) as [data errors].
  destruct (0 <? length errors); [reflexivity|].
  destruct (length data =? 0); [reflexivity|].
  destruct (0 <? length (missingFields data)); reflexivity.
Qed.

Lemma parseCSV_resolves_iff_witness :
  exists w',
    parseCSV sample_papa (u "./src/data/websites.csv") (csv_world sample_csv)
    = (Ok [website "bad.test" "B"; website "good.test" "G"], w').
Proof.
  apply parseCSV_resolves_iff. exists sample_csv.
  split; [vm_compute; reflexivity|].
  split; [vm_compute; discriminate|].
  split; [vm_compute; reflexivity|].
  split; [discriminate|].
  intros row field Hrow Hfield. cbn in Hrow, Hfield.
  destruct Hrow as [<-|[<-|[]]];
    repeat (destruct Hfield as [<-|Hfield];
            [vm_compute; eexists; split; [reflexivity|discriminate]|]);
    destruct Hfield.
Defined.

(** X3.  A file that holds nothing but white space (blanks, line breaks, a
    byte order mark) is rejected as empty, whatever papaparse would make
    of it. *)
Theorem parseCSV_rejects_blank_file
    (papa_parse : (text -> text -> text) -> text
                  -> list (gmap text text) * list parse_error)
    (filepath csvFile : text) (w : World) :
  read_file (to_path filepath) (fs w) = Some csvFile ->
  forallb is_space csvFile = true ->
  fst (parseCSV papa_parse filepath w) = Thrown (Error (u "CSV file is empty")).
Proof.
  intros Hread Hblank. rewrite parseCSV_cases. cbv zeta.
  unfold read_file in Hread.
  destruct (lookup_path (to_path filepath) (fs w)) as [[name c|name items|name]|];
    try discriminate.
  injection Hread as ->.
  rewrite bool_decide_eq_true_2 by (apply trim_nil, Hblank). reflexivity.
Qed.

Lemma parseCSV_rejects_blank_file_witness :
  fst (parseCSV sample_papa (u "src/data/websites.csv")
         (csv_world ([65279%N] ++ u "  " ++ [CR; LF])))
  = Thrown (Error (u "CSV file is empty")).
Proof.
  apply (parseCSV_rejects_blank_file sample_papa (u "src/data/websites.csv")
           ([65279%N] ++ u "  " ++ [CR; LF])).
  - vm_compute. reflexivity.
  - vm_compute. reflexivity.
Defined.

(** X4.  When papaparse reports no error and a row lacks a required field,
    or holds only white space there, [parseCSV] rejects with the list of
    all such fields: one line for every row and field, and the row at
    index [i] of the data is called row [i + 2]. *)
Theorem parseCSV_lists_missing_fields
    (papa_parse : (text -> text -> text) -> text
                  -> list (gmap text text) * list parse_error)
    (filepath csvFile : text) (w : World) (data : list (gmap text text))
    (index : nat) (row : gmap text text) (field : text) :
  read_file (to_path filepath) (fs w) = Some csvFile ->
  trim csvFile <> [] ->
  papa_parse transform csvFile = (data, []) ->
  data !! index = Some row ->
  In field requiredFields ->
  (forall value, row !! field = Some value -> forallb is_space value = true) ->
  exists lines,
    fst (parseCSV papa_parse filepath w)
    = Thrown (Error (u "Validation errors:" ++ [LF] ++ unlines lines))
    /\ In (u "Row " ++ decimal (index + 2) ++ u ": Missing required field '"
           ++ field ++ u "'") lines
    /\ forall line, In line lines ->
       exists i r f,
         data !! i = Some r /\ In f requiredFields
         /\ is_missing r f = true
         /\ line = u "Row " ++ decimal (i + 2)
                   ++ u ": Missing required field '" ++ f ++ u "'".
Proof.
  intros Hread Hblank Hpapa Hrow Hfield Hvalue.
  assert (Hmiss : is_missing row field = true).
  { destruct (is_missing row field) eqn:E; [reflexivity|].
    apply (is_missing_spec _ _ Hfield) in E as (v & Hv & Hne).
    apply Hvalue, trim_nil in Hv. contradiction. }
  assert (Hin : In (validation_message index field) (missingFields data)).
  { apply in_missingFields. exists index, row, field. auto. }
  exists (missingFields data). split; [|split].
  - rewrite parseCSV_cases. cbv zeta. unfold read_file in Hread.
    destruct (lookup_path (to_path filepath) (fs w)) as [[name c|name items|name]|];
      try discriminate.
    injection Hread as ->.
    rewrite bool_decide_eq_false_2 by exact Hblank. rewrite Hpapa.
    cbn [length Nat.ltb Nat.leb].
    destruct data as [|r0 data0]; [destruct index; discriminate|].
    cbn [length Nat.eqb].
    destruct (missingFields (r0 :: data0)); [destruct Hin|]. reflexivity.
  - exact Hin.
  - intros line Hline. apply in_missingFields in Hline. exact Hline.
Qed.

Lemma parseCSV_lists_missing_fields_witness :
  exists lines,
    fst (parseCSV sample_papa (u "src/data/websites.csv")
           (csv_world sample_csv_incomplete))
    = Thrown (Error (u "Validation errors:" ++ [LF] ++ unlines lines))
    /\ In (u "Row 3: Missing required field 'address'") lines.
Proof.
  destruct (parseCSV_lists_missing_fields sample_papa
              (u "src/data/websites.csv") sample_csv_incomplete
              (csv_world sample_csv_incomplete)
              [website "a.test" "A";
               row_of [ ("domain", "b.test"); ("title", "");
                        ("description", "d"); ("phone", "1");
                        ("address", "") ]%string]
              1
              (row_of [ ("domain", "b.test"); ("title", "");
                        ("description", "d"); ("phone", "1");
                        ("address", "") ]%string)
              (u "address"))
    as (lines & Hrun & Hin & _).
  - vm_compute. reflexivity.
  - vm_compute. discriminate.
  - vm_compute. reflexivity.
  - reflexivity.
  - vm_compute. tauto.
  - intros value Hv. vm_compute in Hv. injection Hv as <-. reflexivity.
  - exists lines. split; [exact Hrun|exact Hin].
Defined.

(** X5.  [validateCSV] never rejects.  It answers [true] exactly when
    [parseCSV] resolves, and it leaves the world as [parseCSV] leaves it:
    the console line of [parseCSV] is written all the same. *)
Theorem validateCSV_never_rejects
    (papa_parse : (text -> text -> text) -> text
                  -> list (gmap text text) * list parse_error)
    (filepath : text) (w : World) :
  exists valid,
    validateCSV papa_parse filepath w
    = (Ok valid, snd (parseCSV papa_parse filepath w))
    /\ (valid = true <->
        exists data, fst (parseCSV papa_parse filepath w) = Ok data).
Proof.
  unfold validateCSV, try_catch, bind, ret.
  destruct (parseCSV papa_parse filepath w) as [[data|e] w1].
  - exists true. split; [reflexivity|]. split; [eauto|reflexivity].
  - exists false. split; [reflexivity|].
    split; [discriminate|intros [? ?]; discriminate].
Qed.

(** ** From the CSV file to the builds *)

Lemma parseCSV_Ok_rows
    (papa_parse : (text -> text -> text) -> text
                  -> list (gmap text text) * list parse_error)
    (filepath : text) (w w' : World) (data : list (gmap text text)) :
  parseCSV papa_parse filepath w = (Ok data, w') ->
  data <> []
  /\ forall row field, In row data -> In field requiredFields ->
     exists value, row !! field = Some value /\ trim value <> [].
Proof.
  rewrite parseCSV_cases. cbv zeta.
  destruct (lookup_path (to_path filepath) (fs w)) as [[name csvFile|name items|name]|];
    try discriminate.
  destruct (bool_decide (trim csvFile = [])); [discriminate|].
  destruct (papa_parse transform csvFile) as [data' errors].
  destruct (0 <? length errors); [discriminate|].
  destruct (length data' =? 0) eqn:Elen; [discriminate|].
  destruct (0 <? length (missingFields data')) eqn:Emiss; [discriminate|].
  apply length_zero_ltb in Emiss. intros [= <- _]. split.
  - intros ->. discriminate.
  - intros row field Hrow Hf. apply is_missing_spec; [exact Hf|].
    eapply missingFields_nil; eassumption.
Qed.

Section PipelineFacts.
Variable Math_random : nat -> unit_interval.
Variable JSON_parse : text -> option json.
Variable JSON_stringify : json -> text.
Variable unicode_lower : text -> text.
Variable execSync : text -> path -> entry -> outcome text * entry.

(** Rows that have a domain are all built: one result for each. *)
Lemma buildWebsitesSequential_total (websites : list (gmap text text))
    (templatePath outputPath : path) (w : World) :
  Forall (fun website => is_Some (website !! u "domain")) websites ->
  exists results w',
    buildWebsitesSequential Math_random JSON_parse JSON_stringify unicode_lower
      execSync websites templatePath outputPath w = (Ok results, w')
    /\ Forall2 (fun website result =>
                  website !! u "domain" = Some (result_domain result))
         websites results.
Proof.
  unfold buildWebsitesSequential. intros H. revert w.
  induction H as [|x rest [d Hd] _ IH]; intros w.
  - exists [], w. split; [reflexivity|constructor].
  - destruct (buildWebsite_terminal Math_random JSON_parse JSON_stringify
                unicode_lower execSync d x templatePath outputPath w)
      as (r & w1 & Hrun & Hname & _).
    rewrite <- Hd in Hrun.
    destruct (IH w1) as (rs & w' & Hrs & Hall).
    exists (r :: rs), w'. split.
    + eapply build_each_cons; eassumption.
    + constructor; [|exact Hall]. rewrite Hd, Hname. reflexivity.
Qed.
End PipelineFacts.

(** X6.  The rows [parseCSV] resolves to can all be built:
    [buildWebsitesSequential] does not reject on them, whatever the file
    system and the build tool do, and gives one result for every row, in
    the order of the rows and under the row's domain, which is not blank. *)
Theorem parsed_rows_are_all_built
    (Math_random : nat -> unit_interval)
    (JSON_parse : text -> option json) (JSON_stringify : json -> text)
    (unicode_lower : text -> text)
    (execSync : text -> path -> entry -> outcome text * entry)
    (papa_parse : (text -> text -> text) -> text
                  -> list (gmap text text) * list parse_error)
    (filepath : text) (templatePath outputPath : path)
    (websites : list (gmap text text)) (w w1 w2 : World) :
  parseCSV papa_parse filepath w = (Ok websites, w1) ->
  exists results w3,
    buildWebsitesSequential Math_random JSON_parse JSON_stringify unicode_lower
      execSync websites templatePath outputPath w2 = (Ok results, w3)
    /\ results <> []
    /\ Forall2 (fun website result =>
                  website !! u "domain" = Some (result_domain result)
                  /\ trim (result_domain result) <> [])
         websites results.
Proof.
  intros Hparse. apply parseCSV_Ok_rows in Hparse as [Hne Hrows].
  assert (Hdom : Forall (fun website => is_Some (website !! u "domain")) websites).
  { apply List.Forall_forall. intros row Hrow.
    destruct (Hrows row (u "domain") Hrow) as (v & Hv & _).
    - left. reflexivity.
    - eauto. }
  destruct (buildWebsitesSequential_total Math_random JSON_parse
              JSON_stringify unicode_lower execSync websites templatePath
              outputPath w2 Hdom) as (results & w3 & Hrun & Hall).
  exists results, w3. split; [exact Hrun|]. split.
  - intros ->. inversion Hall. subst. contradiction.
  - clear Hrun Hne Hdom. induction Hall as [|x r xs rs Hx _ IH]; constructor.
    + split; [exact Hx|].
      destruct (Hrows x (u "domain")) as (v & Hv & Hne);
        [left; reflexivity|left; reflexivity|].
      rewrite Hx in Hv. injection Hv as ->. exact Hne.
    + apply IH. intros row field Hrow. apply Hrows. right. exact Hrow.
Qed.

Lemma parsed_rows_are_all_built_witness :
  exists results w3,
    sample_build [website "bad.test" "B"; website "good.test" "G"]
    = (Ok results, w3)
    /\ List.map result_domain results = [u "bad.test"; u "good.test"].
Proof.
  destruct (parsed_rows_are_all_built first_choice flat_parse flat_stringify
              (fun s => s) sample_npm sample_papa
              (u "./src/data/websites.csv") [u "src"; u "template"]
              [u "build"] [website "bad.test" "B"; website "good.test" "G"]
              (csv_world sample_csv)
              (snd (parseCSV sample_papa (u "./src/data/websites.csv")
                      (csv_world sample_csv)))
              sample_world)
    as (results & w3 & Hrun & _ & Hall).
  - vm_compute. reflexivity.
  - exists results, w3. split; [exact Hrun|].
    unfold sample_build in *. vm_compute in Hrun.
    injection Hrun as <- _. reflexivity.
Defined.

(** ** Writing a file that may be new *)

Lemma put_file_name (name content : text) (x y : entry) :
  put_file name content x = Some y -> entry_name y = entry_name x.
Proof. destruct x; simpl; intros [= <-]; reflexivity. Qed.

Lemma update_path_defined (p : path) (f : entry -> option entry)
    (e x y : entry) :
  lookup_path p e = Some x -> f x = Some y ->
  exists e', update_path p f e = Some e'.
Proof.
  revert e; induction p as [|name p IH]; intros e; simpl.
  - intros [= ->] H. eauto.
  - destruct e as [| d items |]; try discriminate.
    destruct (find_entry name items) as [sub|]; [|discriminate].
    intros Hl Hf. destruct (IH _ Hl Hf) as [sub' ->]. eauto.
Qed.

Lemma read_after_put (dir : path) (name content : text) (root root' : entry) :
  update_path dir (put_file name content) root = Some root' ->
  read_file (dir ++ [name]) root' = Some content.
Proof.
  intros Hu.
  apply lookup_after_update in Hu as (x & y & _ & Hy & Hl);
    [|apply put_file_name].
  unfold read_file. rewrite lookup_path_app, Hl.
  destruct x as [| n items |]; try discriminate. injection Hy as <-.
  cbn [lookup_path].
  change name with (entry_name (File name content)) at 1.
  rewrite find_set_entry_eq. reflexivity.
Qed.

(** A new file changes the content of no other. *)
Lemma read_other_after_put (dir : path) (name content : text) (q : path)
    (root root' : entry) :
  lookup_path (dir ++ [name]) root = None ->
  update_path dir (put_file name content) root = Some root' ->
  q <> dir ++ [name] ->
  read_file q root' = read_file q root.
Proof.
  unfold read_file.
  revert q root root'; induction dir as [|d dir IH]; intros q root root'.
  - cbn [app update_path lookup_path].
    destruct root as [| n items |]; try discriminate.
    cbn [put_file]. intros Hnone [= <-] Hq.
    destruct q as [|a q]; [reflexivity|]. cbn [lookup_path].
    destruct (decide (a = name)) as [->|Ha].
    + change name with (entry_name (File name content)) at 1.
      rewrite find_set_entry_eq.
      destruct (find_entry name items); [discriminate|].
      destruct q; [congruence|reflexivity].
    + rewrite find_set_entry_ne by exact Ha. reflexivity.
  - cbn [app update_path lookup_path].
    destruct root as [| n items |]; try discriminate.
    destruct (find_entry d items) as [sub|] eqn:Ef; [|discriminate].
    destruct (update_path dir _ sub) as [sub'|] eqn:Eu; [|discriminate].
    intros Hnone [= <-] Hq.
    destruct q as [|a q]; [reflexivity|]. cbn [lookup_path].
    pose proof (update_path_name _ _ _ _ (put_file_name name content) Eu) as Hn.
    rewrite (find_entry_name _ _ _ Ef) in Hn.
    destruct (decide (a = d)) as [->|Ha].
    + rewrite <- Hn at 1. rewrite find_set_entry_eq, Ef.
      apply (IH q _ _ Hnone Eu). congruence.
    + rewrite find_set_entry_ne by congruence. reflexivity.
Qed.

Lemma write_file_read (p : path) (content : text) (root root' : entry) :
  write_file p content root = Ok root' ->
  read_file p root' = Some content.
Proof.
  unfold write_file.
  destruct (lookup_path p root) as [[| |]|] eqn:El; try discriminate.
  - destruct (overwrite_file p content root) eqn:Eo; [|discriminate].
    intros [= <-]. eapply read_after_overwrite, Eo.
  - destruct (overwrite_file p content root) eqn:Eo; [|discriminate].
    intros [= <-]. eapply read_after_overwrite, Eo.
  - destruct (lookup_path (removelast p) root) as [[| |]|]; try discriminate.
    destruct (update_path (removelast p) _ root) eqn:Eu; [|discriminate].
    intros [= <-].
    assert (Hp : p <> []) by (intros ->; discriminate).
    rewrite (app_removelast_last [] Hp) at 1.
    eapply read_after_put, Eu.
Qed.

Lemma write_file_frame (p q : path) (content : text) (root root' : entry) :
  write_file p content root = Ok root' -> q <> p ->
  read_file q root' = read_file q root.
Proof.
  unfold write_file.
  destruct (lookup_path p root) as [[| |]|] eqn:El; try discriminate.
  - destruct (overwrite_file p content root) eqn:Eo; [|discriminate].
    intros [= <-] Hq. eapply read_other_after_overwrite; eassumption.
  - destruct (overwrite_file p content root) eqn:Eo; [|discriminate].
    intros [= <-] Hq. eapply read_other_after_overwrite; eassumption.
  - destruct (lookup_path (removelast p) root) as [[| |]|]; try discriminate.
    destruct (update_path (removelast p) _ root) eqn:Eu; [|discriminate].
    intros [= <-] Hq.
    assert (Hp : p <> []) by (intros ->; discriminate).
    rewrite (app_removelast_last [] Hp) in El, Hq.
    eapply read_other_after_put; eassumption.
Qed.

(** In a directory a file can be written under a name that is free or
    that of a regular file. *)
Lemma write_file_defined (dir : path) (name content : text) (root : entry)
    (d : text) (items : list entry) :
  lookup_path dir root = Some (Dir d items) ->
  (forall sub, find_entry name items = Some sub ->
               exists n c, sub = File n c) ->
  exists root', write_file (dir ++ [name]) content root = Ok root'.
Proof.
  intros Hdir Hfree. unfold write_file.
  rewrite lookup_path_app, Hdir. cbn [lookup_path].
  destruct (find_entry name items) as [sub|] eqn:Ef.
  - destruct (Hfree sub eq_refl) as (n & c & ->).
    destruct (overwrite_file_defined (dir ++ [name]) c content root)
      as [root' ->]; [|eauto].
    unfold read_file. rewrite lookup_path_app, Hdir. cbn [lookup_path].
    rewrite Ef. reflexivity.
  - rewrite removelast_last, last_last, Hdir.
    destruct (update_path_defined dir (put_file name content) root
                (Dir d items) (Dir d (set_entry (File name content) items)))
      as [root' ->]; [exact Hdir|reflexivity|eauto].
Qed.

Lemma path_join_summary (outputPath : path) :
  path_join outputPath (u "build-summary.md")
  = outputPath ++ [u "build-summary.md"].
Proof.
  unfold path_join.
  replace (split SLASH (u "build-summary.md")) with [u "build-summary.md"]
    by (vm_compute; reflexivity).
  cbn [fold_left]. unfold join_component.
  rewrite !bool_decide_eq_false_2 by (vm_compute; discriminate).
  reflexivity.
Qed.

(** ** The summary of a run *)

(** X7.  Where the output directory exists and nothing but a regular file
    stands under the name [build-summary.md], [generateBuildSummary]
    resolves to the path of that file, which then holds the summary of the
    results, new or overwritten; no other file changes, and one line is
    written to the console. *)
Theorem generateBuildSummary_writes_the_summary
    (cwd : path) (now : text) (results : list build_result)
    (outputPath : path) (w : World) (name : text) (items : list entry) :
  lookup_path outputPath (fs w) = Some (Dir name items) ->
  (forall sub, find_entry (u "build-summary.md") items = Some sub ->
               exists n c, sub = File n c) ->
  let summaryPath := outputPath ++ [u "build-summary.md"] in
  exists w',
    generateBuildSummary cwd now results outputPath w = (Ok summaryPath, w')
    /\ read_file summaryPath (fs w') = Some (summaryContent cwd now results)
    /\ (forall q, q <> summaryPath -> read_file q (fs w') = read_file q (fs w))
    /\ io w'
       = emit (LogConsole ([LF] ++ BAR_CHART ++ u " Build summary saved to: "
                           ++ render summaryPath)) (io w).
Proof.
  intros Hdir Hfree summaryPath.
  destruct (write_file_defined outputPath (u "build-summary.md")
              (summaryContent cwd now results) (fs w) name items Hdir Hfree)
    as [root' Hw].
  unfold generateBuildSummary. rewrite path_join_summary.
  fold summaryPath in Hw |- *.
  unfold bind, fs_writeFile_any, lift_fs, console_out, ret. rewrite Hw.
  cbn [fs io]. eexists. split; [reflexivity|]. cbn [fs io].
  split; [eapply write_file_read, Hw|].
  split; [|reflexivity].
  intros q Hq. eapply write_file_frame; eassumption.
Qed.

Lemma generateBuildSummary_writes_the_summary_witness :
  exists w',
    generateBuildSummary [u "home"] (u "2024-01-01T00:00:00.000Z")
      [ Failed (u "bad.test") (u "npm ERR! code E404");
        Succeeded (u "good.test") [u "build"; u "good.test"] ]
      [u "build"] staged_world
    = (Ok [u "build"; u "build-summary.md"], w')
    /\ read_file [u "build"; u "build-summary.md"] (fs w')
       = Some (unlines
           [ [];
             u "# Build Summary";
             [];
             u "**Total websites:** 2";
             u "**Successful:** 1";
             u "**Failed:** 1";
             [];
             u "## Successful Builds";
             u "- " ++ WHITE_CHECK
               ++ u " [good.test](./good.test/build/index.html)";
             [];
             u "## Failed Builds";
             u "- " ++ CROSS_MARK ++ u " bad.test: npm ERR! code E404";
             [];
             u "## Quick Links";
             u "- [good.test](file:///home/build/good.test/build/index.html";
             [];
             u "Generated on: 2024-01-01T00:00:00.000Z";
             [] ]).
Proof.
  destruct (generateBuildSummary_writes_the_summary [u "home"]
              (u "2024-01-01T00:00:00.000Z")
              [ Failed (u "bad.test") (u "npm ERR! code E404");
                Succeeded (u "good.test") [u "build"; u "good.test"] ]
              [u "build"] staged_world (u "build")
              [ Dir (u "Good.Test")
                  [ File (u "package.json") package_json_template ] ])
    as (w' & Hrun & Hread & _).
  - reflexivity.
  - intros sub Hsub. vm_compute in Hsub. discriminate.
  - exists w'. split; [exact Hrun|].
    etransitivity; [exact Hread|]. vm_compute. reflexivity.
Defined.

(** X8.  Where the output directory does not exist, [generateBuildSummary]
    rejects with the error of the write and leaves the world as it was:
    nothing is written, to the disk or to the console. *)
Theorem generateBuildSummary_needs_the_directory
    (cwd : path) (now : text) (results : list build_result)
    (outputPath : path) (w : World) :
  lookup_path outputPath (fs w) = None ->
  generateBuildSummary cwd now results outputPath w
  = (Thrown (ENOENT (outputPath ++ [u "build-summary.md"])), w).
Proof.
  intros Hdir. unfold generateBuildSummary. rewrite path_join_summary.
  unfold bind, fs_writeFile_any, lift_fs, write_file.
  rewrite lookup_path_app, removelast_last, Hdir.
  destruct w. reflexivity.
Qed.

Lemma generateBuildSummary_needs_the_directory_witness :
  generateBuildSummary [] [] [] [u "build"] world0
  = (Thrown (ENOENT [u "build"; u "build-summary.md"]), world0).
Proof.
  apply (generateBuildSummary_needs_the_directory [] [] [] [u "build"] world0).
  reflexivity.
Defined.

(** X9.  A directory under the name [build-summary.md], as the build of a
    website with that domain leaves one, makes [generateBuildSummary]
    reject; the directory stays as it is. *)
Theorem generateBuildSummary_rejects_a_directory
    (cwd : path) (now : text) (results : list build_result)
    (outputPath : path) (w : World) (name : text) (items : list entry) :
  lookup_path (outputPath ++ [u "build-summary.md"]) (fs w)
  = Some (Dir name items) ->
  generateBuildSummary cwd now results outputPath w
  = (Thrown (EISDIR (outputPath ++ [u "build-summary.md"])), w).
Proof.
  intros Hdir. unfold generateBuildSummary. rewrite path_join_summary.
  unfold bind, fs_writeFile_any, lift_fs, write_file. rewrite Hdir.
  destruct w. reflexivity.
Qed.

Lemma generateBuildSummary_rejects_a_directory_witness :
  let w :=
    mkWorld (Dir [] [ Dir (u "build") [ Dir (u "build-summary.md") [] ] ])
      io0 in
  generateBuildSummary [] [] [] [u "build"] w
  = (Thrown (EISDIR [u "build"; u "build-summary.md"]), w).
Proof.
  apply (generateBuildSummary_rejects_a_directory [] [] [] [u "build"]
           (mkWorld
              (Dir [] [ Dir (u "build") [ Dir (u "build-summary.md") [] ] ])
              io0)
           (u "build-summary.md") []).
  reflexivity.
Defined.

(** ** The chunks of [buildWebsitesParallel] *)

Lemma chunk_loop_ends {A} (websites : list A) (maxConcurrent : nat) :
  1 <= maxConcurrent ->
  forall fuel i chunks,
    length websites - i < fuel ->
    exists more,
      chunk_loop fuel websites maxConcurrent i chunks = Some (chunks ++ more)
      /\ concat more = drop i websites
      /\ Forall (fun chunk => 1 <= length chunk <= maxConcurrent) more
      /\ length more * maxConcurrent < length websites - i + maxConcurrent.
Proof.
  intros Hm fuel. induction fuel as [|fuel IH]; intros i chunks Hfuel; [lia|].
  cbn [chunk_loop]. destruct (i <? length websites) eqn:Ei.
  - apply Nat.ltb_lt in Ei.
    destruct (IH (i + maxConcurrent)
                (chunks ++ [slice websites i (i + maxConcurrent)]))
      as (more & Hrun & Hcat & Hall & Hlen); [lia|].
    exists (slice websites i (i + maxConcurrent) :: more).
    rewrite Hrun, <- app_assoc. split; [reflexivity|].
    unfold slice. replace (i + maxConcurrent - i) with maxConcurrent by lia.
    split; [|split].
    + cbn [concat]. rewrite Hcat, <- drop_drop. apply take_drop.
    + constructor; [|exact Hall].
      rewrite length_take, length_drop. lia.
    + cbn [length]. rewrite Nat.mul_succ_l.
      destruct (le_lt_dec (i + maxConcurrent) (length websites)); [lia|].
      destruct more as [|chunk more]; cbn [length] in *; [lia|].
      rewrite Nat.mul_succ_l in Hlen. lia.
  - apply Nat.ltb_ge in Ei. exists []. rewrite app_nil_r.
    split; [reflexivity|]. split; [|split].
    + rewrite drop_ge by exact Ei. reflexivity.
    + constructor.
    + cbn [length]. lia.
Qed.

Lemma chunk_loop_never_ends {A} (websites : list A) :
  forall fuel i chunks,
    i < length websites -> chunk_loop fuel websites 0 i chunks = None.
Proof.
  induction fuel as [|fuel IH]; intros i chunks Hi; [reflexivity|].
  cbn [chunk_loop]. rewrite (proj2 (Nat.ltb_lt _ _) Hi), Nat.add_0_r.
  apply IH, Hi.
Qed.

(** X10.  With [maxConcurrent >= 1] the loop that cuts the websites into
    chunks ends, after at most as many steps as there are websites: the
    chunks, one after another, are the websites in their order; no chunk is
    empty and none is longer than [maxConcurrent]; and there are no more
    chunks than needed. *)
Theorem chunks_partition_the_websites {A} (websites : list A)
    (maxConcurrent fuel : nat) :
  1 <= maxConcurrent ->
  length websites < fuel ->
  exists chunks,
    chunks_of fuel websites maxConcurrent = Some chunks
    /\ concat chunks = websites
    /\ Forall (fun chunk => 1 <= length chunk <= maxConcurrent) chunks
    /\ length chunks * maxConcurrent < length websites + maxConcurrent.
Proof.
  intros Hm Hfuel.
  destruct (chunk_loop_ends websites maxConcurrent Hm fuel 0 [])
    as (more & Hrun & Hcat & Hall & Hlen); [lia|].
  exists more. unfold chunks_of. rewrite Hrun.
  rewrite Nat.sub_0_r in Hlen. auto.
Qed.

Lemma chunks_partition_the_websites_witness :
  chunks_of 8 [1; 2; 3; 4; 5; 6; 7] 3 = Some [[1; 2; 3]; [4; 5; 6]; [7]].
Proof.
  destruct (chunks_partition_the_websites [1; 2; 3; 4; 5; 6; 7] 3 8)
    as (chunks & Hrun & _); [lia|cbn; lia|].
  rewrite Hrun. vm_compute in Hrun. symmetry. exact Hrun.
Defined.

(** X11.  With [maxConcurrent = 0] and at least one website the loop never
    ends: the index stays where it is, and no bound on the number of steps
    is enough for it to produce the chunks. *)
Theorem chunks_loop_forever_on_zero {A} (websites : list A) (fuel : nat) :
  websites <> [] ->
  chunks_of fuel websites 0 = None.
Proof.
  intros Hne. apply chunk_loop_never_ends.
  destruct websites; [contradiction|cbn; lia].
Qed.

Lemma chunks_loop_forever_on_zero_witness :
  chunks_of 1000 [u "a.test"] 0 = None.
Proof.
  apply (chunks_loop_forever_on_zero [u "a.test"] 1000). discriminate.
Defined.

(** ** The substitution engine on text without placeholders *)

Lemma match_var_needs_braces (s : text) :
  strip_prefix [LBRACE; LBRACE] s = None -> match_var s = None.
Proof. unfold match_var. intros ->. reflexivity. Qed.

Lemma has_open_braces_head (s : text) :
  has_open_braces s = false -> strip_prefix [LBRACE; LBRACE] s = None.
Proof.
  destruct s as [|a [|b s]]; cbn [has_open_braces strip_prefix];
    try reflexivity.
  - intros _. destruct (LBRACE =? a)%N; reflexivity.
  - intros H%orb_false_iff. destruct H as [H _].
    rewrite (N.eqb_sym LBRACE a), (N.eqb_sym LBRACE b).
    destruct (a =? LBRACE)%N; [|reflexivity].
    destruct (b =? LBRACE)%N; [discriminate|reflexivity].
Qed.

Lemma has_open_braces_tail (c : N) (s : text) :
  has_open_braces (c :: s) = false -> has_open_braces s = false.
Proof.
  destruct s as [|b s]; [reflexivity|]. cbn [has_open_braces].
  intros H. apply orb_false_iff in H as [_ H]. exact H.
Qed.

Section ReplaceNothing.
Context {G St : Type}.
Variable matcher : text -> option (G * nat).
Variable fn : text -> G -> St -> text * St.

(** Where the expression matches at no position, the text stays. *)
Lemma replace_all_none (s : text) (st : St) :
  (forall i, i < length s -> matcher (drop i s) = None) ->
  replace_all matcher fn s st = (s, st).
Proof.
  induction s as [|c s IH]; intros H; [reflexivity|].
  rewrite replace_all_no_match by exact (H 0 ltac:(cbn; lia)).
  rewrite IH; [reflexivity|].
  intros i Hi. exact (H (S i) ltac:(cbn; lia)).
Qed.
End ReplaceNothing.

Lemma substitute_variables_no_braces (data : gmap text text)
    (filePath content : text) (io : IO) :
  has_open_braces content = false ->
  substitute_variables data filePath content io = (content, io).
Proof.
  intros H. unfold substitute_variables. apply replace_all_none.
  intros i _. apply match_var_needs_braces, has_open_braces_head.
  revert i. induction content as [|c s IH]; intros i.
  - rewrite drop_nil. reflexivity.
  - destruct i as [|i]; [exact H|]. cbn [drop].
    apply IH. eapply has_open_braces_tail, H.
Qed.

(** X12.  A text in which neither two opening braces nor two opening
    brackets stand in a row passes through [processTemplate] unchanged,
    whatever the row and the file: nothing is written to the console and no
    random number is drawn. *)
Theorem processTemplate_leaves_plain_text_alone
    (Math_random : nat -> unit_interval) (content : text)
    (data : gmap text text) (filePath : text) (io : IO) :
  has_open_braces content = false ->
  has_open content = false ->
  processTemplate Math_random content data filePath io = (content, io).
Proof.
  intros Hbraces Hbrackets. unfold processTemplate.
  rewrite substitute_variables_no_braces by exact Hbraces.
  apply select_random_no_open, Hbrackets.
Qed.

Lemma processTemplate_leaves_plain_text_alone_witness :
  processTemplate last_choice
    (u "const f = (a) => { return [a[0], {}]; } // {title} [x|y]")
    sample_row (u "src/App.js") io0
  = (u "const f = (a) => { return [a[0], {}]; } // {title} [x|y]", io0).
Proof.
  apply (processTemplate_leaves_plain_text_alone last_choice
           (u "const f = (a) => { return [a[0], {}]; } // {title} [x|y]")
           sample_row (u "src/App.js") io0).
  - vm_compute. reflexivity.
  - vm_compute. reflexivity.
Defined.

(** ** Placeholders the pattern does not cover *)

Lemma app_inv_at (c : N) (a b x y : text) :
  ~ In c a -> ~ In c b -> a ++ c :: x = b ++ c :: y -> a = b.
Proof.
  revert b; induction a as [|h a IH]; intros b Ha Hb E.
  - destruct b as [|k b]; [reflexivity|].
    cbn in E. injection E as <- _. exfalso. apply Hb. left. reflexivity.
  - destruct b as [|k b].
    + cbn in E. injection E as -> _. exfalso. apply Ha. left. reflexivity.
    + cbn in E. injection E as <- E. f_equal.
      apply (IH b); [| |exact E].
      * intros H. apply Ha. right. exact H.
      * intros H. apply Hb. right. exact H.
Qed.

Lemma no_rbrace_in_token_body (ws1 key ws2 : text) :
  is_blank ws1 = true -> is_identifier key = true -> is_blank ws2 = true ->
  ~ In RBRACE (ws1 ++ key ++ ws2)
  /\ forallb (fun c => is_word c || is_space c) (ws1 ++ key ++ ws2) = true.
Proof.
  intros H1 Hk H2. apply is_identifier_spec in Hk as [_ Hk].
  unfold is_blank in *. rewrite forallb_forall in H1, Hk, H2. split.
  - rewrite !in_app_iff. intros [H|[H|H]].
    + exact (space_not_rbrace _ (H1 _ H) eq_refl).
    + exact (word_not_rbrace _ (Hk _ H) eq_refl).
    + exact (space_not_rbrace _ (H2 _ H) eq_refl).
  - apply forallb_forall. intros c. rewrite !in_app_iff.
    intros [H|[H|H]]; apply orb_true_iff; auto.
Qed.

(** X13.  A placeholder whose name holds a code unit that is neither of an
    identifier nor white space (a hyphen, a dot, a letter outside ASCII) is
    not a placeholder for the variable pass: it stays as it is, even if the
    row has a field of that name, and no warning is written. *)
Theorem placeholder_outside_the_pattern_is_kept
    (data : gmap text text) (filePath body : text) (io : IO) :
  existsb outside_pattern body = true ->
  ~ In LBRACE body -> ~ In RBRACE body ->
  substitute_variables data filePath
    ([LBRACE; LBRACE] ++ body ++ [RBRACE; RBRACE]) io
  = ([LBRACE; LBRACE] ++ body ++ [RBRACE; RBRACE], io).
Proof.
  intros Hout Hl Hr. unfold substitute_variables. apply replace_all_none.
  intros i _.
  destruct (match_var (drop i ([LBRACE; LBRACE] ++ body ++ [RBRACE; RBRACE])))
    as [[key n]|] eqn:E; [exfalso|reflexivity].
  apply match_var_inv in E as (ws1 & ws2 & r & E & H1 & Hk & H2 & _).
  destruct (no_rbrace_in_token_body ws1 key ws2 H1 Hk H2) as [Hnr Hall].
  unfold token in E. destruct i as [|[|i]]; cbn [drop app] in E.
  - injection E as E.
    rewrite !app_assoc in E. rewrite <- !app_assoc in E.
    replace (ws1 ++ key ++ ws2 ++ [RBRACE; RBRACE] ++ r)
      with ((ws1 ++ key ++ ws2) ++ RBRACE :: RBRACE :: r) in E
      by (rewrite <- !app_assoc; reflexivity).
    change (body ++ [RBRACE; RBRACE]) with (body ++ RBRACE :: [RBRACE]) in E.
    apply app_inv_at in E; [|exact Hr|exact Hnr]. subst body.
    apply existsb_exists in Hout as (c & Hc & Hout).
    rewrite forallb_forall in Hall. specialize (Hall c Hc).
    unfold outside_pattern in Hout.
    apply andb_true_iff in Hout as [Hw Hs].
    apply negb_true_iff in Hw, Hs. rewrite Hw, Hs in Hall. discriminate.
  - destruct body as [|b body]; cbn in E.
    + injection E as E _. discriminate.
    + injection E as -> _. apply Hl. left. reflexivity.
  - assert (Hin : In LBRACE (drop i (body ++ [RBRACE; RBRACE]))).
    { rewrite E. left. reflexivity. }
    apply list_elem_of_In in Hin.
    apply (subseteq_drop i (body ++ [RBRACE; RBRACE])) in Hin.
    apply list_elem_of_In, in_app_iff in Hin as [Hin|Hin]; [exact (Hl Hin)|].
    cbn in Hin. intuition discriminate.
Qed.

Lemma placeholder_outside_the_pattern_is_kept_witness :
  substitute_variables
    (row_of [("first-name", "Ada"); ("first", "Ada")]%string) []
    (u "{{first-name}}") io0
  = (u "{{first-name}}", io0).
Proof.
  apply (placeholder_outside_the_pattern_is_kept
           (row_of [("first-name", "Ada"); ("first", "Ada")]%string) []
           (u "first-name") io0).
  - vm_compute. reflexivity.
  - vm_compute. intuition discriminate.
  - vm_compute. intuition discriminate.
Defined.

(** ** [escapeForJS] *)

Lemma escapeForJS_cons (c : N) (s : text) :
  escapeForJS (c :: s) = escapeForJS [c] ++ escapeForJS s.
Proof. change (c :: s) with ([c] ++ s). apply escapeForJS_app. Qed.

Lemma escapeForJS_one_plain (c : N) :
  needs_escape c = false -> escapeForJS [c] = [c].
Proof.
  unfold needs_escape. intros H.
  apply orb_false_iff in H as [H Hcr]. apply orb_false_iff in H as [H Hlf].
  apply orb_false_iff in H as [Hsq Hdq].
  rewrite escapeForJS_one, Hsq, Hdq, Hlf, Hcr. reflexivity.
Qed.

Lemma escapeForJS_one_special (c : N) :
  needs_escape c = true ->
  exists e, escapeForJS [c] = [BACKSLASH; e] /\ e <> LF /\ e <> CR.
Proof.
  unfold needs_escape. intros H. rewrite escapeForJS_one.
  destruct (c =? SQUOTE)%N eqn:Hsq.
  { apply N.eqb_eq in Hsq as ->. exists SQUOTE. repeat split; discriminate. }
  destruct (c =? DQUOTE)%N eqn:Hdq.
  { apply N.eqb_eq in Hdq as ->. exists DQUOTE. repeat split; discriminate. }
  destruct (c =? LF)%N eqn:Hlf.
  { exists 110%N. repeat split; discriminate. }
  destruct (c =? CR)%N eqn:Hcr.
  { exists 114%N. repeat split; discriminate. }
  discriminate.
Qed.

Lemma escapeForJS_length (value : text) :
  length (escapeForJS value)
  = length value + length (List.filter needs_escape value).
Proof.
  induction value as [|c s IH]; [reflexivity|].
  rewrite escapeForJS_cons, length_app, IH. cbn [List.filter length].
  destruct (needs_escape c) eqn:E.
  - destruct (escapeForJS_one_special c E) as (e & -> & _). cbn [length]. lia.
  - rewrite (escapeForJS_one_plain c E). cbn [length]. lia.
Qed.

(** X14.  A value without a backslash, escaped by [escapeForJS] and put
    between two single or two double quotes, is read by JavaScript as one
    string literal that ends at the closing quote: what follows the
    literal is what followed the placeholder. *)
Theorem escaped_value_without_backslash_stays_quoted
    (q : N) (value rest : text) :
  q = SQUOTE \/ q = DQUOTE ->
  ~ In BACKSLASH value ->
  string_literal_rest q (escapeForJS value ++ q :: rest) = Some rest.
Proof. apply escapeForJS_stays_inside. Qed.

Lemma escaped_value_without_backslash_stays_quoted_witness :
  string_literal_rest SQUOTE
    (escapeForJS (u "O'Neil " ++ [DQUOTE] ++ u "Bikes" ++ [DQUOTE; CR; LF])
     ++ SQUOTE :: u ",")
  = Some (u ",").
Proof.
  apply (escaped_value_without_backslash_stays_quoted SQUOTE
           (u "O'Neil " ++ [DQUOTE] ++ u "Bikes" ++ [DQUOTE; CR; LF]) (u ",")).
  - left. reflexivity.
  - vm_compute. intuition discriminate.
Defined.

(** X15.  [escapeForJS] leaves no line feed and no carriage return in its
    result, and it returns its argument as it is exactly when the argument
    holds no quote and no line break; every such code unit makes the
    result one code unit longer. *)
Theorem escapeForJS_removes_line_breaks (value : text) :
  ~ In LF (escapeForJS value)
  /\ ~ In CR (escapeForJS value)
  /\ length (escapeForJS value)
     = length value + length (List.filter needs_escape value)
  /\ (escapeForJS value = value <-> existsb needs_escape value = false).
Proof.
  split; [|split; [|split]].
  - induction value as [|c s IH]; [intros []|].
    rewrite escapeForJS_cons, in_app_iff. intros [H|H]; [|exact (IH H)].
    destruct (needs_escape c) eqn:E.
    + destruct (escapeForJS_one_special c E) as (e & He & Hlf & _).
      rewrite He in H. cbn in H. intuition discriminate.
    + rewrite (escapeForJS_one_plain c E) in H. cbn in H.
      destruct H as [->|[]]. vm_compute in E. discriminate.
  - induction value as [|c s IH]; [intros []|].
    rewrite escapeForJS_cons, in_app_iff. intros [H|H]; [|exact (IH H)].
    destruct (needs_escape c) eqn:E.
    + destruct (escapeForJS_one_special c E) as (e & He & _ & Hcr).
      rewrite He in H. cbn in H. intuition discriminate.
    + rewrite (escapeForJS_one_plain c E) in H. cbn in H.
      destruct H as [->|[]]. vm_compute in E. discriminate.
  - apply escapeForJS_length.
  - split.
    + intros H. apply (f_equal (@length N)) in H.
      rewrite escapeForJS_length in H.
      destruct (List.filter needs_escape value) as [|c r] eqn:E;
        [|cbn [length] in H; lia].
      apply not_true_iff_false. intros Hex.
      apply existsb_exists in Hex as (c & Hc & Hn).
      assert (Hin : In c (List.filter needs_escape value))
        by (apply filter_In; auto).
      rewrite E in Hin. destruct Hin.
    + intros H. induction value as [|c s IH]; [reflexivity|].
      cbn [existsb] in H. apply orb_false_iff in H as [Hc Hs].
      rewrite escapeForJS_cons, (escapeForJS_one_plain c Hc), (IH Hs).
      reflexivity.
Qed.

(** ** Files and directories that cannot be processed *)



(** X17.  Started on a path that is not a directory, [processDirectory]
    rejects with the error of reading the directory, after one console
    line with the error's message: no file is read or written, and neither
    of the two lines with the count is printed. *)
Theorem processDirectory_reports_unreadable_directory
    (Math_random : nat -> unit_interval) (dirPath : path)
    (data : gmap text text) (extensions : list text) (w : World) :
  (forall name items, lookup_path dirPath (fs w) <> Some (Dir name items)) ->
  exists e,
    processDirectory Math_random dirPath data extensions w
    = (Thrown e,
       mkWorld (fs w) (emit (ErrorProcessingDirectory (message e)) (io w)))
    /\ (e = ENOENT dirPath \/ e = ENOTDIR dirPath).
Proof.
  intros Hdir.
  unfold processDirectory, getAllFiles, try_catch, bind, fs_readdir,
    console_out, throw.
  destruct (lookup_path dirPath (fs w)) as [[| |]|];
    try (eexists; split; [reflexivity|]; auto).
  exfalso. eapply Hdir. reflexivity.
Qed.

Lemma processDirectory_reports_unreadable_directory_witness :
  processDirectory first_choice [u "build"; u "a.test"] sample_row
    default_extensions world0
  = (Thrown (ENOENT [u "build"; u "a.test"]),
     mkWorld (fs world0)
       (emit (ErrorProcessingDirectory
                (u "ENOENT: no such file or directory, build/a.test"))
          (io world0))).
Proof.
  destruct (processDirectory_reports_unreadable_directory first_choice
              [u "build"; u "a.test"] sample_row default_extensions world0)
    as (e & Hrun & _).
  - intros name items H. vm_compute in H. discriminate.
  - rewrite Hrun. vm_compute in Hrun. injection Hrun as <- _.
    reflexivity.
Defined.

(** ** The name of the package *)

Lemma replace_char_one (c r : N) (s : text) :
  replace_char c [r] s = List.map (fun x => if (x =? c)%N then r else x) s.
Proof.
  unfold replace_char. induction s as [|x s IH]; [reflexivity|].
  cbn [flat_map List.map]. rewrite IH. destruct (x =? c)%N; reflexivity.
Qed.

Lemma ascii_lower_facts (c : N) :
  (c <? 128)%N = true -> c <> DOT ->
  let s := ascii_lower c in
  (s <? 128)%N = true /\ s <> DOT /\ in_range 65 90 s = false
  /\ (s =? DOT)%N = false /\ ascii_lower s = s.
Proof.
  intros Hc Hdot. cbv zeta. apply N.ltb_lt in Hc.
  assert (Hrange : forall x, in_range 65 90 x = true <-> (65 <= x <= 90)%N).
  { intros x. unfold in_range. rewrite andb_true_iff, !N.leb_le. tauto. }
  assert (Hout : forall x, ~ (65 <= x <= 90)%N -> in_range 65 90 x = false).
  { intros x Hx. apply not_true_iff_false. rewrite Hrange. exact Hx. }
  unfold ascii_lower, DOT in *.
  destruct (in_range 65 90 c) eqn:E.
  - apply Hrange in E.
    rewrite (Hout (c + 32)%N) by lia.
    repeat split; [apply N.ltb_lt; lia|lia|apply N.eqb_neq; lia].
  - assert (~ (65 <= c <= 90)%N) by (rewrite <- Hrange, E; discriminate).
    rewrite E.
    repeat split; [apply N.ltb_lt; lia|exact Hdot|apply N.eqb_neq; exact Hdot].
Qed.

Lemma slug_unit_facts (c : N) :
  (c <? 128)%N = true ->
  let s := ascii_lower (if (c =? DOT)%N then 45%N else c) in
  (s <? 128)%N = true /\ s <> DOT /\ in_range 65 90 s = false
  /\ ascii_lower (if (s =? DOT)%N then 45%N else s) = s.
Proof.
  intros Hc. cbv zeta.
  destruct (c =? DOT)%N eqn:E.
  - vm_compute. repeat split; discriminate.
  - apply N.eqb_neq in E.
    destruct (ascii_lower_facts c Hc E) as (H1 & H2 & H3 & H4 & H5).
    rewrite H4. auto.
Qed.

Lemma package_name_ascii (unicode_lower : text -> text) (domain : text) :
  forallb (fun c => (c <? 128)%N) domain = true ->
  package_name unicode_lower domain
  = List.map (fun c => ascii_lower (if (c =? DOT)%N then 45%N else c)) domain.
Proof.
  intros H. unfold package_name, toLowerCase. rewrite replace_char_one.
  rewrite List.map_map.
  replace (forallb _ (List.map _ domain)) with true; [reflexivity|].
  symmetry. apply forallb_forall. intros x Hx.
  apply in_map_iff in Hx as (c & <- & Hc).
  rewrite forallb_forall in H. specialize (H c Hc).
  destruct (c =? DOT)%N; [reflexivity|exact H].
Qed.

(** X18.  For a domain of ASCII code units the package name has the length
    of the domain, holds no dot and no capital letter, and is its own
    package name: a domain and the domain written with hyphens and small
    letters get the same name. *)
Theorem package_name_is_not_one_to_one
    (unicode_lower : text -> text) (domain : text) :
  forallb (fun c => (c <? 128)%N) domain = true ->
  let name := package_name unicode_lower domain in
  length name = length domain
  /\ ~ In DOT name
  /\ forallb (fun c => negb (in_range 65 90 c)) name = true
  /\ package_name unicode_lower name = name.
Proof.
  intros H. cbv zeta.
  assert (Hname := package_name_ascii unicode_lower domain H).
  assert (Hascii :
    forallb (fun c => (c <? 128)%N) (package_name unicode_lower domain) = true).
  { rewrite Hname. apply forallb_forall. intros x Hx.
    apply in_map_iff in Hx as (c & <- & Hc).
    rewrite forallb_forall in H. apply (slug_unit_facts c (H c Hc)). }
  split; [|split; [|split]].
  - rewrite Hname. apply length_map.
  - rewrite Hname. intros Hin. apply in_map_iff in Hin as (c & Hdot & Hc).
    rewrite forallb_forall in H.
    apply (proj1 (proj2 (slug_unit_facts c (H c Hc)))). exact Hdot.
  - rewrite Hname. apply forallb_forall. intros x Hx.
    apply in_map_iff in Hx as (c & <- & Hc).
    rewrite forallb_forall in H. apply negb_true_iff.
    apply (slug_unit_facts c (H c Hc)).
  - rewrite (package_name_ascii unicode_lower _ Hascii), Hname.
    rewrite List.map_map. apply map_ext_in. intros c Hc.
    rewrite forallb_forall in H. apply (slug_unit_facts c (H c Hc)).
Qed.

Lemma package_name_is_not_one_to_one_witness :
  package_name (fun s => s) (u "Shop.Example.com") = u "shop-example-com"
  /\ package_name (fun s => s) (u "shop-example-com") = u "shop-example-com".
Proof.
  destruct (package_name_is_not_one_to_one (fun s => s) (u "Shop.Example.com"))
    as (_ & _ & _ & Hsame); [reflexivity|].
  assert (Hname : package_name (fun s => s) (u "Shop.Example.com")
                  = u "shop-example-com") by (vm_compute; reflexivity).
  rewrite Hname in Hsame. split; [exact Hname|exact Hsame].
Defined.

(** ** The manifest *)

Lemma get_member_set_eq (key : text) (v : json) (members : list (text * json)) :
  get_member key (set_member key v members) = Some v.
Proof.
  induction members as [|[k x] rest IH]; cbn [set_member get_member].
  - rewrite bool_decide_eq_true_2 by reflexivity. reflexivity.
  - case_bool_decide as E; cbn [get_member].
    + rewrite bool_decide_eq_true_2 by exact E. reflexivity.
    + rewrite bool_decide_eq_false_2 by exact E. exact IH.
Qed.

Lemma get_member_set_ne (key other : text) (v : json)
    (members : list (text * json)) :
  other <> key ->
  get_member other (set_member key v members) = get_member other members.
Proof.
  intros Hne. induction members as [|[k x] rest IH]; cbn [set_member get_member].
  - rewrite bool_decide_eq_false_2 by congruence. reflexivity.
  - case_bool_decide as E; cbn [get_member].
    + subst k. rewrite !bool_decide_eq_false_2 by congruence. reflexivity.
    + rewrite IH. reflexivity.
Qed.

Lemma filter_set_member (keep : text -> bool) (key : text) (v : json)
    (members : list (text * json)) :
  keep key = false ->
  List.filter (fun kv => keep (fst kv)) (set_member key v members)
  = List.filter (fun kv => keep (fst kv)) members.
Proof.
  intros Hkeep.
  induction members as [|[k x] rest IH]; cbn [set_member List.filter fst].
  - rewrite Hkeep. reflexivity.
  - case_bool_decide as E; cbn [List.filter fst].
    + subst k. rewrite Hkeep. reflexivity.
    + rewrite IH. reflexivity.
Qed.

Lemma path_join_manifest (websitePath : path) :
  path_join websitePath (u "package.json") = websitePath ++ [u "package.json"].
Proof.
  unfold path_join.
  replace (split SLASH (u "package.json")) with [u "package.json"]
    by (vm_compute; reflexivity).
  cbn [fold_left]. unfold join_component.
  rewrite !bool_decide_eq_false_2 by (vm_compute; discriminate).
  reflexivity.
Qed.

Section ManifestFacts.
Variable JSON_parse : text -> option json.
Variable JSON_stringify : json -> text.
Variable unicode_lower : text -> text.

(** What the manifest step does when the manifest can be read. *)
Lemma updatePackageJson_read (domain : text) (websitePath : path)
    (w : World) (content : text) :
  read_file (websitePath ++ [u "package.json"]) (fs w) = Some content ->
  updatePackageJson JSON_parse JSON_stringify unicode_lower domain websitePath w
  = match JSON_parse content with
    | None =>
        (Thrown (Error (render (websitePath ++ [u "package.json"])
                        ++ u ": Unexpected token in JSON")), w)
    | Some value =>
        match assign value (u "name")
                (JString (package_name unicode_lower domain)) with
        | Thrown e => (Thrown e, w)
        | Ok value1 =>
            match assign value1 (u "homepage") (JString (homepage domain)) with
            | Thrown e => (Thrown e, w)
            | Ok value2 =>
                fs_writeFile (websitePath ++ [u "package.json"])
                  (JSON_stringify value2 ++ [LF]) w
            end
        end
    end.
Proof.
  intros Hread. unfold updatePackageJson. rewrite path_join_manifest.
  unfold read_file in Hread.
  unfold bind, fs_pathExists, fs_readJson, bind, fs_readFile, fs_writeJson,
    throw, ret.
  destruct (lookup_path (websitePath ++ [u "package.json"]) (fs w))
    as [[n c| |]|] eqn:El; try discriminate.
  injection Hread as ->.
  rewrite bool_decide_eq_true_2 by eauto. cbv beta iota. rewrite El.
  destruct (JSON_parse content) as [value|]; [|reflexivity].
  destruct (assign value (u "name") _) as [value1|e]; [|reflexivity].
  destruct (assign value1 (u "homepage") _) as [value2|e]; reflexivity.
Qed.
End ManifestFacts.

(** X19.  Where the manifest holds a JSON object, the manifest step leaves
    it with the members [name] and [homepage] set from the domain and with
    every other member as it was, in the order it was in; no other file
    changes. *)
Theorem manifest_keeps_its_other_members
    (JSON_parse : text -> option json) (JSON_stringify : json -> text)
    (unicode_lower : text -> text) (domain : text) (websitePath : path)
    (w : World) (content : text) (members : list (text * json)) :
  let manifest := websitePath ++ [u "package.json"] in
  read_file manifest (fs w) = Some content ->
  JSON_parse content = Some (JObject members) ->
  exists rewritten w',
    updatePackageJson JSON_parse JSON_stringify unicode_lower domain
      websitePath w = (Ok tt, w')
    /\ read_file manifest (fs w')
       = Some (JSON_stringify (JObject rewritten) ++ [LF])
    /\ get_member (u "name") rewritten
       = Some (JString (package_name unicode_lower domain))
    /\ get_member (u "homepage") rewritten
       = Some (JString (u "https://" ++ domain))
    /\ other_members rewritten = other_members members
    /\ (forall q, q <> manifest -> read_file q (fs w') = read_file q (fs w))
    /\ io w' = io w.
Proof.
  intros manifest Hread Hparse.
  rewrite (updatePackageJson_read _ _ _ _ _ _ _ Hread), Hparse.
  cbn [assign].
  set (rewritten :=
         set_member (u "homepage") (JString (homepage domain))
           (set_member (u "name") (JString (package_name unicode_lower domain))
              members)).
  destruct (overwrite_file_defined manifest content
              (JSON_stringify (JObject rewritten) ++ [LF]) (fs w) Hread)
    as [root' Ho].
  exists rewritten, (mkWorld root' (io w)).
  unfold fs_writeFile. fold manifest. rewrite Ho. cbn [fs io].
  split; [reflexivity|].
  split; [eapply read_after_overwrite, Ho|].
  split; [|split; [|split; [|split]]].
  - unfold rewritten. rewrite get_member_set_ne by (vm_compute; discriminate).
    apply get_member_set_eq.
  - unfold rewritten. apply get_member_set_eq.
  - pose (keep := fun k : text =>
                    negb (bool_decide (k = u "name"))
                    && negb (bool_decide (k = u "homepage"))).
    assert (H1 : keep (u "homepage") = false) by (vm_compute; reflexivity).
    assert (H2 : keep (u "name") = false) by (vm_compute; reflexivity).
    unfold rewritten, other_members.
    etransitivity; [exact (filter_set_member keep _ _ _ H1)|].
    exact (filter_set_member keep _ _ _ H2).
  - intros q Hq. eapply read_other_after_overwrite; eassumption.
  - reflexivity.
Qed.

Lemma manifest_keeps_its_other_members_witness :
  exists w',
    updatePackageJson flat_parse flat_stringify (fun s => s) (u "Good.Test")
      [u "build"; u "Good.Test"] staged_world = (Ok tt, w')
    /\ read_file [u "build"; u "Good.Test"; u "package.json"] (fs w')
       = Some ([123%N] ++ quoted (u "name") ++ u ":" ++ quoted (u "good-test")
               ++ u "," ++ quoted (u "description") ++ u ":"
               ++ quoted (u "{{ description }}") ++ u ","
               ++ quoted (u "homepage") ++ u ":"
               ++ quoted (u "https://Good.Test") ++ [125%N; LF]).
Proof.
  destruct (manifest_keeps_its_other_members flat_parse flat_stringify
              (fun s => s) (u "Good.Test") [u "build"; u "Good.Test"]
              staged_world package_json_template
              [ (u "name", JString (u "template"));
                (u "description", JString (u "{{ description }}")) ])
    as (rewritten & w' & Hrun & _).
  - reflexivity.
  - vm_compute. reflexivity.
  - exists w'. split; [exact Hrun|].
    vm_compute in Hrun. injection Hrun as <-. vm_compute. reflexivity.
Defined.

(** X20.  Where the manifest holds JSON that is not an object, the manifest
    step sets nothing.  For an array, a string, a number or a boolean the
    two assignments are lost and the value is written back as it was
    parsed; for [null] the first assignment throws, and the manifest is
    not written. *)
Theorem manifest_that_is_no_object_gets_no_name
    (JSON_parse : text -> option json) (JSON_stringify : json -> text)
    (unicode_lower : text -> text) (domain : text) (websitePath : path)
    (w : World) (content : text) (value : json) :
  let manifest := websitePath ++ [u "package.json"] in
  read_file manifest (fs w) = Some content ->
  JSON_parse content = Some value ->
  (forall members, value <> JObject members) ->
  match value with
  | JNull =>
      updatePackageJson JSON_parse JSON_stringify unicode_lower domain
        websitePath w
      = (Thrown (Error (u "Cannot set properties of null (setting 'name')")),
         w)
  | _ =>
      exists root',
        overwrite_file manifest (JSON_stringify value ++ [LF]) (fs w)
        = Some root'
        /\ updatePackageJson JSON_parse JSON_stringify unicode_lower domain
             websitePath w
           = (Ok tt, mkWorld root' (io w))
  end.
Proof.
  intros manifest Hread Hparse Hobject.
  rewrite (updatePackageJson_read _ _ _ _ _ _ _ Hread), Hparse.
  destruct (overwrite_file_defined manifest content
              (JSON_stringify value ++ [LF]) (fs w) Hread) as [root' Ho].
  assert (Hwrite :
    fs_writeFile manifest (JSON_stringify value ++ [LF]) w
    = (Ok tt, mkWorld root' (io w))).
  { unfold fs_writeFile. rewrite Ho. reflexivity. }
  fold manifest.
  destruct value; cbn [assign];
    try (exists root'; split; [exact Ho|exact Hwrite]).
  - reflexivity.
  - exfalso. eapply Hobject. reflexivity.
Qed.

Lemma manifest_that_is_no_object_gets_no_name_witness :
  let parse := fun _ : text => Some (JArray []) in
  exists root',
    overwrite_file [u "build"; u "Good.Test"; u "package.json"]
      (u "[]" ++ [LF]) (fs staged_world) = Some root'
    /\ updatePackageJson parse flat_stringify (fun s => s) (u "Good.Test")
         [u "build"; u "Good.Test"] staged_world
       = (Ok tt, mkWorld root' (io staged_world)).
Proof.
  exact (manifest_that_is_no_object_gets_no_name
           (fun _ => Some (JArray [])) flat_stringify (fun s => s)
           (u "Good.Test") [u "build"; u "Good.Test"] staged_world
           package_json_template (JArray []) eq_refl eq_refl
           ltac:(discriminate)).
Defined.

(** X21.  When the manifest step rejects (the manifest is a directory, does
    not parse, is [null]), it has changed nothing: the world is as it was
    before the step. *)
Theorem failed_manifest_step_changes_nothing
    (JSON_parse : text -> option json) (JSON_stringify : json -> text)
    (unicode_lower : text -> text) (domain : text) (websitePath : path)
    (w w' : World) (e : error) :
  updatePackageJson JSON_parse JSON_stringify unicode_lower domain
    websitePath w = (Thrown e, w') ->
  w' = w.
Proof.
  unfold updatePackageJson, bind, fs_pathExists, fs_readJson, bind,
    fs_readFile, fs_writeJson, fs_writeFile, throw, ret.
  destruct (bool_decide _); [|discriminate].
  destruct (lookup_path _ (fs w)) as [[n c| |]|];
    try (intros [= _ <-]; reflexivity).
  destruct (JSON_parse c) as [value|]; [|intros [= _ <-]; reflexivity].
  destruct (assign value _ _) as [value1|e1];
    [|intros [= _ <-]; reflexivity].
  destruct (assign value1 _ _) as [value2|e2];
    [|intros [= _ <-]; reflexivity].
  destruct (overwrite_file _ _ _); [discriminate|].
  intros [= _ <-]. reflexivity.
Qed.

Lemma failed_manifest_step_changes_nothing_witness :
  let parse := fun _ : text => @None json in
  snd (updatePackageJson parse flat_stringify (fun s => s) (u "Good.Test")
         [u "build"; u "Good.Test"] staged_world)
  = staged_world.
Proof.
  exact (failed_manifest_step_changes_nothing (fun _ => None) flat_stringify
           (fun s => s) (u "Good.Test") [u "build"; u "Good.Test"]
           staged_world _ _ eq_refl).
Defined.

(** ** The build tool *)

(** X22.  When [npm install] fails, [install_and_build] rejects with the
    error of the command, unchanged, after the message has gone to the
    console twice; the file system is as the failed command left it, and
    [npm run build] is not run. *)
Theorem failed_install_skips_the_build
    (execSync : text -> path -> entry -> outcome text * entry)
    (domain : text) (websitePath : path) (w : World) (e : error)
    (root1 : entry) :
  execSync (u "npm install --silent") websitePath (fs w) = (Thrown e, root1) ->
  install_and_build execSync domain websitePath w
  = (Thrown e,
     say [ LogConsole (u "Installing dependencies...");
           LogConsole (u "Executing: npm install --silent");
           ErrorConsole (u "Command failed: npm install --silent");
           ErrorConsole (message e);
           ErrorConsole (u "Error installing dependencies: " ++ message e) ]
       (mkWorld root1 (io w))).
Proof.
  intros Hnpm.
  unfold install_and_build, installDependencies, execCommand, bind,
    try_catch, console_out, lift_fs, throw, say, emit.
  cbn [fs io console rand_calls]. rewrite Hnpm. cbn [fs io console rand_calls].
  rewrite <- !app_assoc. reflexivity.
Qed.

Lemma failed_install_skips_the_build_witness :
  fst (install_and_build sample_npm (u "bad.test") [u "build"; u "bad.test"]
         staged_world)
  = Thrown (Error (u "npm ERR! code E404")).
Proof.
  rewrite (failed_install_skips_the_build sample_npm (u "bad.test")
             [u "build"; u "bad.test"] staged_world
             (Error (u "npm ERR! code E404")) (fs staged_world)).
  - reflexivity.
  - vm_compute. reflexivity.
Defined.

(** ** What [buildWebsite] removes *)

Lemma remove_path_name (p : path) (e : entry) :
  entry_name (remove_path p e) = entry_name e.
Proof.
  destruct p as [|name [|next p]]; destruct e as [| d items |];
    try reflexivity.
  cbn [remove_path]. destruct (find_entry name items); reflexivity.
Qed.

Lemma find_entry_del (name : text) (items : list entry) :
  find_entry name (del_entry name items) = None.
Proof.
  unfold del_entry.
  etransitivity;
    [exact (find_entry_filter_name
              (fun n => negb (bool_decide (n = name))) name items)|].
  cbv beta. rewrite bool_decide_eq_true_2 by reflexivity. reflexivity.
Qed.

(** After [fs.remove] nothing is at the path. *)
Lemma lookup_after_remove (p : path) (e : entry) :
  p <> [] -> lookup_path p (remove_path p e) = None.
Proof.
  revert e; induction p as [|name p IH]; intros e Hp; [contradiction|].
  destruct e as [n c | d items | n].
  - destruct p; reflexivity.
  - destruct p as [|next p].
    + cbn [remove_path lookup_path]. rewrite find_entry_del. reflexivity.
    + cbn [remove_path].
      destruct (find_entry name items) as [sub|] eqn:Ef.
      * cbn [lookup_path].
        assert (Hn : entry_name (remove_path (next :: p) sub) = name).
        { rewrite remove_path_name. eapply find_entry_name, Ef. }
        rewrite <- Hn at 1. rewrite find_set_entry_eq.
        apply IH. discriminate.
      * cbn [lookup_path]. rewrite Ef. reflexivity.
  - destruct p; reflexivity.
Qed.

(** X23.  When the template is not there, [buildWebsite] ends with a failed
    result that carries the error of the copy.  By then it has made the
    output directory and removed what was at the path of the website: a
    site built before is gone, and nothing has taken its place. *)
Theorem missing_template_still_removes_the_site
    (Math_random : nat -> unit_interval)
    (JSON_parse : text -> option json) (JSON_stringify : json -> text)
    (unicode_lower : text -> text)
    (execSync : text -> path -> entry -> outcome text * entry)
    (domain : text) (data : gmap text text) (templatePath outputPath : path)
    (w : World) (root1 : entry) :
  let websitePath := path_join outputPath domain in
  mkdirs outputPath (fs w) = Some root1 ->
  lookup_path templatePath (remove_path websitePath root1) = None ->
  websitePath <> [] ->
  exists w',
    buildWebsite Math_random JSON_parse JSON_stringify unicode_lower execSync
      (Some domain) data templatePath outputPath w
    = (Ok (Failed domain (message (ENOENT templatePath))), w')
    /\ fs w' = remove_path websitePath root1
    /\ lookup_path websitePath (fs w') = None
    /\ console (io w')
       = console (io w)
         ++ [ LogBuildingWebsite domain;
              LogConsole (u "Copying template files...");
              ErrorBuildFailed domain (message (ENOENT templatePath)) ].
Proof.
  intros websitePath Hmk Htemplate Hsite.
  unfold buildWebsite. fold websitePath.
  unfold try_catch, build_steps, bind, materialize, bind, console_out,
    fs_ensureDir, fs_remove, fs_copy, lift_fs, copy_tree, build_failed, bind,
    console_out, ret, emit.
  cbn [fs io console rand_calls]. rewrite Hmk.
  cbn [fs io console rand_calls]. rewrite Htemplate.
  cbn [fs io console rand_calls].
  eexists. split; [reflexivity|]. cbn [fs io console rand_calls].
  split; [reflexivity|]. split; [apply lookup_after_remove, Hsite|].
  rewrite <- !app_assoc. reflexivity.
Qed.

Lemma missing_template_still_removes_the_site_witness :
  exists w',
    buildWebsite first_choice flat_parse flat_stringify (fun s => s) sample_npm
      (Some (u "Good.Test")) sample_row [u "templates"] [u "build"]
      staged_world
    = (Ok (Failed (u "Good.Test")
             (u "ENOENT: no such file or directory, templates")), w')
    /\ lookup_path [u "build"; u "Good.Test"] (fs staged_world)
       = Some (Dir (u "Good.Test")
                 [File (u "package.json") package_json_template])
    /\ lookup_path [u "build"; u "Good.Test"] (fs w') = None.
Proof.
  destruct (missing_template_still_removes_the_site first_choice flat_parse
              flat_stringify (fun s => s) sample_npm (u "Good.Test")
              sample_row [u "templates"] [u "build"] staged_world
              (fs staged_world))
    as (w' & Hrun & _ & Hgone & _).
  - vm_compute. reflexivity.
  - vm_compute. reflexivity.
  - vm_compute. discriminate.
  - exists w'. split; [exact Hrun|]. split; [reflexivity|exact Hgone].
Defined.

(** X24.  A domain that [path.join] takes back to the output directory
    itself, as the domain [.] does, makes the copy step work on the output
    directory: what the directory held, the sites built before among it, is
    removed, and the directory becomes the copy of the template. *)
Theorem domain_that_names_the_output_directory
    (domain : text) (templatePath outputPath : path) (w w' : World) :
  path_join outputPath domain = outputPath ->
  outputPath <> [] ->
  materialize domain templatePath outputPath (path_join outputPath domain) w
  = (Ok tt, w') ->
  exists root1 template,
    mkdirs outputPath (fs w) = Some root1
    /\ lookup_path templatePath (remove_path outputPath root1) = Some template
    /\ lookup_path outputPath (fs w')
       = Some (rename (List.last outputPath [])
                 (copy_entry (copy_filter templatePath) templatePath template)).
Proof.
  intros -> Hout.
  unfold materialize, bind, console_out, fs_ensureDir, fs_remove, fs_copy,
    lift_fs.
  cbn [fs io].
  destruct (mkdirs outputPath (fs w)) as [root1|]; [|discriminate].
  cbn [fs io].
  destruct (copy_tree templatePath outputPath (copy_filter templatePath)
              (remove_path outputPath root1)) as [root2|e] eqn:Ecopy;
    [|discriminate].
  intros [= <-]. cbn [fs].
  destruct (lookup_path templatePath (remove_path outputPath root1))
    as [template|] eqn:El.
  - exists root1, template. split; [reflexivity|]. split; [exact El|].
    eapply copy_tree_places_copy; try eassumption. apply copy_filter_root.
  - unfold copy_tree in Ecopy. rewrite El in Ecopy. discriminate.
Qed.

Lemma domain_that_names_the_output_directory_witness :
  let w :=
    mkWorld (Dir [] [ Dir (u "build") [ Dir (u "old.test") [] ];
                      Dir (u "src") [ sample_template ] ]) io0 in
  lookup_path [u "build"; u "old.test"] (fs w) = Some (Dir (u "old.test") [])
  /\ exists w',
       materialize (u ".") [u "src"; u "template"] [u "build"]
         (path_join [u "build"] (u ".")) w = (Ok tt, w')
       /\ lookup_path [u "build"; u "old.test"] (fs w') = None
       /\ is_Some (lookup_path [u "build"; u "src"; u "App.js"] (fs w')).
Proof.
  cbv zeta. split; [reflexivity|].
  set (w := mkWorld _ io0).
  destruct (materialize (u ".") [u "src"; u "template"] [u "build"]
              (path_join [u "build"] (u ".")) w) as [[[]|e] w'] eqn:Erun;
    [|vm_compute in Erun; discriminate].
  exists w'. split; [reflexivity|].
  destruct (domain_that_names_the_output_directory (u ".")
              [u "src"; u "template"] [u "build"] w w')
    as (root1 & template & Hmk & Htemplate & Hcopy);
    [vm_compute; reflexivity|discriminate|exact Erun|].
  vm_compute in Hmk. injection Hmk as <-.
  vm_compute in Htemplate. injection Htemplate as <-.
  change [u "build"; u "old.test"] with ([u "build"] ++ [u "old.test"]).
  change [u "build"; u "src"; u "App.js"]
    with ([u "build"] ++ [u "src"; u "App.js"]).
  rewrite !lookup_path_app, Hcopy. vm_compute. eauto.
Defined.

(** ** The entry point *)

Lemma say_nil (w : World) : say [] w = w.
Proof. destruct w as [root [c r]]. unfold say. cbn. rewrite app_nil_r. reflexivity. Qed.

Lemma say_say (l1 l2 : list console_event) (w : World) :
  say l2 (say l1 w) = say (l1 ++ l2) w.
Proof. unfold say. cbn. rewrite app_assoc. reflexivity. Qed.

Lemma log_run (line : text) (w : World) :
  log line w = (Ok tt, say [LogConsole line] w).
Proof. reflexivity. Qed.

Lemma log_error_run (line : text) (w : World) :
  log_error line w = (Ok tt, say [ErrorConsole line] w).
Proof. reflexivity. Qed.

Lemma console_out_run (e : console_event) (w : World) :
  console_out e w = (Ok tt, say [e] w).
Proof. reflexivity. Qed.

Lemma pathExists_run (p : path) (w : World) :
  fs_pathExists p w = (Ok (bool_decide (is_Some (lookup_path p (fs w)))), w).
Proof. reflexivity. Qed.

Lemma for_of_log {A} (xs : list A) (line : A -> text) (w : World) :
  for_of xs (fun x => log (line x)) w
  = (Ok tt, say (List.map (fun x => LogConsole (line x)) xs) w).
Proof.
  revert w; induction xs as [|x xs IH]; intros w; cbn [for_of List.map].
  - unfold ret. rewrite say_nil. reflexivity.
  - rewrite (bind_run _ _ _ _ _ (log_run _ _)), IH, say_say. reflexivity.
Qed.

Lemma bind_bind {A B C} (m : M A) (k1 : A -> M B) (k2 : B -> M C)
    (w : World) :
  bind (bind m k1) k2 w = bind m (fun a => bind (k1 a) k2) w.
Proof. unfold bind. destruct (m w) as [[a|e] w1]; reflexivity. Qed.

Lemma bind_ret {A B} (a : A) (k : A -> M B) (w : World) :
  bind (ret a) k w = k a w.
Proof. reflexivity. Qed.

Ltac step_log :=
  first [ rewrite (bind_run _ _ _ _ _ (log_run _ _))
        | rewrite (bind_run _ _ _ _ _ (log_error_run _ _))
        | rewrite (bind_run _ _ _ _ _ (for_of_log _ _ _))
        | rewrite (bind_run _ _ _ _ _ (console_out_run _ _)) ];
  rewrite ?say_say.

Section ParserRuns.
Variable papa_parse :
  (text -> text -> text) -> text -> list (gmap text text) * list parse_error.

(** The outcome of [parseCSV] is a matter of the file system alone, and
    its one console line is a matter of the outcome. *)
Lemma parseCSV_fst (filepath : text) (w1 w2 : World) :
  fs w1 = fs w2 ->
  fst (parseCSV papa_parse filepath w1) = fst (parseCSV papa_parse filepath w2).
Proof.
  intros E. rewrite !parseCSV_cases. cbv zeta. rewrite E.
  destruct (lookup_path (to_path filepath) (fs w2)) as [[n c| |]|];
    try reflexivity.
  destruct (bool_decide (trim c = [])); [reflexivity|].
  destruct (papa_parse transform c) as [data errors].
  destruct (0 <? length errors); [reflexivity|].
  destruct (length data =? 0); [reflexivity|].
  destruct (0 <? length (missingFields data)); reflexivity.
Qed.

Lemma parseCSV_run (filepath : text) (w : World) :
  parseCSV papa_parse filepath w
  = (fst (parseCSV papa_parse filepath w),
     say [parse_line (fst (parseCSV papa_parse filepath w))] w).
Proof.
  rewrite parseCSV_cases. cbv zeta.
  destruct (lookup_path (to_path filepath) (fs w)) as [[n c| |]|];
    try reflexivity.
  destruct (bool_decide (trim c = [])); [reflexivity|].
  destruct (papa_parse transform c) as [data errors].
  destruct (0 <? length errors); [reflexivity|].
  destruct (length data =? 0); [reflexivity|].
  destruct (0 <? length (missingFields data)); reflexivity.
Qed.

Lemma parseCSV_Ok_present (filepath : text) (w : World)
    (data : list (gmap text text)) :
  fst (parseCSV papa_parse filepath w) = Ok data ->
  is_Some (lookup_path (to_path filepath) (fs w)).
Proof.
  rewrite parseCSV_cases. cbv zeta.
  destruct (lookup_path (to_path filepath) (fs w)); [eauto|discriminate].
Qed.
End ParserRuns.

Section GeneratorFacts.
Variable Math_random : nat -> unit_interval.
Variable JSON_parse : text -> option json.
Variable JSON_stringify : json -> text.
Variable unicode_lower : text -> text.
Variable execSync : text -> path -> entry -> outcome text * entry.
Variable papa_parse :
  (text -> text -> text) -> text -> list (gmap text text) * list parse_error.
Variable cwd : path.
Variable env : text -> option text.
Variable show_parseInt : text -> text.
Variable now : text.
Variable duration : text.
Variable stack : error -> text.

Abbreviation config' := (config env show_parseInt).
Abbreviation generate_steps' :=
  (generate_steps Math_random JSON_parse JSON_stringify unicode_lower execSync
     papa_parse cwd env show_parseInt now duration).
Abbreviation generate' :=
  (generate Math_random JSON_parse JSON_stringify unicode_lower execSync
     papa_parse cwd env show_parseInt now duration stack).

Lemma print_results_run (results : list build_result) (w : World) :
  exists lines,
    print_results cwd env show_parseInt duration results w
    = (Ok tt, say lines w).
Proof.
  unfold print_results. repeat step_log.
  destruct (0 <? length (List.filter (fun r => negb (success r)) results));
    cbv iota.
  - rewrite bind_bind. repeat step_log.
    destruct (0 <? length (List.filter success results)); cbv iota.
    + step_log. rewrite for_of_log, say_say. eauto.
    + unfold ret. eauto.
  - rewrite bind_ret. repeat step_log.
    destruct (0 <? length (List.filter success results)); cbv iota.
    + step_log. rewrite for_of_log, say_say. eauto.
    + unfold ret. eauto.
Qed.

Lemma generate_failed_run (e : error) (w : World) :
  exists lines, generate_failed env stack e w = (Ok (Exited 1), say lines w).
Proof.
  unfold generate_failed. repeat step_log.
  destruct (bool_decide (env (u "NODE_ENV") = Some (u "development")));
    cbv iota.
  - rewrite bind_bind. repeat step_log. unfold ret. eauto.
  - rewrite bind_ret. unfold ret. eauto.
Qed.

(** Where the body of the [try] is left with an error, [generate] exits. *)
Lemma generate_exits (w w1 : World) (e : error) :
  generate_steps'
    (say [LogConsole ([LF] ++ ROCKET ++ u " CSV to Multi-Website Generator"
                      ++ [LF])] w)
  = (Thrown e, w1) ->
  exists lines, generate' w = (Ok (Exited 1), say lines w1).
Proof.
  intros H. unfold generate. step_log. unfold try_catch. rewrite H.
  apply generate_failed_run.
Qed.

Lemma generate_returns (w w1 : World) (t : termination) :
  generate_steps'
    (say [LogConsole ([LF] ++ ROCKET ++ u " CSV to Multi-Website Generator"
                      ++ [LF])] w)
  = (Ok t, w1) ->
  generate' w = (Ok t, w1).
Proof.
  intros H. unfold generate. step_log. unfold try_catch. rewrite H.
  reflexivity.
Qed.
End GeneratorFacts.

Section GeneratorRuns.
Variable Math_random : nat -> unit_interval.
Variable JSON_parse : text -> option json.
Variable JSON_stringify : json -> text.
Variable unicode_lower : text -> text.
Variable execSync : text -> path -> entry -> outcome text * entry.
Variable papa_parse :
  (text -> text -> text) -> text -> list (gmap text text) * list parse_error.
Variable cwd : path.
Variable env : text -> option text.
Variable show_parseInt : text -> text.
Variable now : text.
Variable duration : text.
Variable stack : error -> text.

Abbreviation the_config := (config env show_parseInt).
Abbreviation run_steps :=
  (generate_steps Math_random JSON_parse JSON_stringify unicode_lower execSync
     papa_parse cwd env show_parseInt now duration).
Abbreviation run :=
  (generate Math_random JSON_parse JSON_stringify unicode_lower execSync
     papa_parse cwd env show_parseInt now duration stack).

Lemma generate_steps_Ok (w w1 : World) (t : termination) :
  run_steps w = (Ok t, w1) -> t = Returned.
Proof.
  unfold generate_steps. intros H.
  do 5 (apply bind_Ok in H as (? & ? & _ & H)).
  apply bind_Ok in H as (csvPresent & ? & _ & H).
  destruct (negb csvPresent); [discriminate|].
  apply bind_Ok in H as (templatePresent & ? & _ & H).
  destruct (negb templatePresent); [discriminate|].
  do 10 (apply bind_Ok in H as (? & ? & _ & H)).
  unfold ret in H. congruence.
Qed.

(** X25.  [generate] never rejects: a call either returns, or ends the
    process with the exit code 1. *)
Theorem generate_never_rejects (w : World) :
  exists t w', run w = (Ok t, w') /\ (t = Returned \/ t = Exited 1).
Proof.
  destruct (run_steps
              (say [LogConsole ([LF] ++ ROCKET
                                ++ u " CSV to Multi-Website Generator"
                                ++ [LF])] w)) as [[t|e] w1] eqn:E.
  - exists t, w1. split.
    + apply generate_returns, E.
    + left. eapply generate_steps_Ok, E.
  - destruct (generate_exits Math_random JSON_parse JSON_stringify
                unicode_lower execSync papa_parse cwd env show_parseInt now
                duration stack w w1 e E) as [lines Hrun].
    eauto.
Qed.

(** X26.  When the template directory is not there, or [parseCSV] does not
    resolve on the configured file (the file is missing, blank, does not
    parse, or a row lacks a required field), [generate] ends the process
    with the exit code 1 and the file system is as it was: the build
    directory of an earlier run is not cleaned. *)
Theorem generate_keeps_the_files_when_the_csv_is_bad (w : World) :
  lookup_path (to_path (templatePath the_config)) (fs w) = None
  \/ (forall data,
        fst (parseCSV papa_parse (csvPath the_config) w) <> Ok data) ->
  exists w', run w = (Ok (Exited 1), w') /\ fs w' = fs w.
Proof.
  intros Hbad.
  assert (Hsteps : exists e w1,
    run_steps
      (say [LogConsole ([LF] ++ ROCKET ++ u " CSV to Multi-Website Generator"
                        ++ [LF])] w) = (Thrown e, w1)
    /\ fs w1 = fs w).
  { unfold generate_steps. repeat step_log.
    rewrite (bind_run _ _ _ _ _ (pathExists_run _ _)).
    destruct (bool_decide (is_Some (lookup_path (to_path (csvPath the_config)) _)));
      cbn [negb]; [|unfold throw; eauto].
    rewrite (bind_run _ _ _ _ _ (pathExists_run _ _)).
    case_bool_decide as Htemplate; cbn [negb]; [|unfold throw; eauto].
    step_log.
    match goal with
    | |- context [bind (parseCSV papa_parse ?f) ?k ?w0] =>
        pose proof (parseCSV_run papa_parse f w0) as Hrun;
        pose proof (parseCSV_fst papa_parse f w0 w eq_refl) as Hfst;
        destruct (fst (parseCSV papa_parse f w0)) as [data|e] eqn:E
    end.
    - exfalso. destruct Hbad as [Hbad|Hbad].
      + cbn [fs say] in Htemplate. rewrite Hbad in Htemplate.
        destruct Htemplate; discriminate.
      + apply (Hbad data). symmetry. exact Hfst.
    - rewrite (bind_thrown _ _ _ _ _ Hrun). eauto. }
  destruct Hsteps as (e & w1 & Hsteps & Hfs).
  destruct (generate_exits Math_random JSON_parse JSON_stringify unicode_lower
              execSync papa_parse cwd env show_parseInt now duration stack
              w w1 e Hsteps) as [lines Hrun].
  exists (say lines w1). split; [exact Hrun|exact Hfs].
Qed.

(** X27.  Once the rows are parsed, the template is there and the build
    directory could be cleaned and made, how [generate] ends is decided by
    the write of the summary alone: the websites are all built, each to a
    result, and [generate] returns if the summary can be written and exits
    with code 1 if not, whether the websites succeeded or failed. *)
Theorem generate_ends_by_the_summary_alone
    (w : World) (websites : list (gmap text text)) (root1 : entry) :
  let templateDir := to_path (templatePath the_config) in
  let buildDir := to_path (buildPath the_config) in
  fst (parseCSV papa_parse (csvPath the_config) w) = Ok websites ->
  is_Some (lookup_path templateDir (fs w)) ->
  mkdirs buildDir (remove_path buildDir (fs w)) = Some root1 ->
  exists results w3 w',
    buildWebsitesSequential Math_random JSON_parse JSON_stringify
      unicode_lower execSync websites templateDir buildDir
      (say (opening_lines the_config websites) (mkWorld root1 (io w)))
    = (Ok results, w3)
    /\ length results = length websites
    /\ run w
       = (Ok (ends_as (write_file (buildDir ++ [u "build-summary.md"])
                         (summaryContent cwd now results) (fs w3))), w').
Proof.
  intros templateDir buildDir Hparse Htemplate Hmk.
  assert (Hdom : Forall (fun website => is_Some (website !! u "domain")) websites).
  { pose proof (parseCSV_run papa_parse (csvPath the_config) w) as Hrun.
    rewrite Hparse in Hrun. apply parseCSV_Ok_rows in Hrun as [_ Hrows].
    apply List.Forall_forall. intros row Hrow.
    destruct (Hrows row (u "domain") Hrow) as (v & Hv & _);
      [left; reflexivity|eauto]. }
  destruct (buildWebsitesSequential_total Math_random JSON_parse
              JSON_stringify unicode_lower execSync websites templateDir
              buildDir
              (say (opening_lines the_config websites) (mkWorld root1 (io w)))
              Hdom) as (results & w3 & Hbuild & Hall).
  exists results, w3.
  assert (Hsteps :
    run_steps
      (say [LogConsole ([LF] ++ ROCKET ++ u " CSV to Multi-Website Generator"
                        ++ [LF])] w)
    = match write_file (buildDir ++ [u "build-summary.md"])
              (summaryContent cwd now results) (fs w3) with
      | Ok root4 =>
          bind (print_results cwd env show_parseInt duration results)
            (fun _ => ret Returned)
            (say [LogConsole ([LF] ++ BAR_CHART
                              ++ u " Build summary saved to: "
                              ++ render (buildDir ++ [u "build-summary.md"]))]
               (mkWorld root4 (io w3)))
      | Thrown e => (Thrown e, w3)
      end).
  { unfold generate_steps. repeat step_log.
    rewrite (bind_run _ _ _ _ _ (pathExists_run _ _)).
    rewrite bool_decide_eq_true_2
      by exact (parseCSV_Ok_present papa_parse _ w _ Hparse).
    cbn [negb].
    rewrite (bind_run _ _ _ _ _ (pathExists_run _ _)).
    rewrite bool_decide_eq_true_2 by exact Htemplate. cbn [negb].
    step_log.
    match goal with
    | |- context [bind (parseCSV papa_parse ?f) ?k ?w0] =>
        pose proof (parseCSV_run papa_parse f w0) as Hrun;
        rewrite (parseCSV_fst papa_parse f w0 w eq_refl), Hparse in Hrun;
        rewrite (bind_run _ _ _ _ _ Hrun)
    end.
    rewrite say_say. step_log.
    unfold fs_remove at 1, fs_ensureDir at 1, lift_fs.
    unfold bind at 1. unfold bind at 1. cbn [fs io say].
    fold buildDir. rewrite Hmk.
    change (mkWorld root1
              (mkIO (console (io w) ++ ?l) (rand_calls (io w))))
      with (say l (mkWorld root1 (io w))).
    repeat step_log. fold templateDir.
    cbn [app]. fold (opening_lines the_config websites).
    rewrite (bind_run _ _ _ _ _ Hbuild).
    unfold generateBuildSummary. rewrite path_join_summary.
    rewrite !bind_bind.
    unfold fs_writeFile_any at 1, lift_fs. unfold bind at 1.
    destruct (write_file (buildDir ++ [u "build-summary.md"])
                (summaryContent cwd now results) (fs w3)) as [root4|e];
      [|destruct w3; reflexivity].
    rewrite bind_bind. step_log. rewrite bind_ret. reflexivity. }
  destruct (write_file (buildDir ++ [u "build-summary.md"])
              (summaryContent cwd now results) (fs w3)) as [root4|e];
    cbn [ends_as].
  - match type of Hsteps with
    | _ = bind _ _ ?w4 =>
        destruct (print_results_run cwd env show_parseInt duration results w4)
          as [lines Hprint]
    end.
    rewrite (bind_run _ _ _ _ _ Hprint) in Hsteps.
    eexists. split; [exact Hbuild|]. split.
    + symmetry. eapply Forall2_length, Hall.
    + eapply generate_returns, Hsteps.
  - destruct (generate_exits Math_random JSON_parse JSON_stringify
                unicode_lower execSync papa_parse cwd env show_parseInt now
                duration stack w w3 e Hsteps) as [lines Hrun].
    eexists. split; [exact Hbuild|]. split.
    + symmetry. eapply Forall2_length, Hall.
    + exact Hrun.
Qed.
End GeneratorRuns.

Lemma generate_keeps_the_files_when_the_csv_is_bad_witness :
  exists w',
    sample_generate (csv_world sample_csv_incomplete) = (Ok (Exited 1), w')
    /\ fs w' = fs (csv_world sample_csv_incomplete).
Proof.
  apply (generate_keeps_the_files_when_the_csv_is_bad first_choice flat_parse
           flat_stringify (fun s => s) sample_npm sample_papa
           [u "home"; u "me"] (fun _ => None) (fun s => s)
           (u "2024-01-01T00:00:00.000Z") (u "0.42") (fun e => message e)
           (csv_world sample_csv_incomplete)).
  right. intros data H. vm_compute in H. discriminate.
Defined.

Lemma generate_ends_by_the_summary_alone_witness :
  fst (sample_generate (csv_world sample_csv)) = Ok Returned
  /\ In (ErrorBuildFailed (u "bad.test") (u "npm ERR! code E404"))
       (console (io (snd (sample_generate (csv_world sample_csv))))).
Proof.
  split.
  - edestruct (generate_ends_by_the_summary_alone first_choice flat_parse
                 flat_stringify (fun s => s) sample_npm sample_papa
                 [u "home"; u "me"] (fun _ => None) (fun s => s)
                 (u "2024-01-01T00:00:00.000Z") (u "0.42")
                 (fun e => message e) (csv_world sample_csv)
                 [website "bad.test" "B"; website "good.test" "G"])
      as (results & w3 & w' & Hbuild & _ & Hrun).
    + vm_compute. reflexivity.
    + vm_compute. eauto.
    + vm_compute. reflexivity.
    + unfold sample_generate. rewrite Hrun. cbn [fst].
      vm_compute in Hbuild. injection Hbuild as <- <-.
      vm_compute. reflexivity.
  - vm_compute. tauto.
Defined.

(** ** Where a website is put *)





(** ** Validated rows and the placeholders of the store *)

(** X29.  For a row that [parseCSV] has let pass, a placeholder for any of
    the five required fields is always filled: the variable pass puts the
    value of the field, which is not blank, in its place (escaped in a
    script file) and writes no warning. *)
Theorem parsed_rows_fill_the_required_placeholders
    (papa_parse : (text -> text -> text) -> text
                  -> list (gmap text text) * list parse_error)
    (filepath : text) (w w' : World) (data : list (gmap text text))
    (row : gmap text text) (key filePath ws1 ws2 : text) (io : IO) :
  parseCSV papa_parse filepath w = (Ok data, w') ->
  In row data -> In key requiredFields ->
  is_blank ws1 = true -> is_blank ws2 = true ->
  exists value,
    row !! key = Some value
    /\ trim value <> []
    /\ substitute_variables row filePath (token ws1 key ws2) io
       = (if is_js_file filePath then escapeForJS value else value, io).
Proof.
  intros Hparse Hrow Hkey H1 H2.
  apply parseCSV_Ok_rows in Hparse as [_ Hrows].
  destruct (Hrows row key Hrow Hkey) as (value & Hvalue & Hne).
  exists value. split; [exact Hvalue|]. split; [exact Hne|].
  assert (Hid : is_identifier key = true).
  { cbn in Hkey. intuition (subst; vm_compute; reflexivity). }
  pose proof (substitute_variables_token row filePath [] ws1 key ws2 [] io
                H1 Hid H2) as Hsub.
  rewrite app_nil_r in Hsub. cbn [app] in Hsub. rewrite Hsub.
  unfold substitute_variables at 1. rewrite replace_all_nil.
  unfold replace_variable, get_property. rewrite Hvalue.
  unfold substitute_variables. rewrite replace_all_nil.
  rewrite app_nil_r. reflexivity.
Qed.

Lemma parsed_rows_fill_the_required_placeholders_witness :
  substitute_variables (website "good.test" "G")
    (u "src/stores/websiteStore.js") (u "{{ title }}") io0
  = (u "G", io0).
Proof.
  destruct (parsed_rows_fill_the_required_placeholders sample_papa
              (u "./src/data/websites.csv") (csv_world sample_csv)
              (snd (parseCSV sample_papa (u "./src/data/websites.csv")
                      (csv_world sample_csv)))
              [website "bad.test" "B"; website "good.test" "G"]
              (website "good.test" "G") (u "title")
              (u "src/stores/websiteStore.js") (u " ") (u " ") io0)
    as (value & Hvalue & _ & Hsub).
  - vm_compute. reflexivity.
  - right. left. reflexivity.
  - vm_compute. tauto.
  - reflexivity.
  - reflexivity.
  - vm_compute in Hvalue. injection Hvalue as <-.
    etransitivity; [exact Hsub|]. vm_compute. reflexivity.
Defined.
